(** * Robinhood 24-hour-market export: a shallow embedding of [index.py]

    The development follows the source file top-down:
    - Python values and exceptions as the script meets them;
    - [float(...)] on those values and the [f"{x:.2f}"] rendering, over
      IEEE-754 binary64 numbers ([SpecFloat] with [prec = 53], [emax = 1024]);
    - [format_market_cap], [fetch_latest_prices], [upload_to_google_sheets]
      and [export_24hr_market_to_csv_and_sheet], the last three in a state
      monad that records every call made to an external collaborator.

    Conventions.
    - A [str] is a [string] of code points below 256.
    - A payload decoded from the provider's JSON is a [pyval]; the provider
      encodes decimal quantities as strings (['4440000000000.00']), so
      [pyval] has no float constructor.
    - Only exceptions deriving from [Exception] are modelled.
    - [print], [time.sleep] and the pandas operations of steps 7 and 8
      ([DataFrame], column selection, [head().to_markdown]) do not raise;
      the data frame keeps the cells the merge stored. *)

From Stdlib Require Import ZArith List String Ascii Bool Lia.
From Stdlib Require Import Floats.SpecFloat.
From Stdlib Require Import DecimalString DecimalPos.
Import ListNotations.

Local Open Scope string_scope.
Local Open Scope list_scope.
Local Open Scope Z_scope.

(* ================================================================== *)
(** ** Exceptions and fallible results *)

Inductive exn : Type :=
| ValueError
| TypeError
| OverflowError
| WorksheetNotFound
| OtherException (what : string).

Inductive result (A : Type) : Type :=
| Ok (a : A)
| Raise (e : exn).

Arguments Ok {A} a.
Arguments Raise {A} e.

Definition rbind {A B : Type} (r : result A) (k : A -> result B) : result B :=
  match r with
  | Ok a => k a
  | Raise e => Raise e
  end.

Notation "x <-? r ;; k" := (rbind r (fun x => k))
  (at level 61, r at next level, right associativity).

(* ================================================================== *)
(** ** Python values *)

#[local] Set Warnings "-register-all".

Inductive pyval : Type :=
| PNone
| PBool (b : bool)
| PInt (z : Z)
| PStr (s : string)
| PList (l : list pyval)
| PDict (d : list (string * pyval)).

(** [bool(v)]. *)
Definition truthy (v : pyval) : bool :=
  match v with
  | PNone => false
  | PBool b => b
  | PInt z => negb (z =? 0)
  | PStr s => negb (String.eqb s "")
  | PList l => match l with [] => false | _ => true end
  | PDict d => match d with [] => false | _ => true end
  end.

(** [isinstance(v, dict)] and [isinstance(v, list)]. *)
Definition is_dict (v : pyval) : bool :=
  match v with PDict _ => true | _ => false end.

Definition is_list (v : pyval) : bool :=
  match v with PList _ => true | _ => false end.

(** A [dict] decoded from JSON has [str] keys; the first binding of a key is
    its value. *)
Fixpoint str_get (k : string) (d : list (string * pyval)) : option pyval :=
  match d with
  | [] => None
  | (k', v) :: d' => if String.eqb k' k then Some v else str_get k d'
  end.

(** [v.get(k)] and [v.get(k, dflt)] on a value known to be a [dict]. *)
Definition py_get (v : pyval) (k : string) (dflt : pyval) : pyval :=
  match v with
  | PDict d => match str_get k d with Some x => x | None => dflt end
  | _ => dflt
  end.

Definition str_mem (k : string) (d : list (string * pyval)) : bool :=
  match str_get k d with Some _ => true | None => false end.

(** Iterating a value ([for x in v], [list.extend(v)]): a list yields its
    items, a string its characters, a dict its keys; anything else is not
    iterable. *)
Fixpoint chars_of (s : string) : list pyval :=
  match s with
  | EmptyString => []
  | String c s' => PStr (String c EmptyString) :: chars_of s'
  end.

Definition py_iter (v : pyval) : result (list pyval) :=
  match v with
  | PList l => Ok l
  | PStr s => Ok (chars_of s)
  | PDict d => Ok (map (fun kv => PStr (fst kv)) d)
  | _ => Raise TypeError
  end.

(** [needle in s] for two strings. *)
Fixpoint is_substring (needle s : string) : bool :=
  if String.prefix needle s then true
  else match s with
       | EmptyString => false
       | String _ s' => is_substring needle s'
       end.

(** ['k' in v]. *)
Definition py_contains (k : string) (v : pyval) : result bool :=
  match v with
  | PDict d => Ok (str_mem k d)
  | PList l => Ok (existsb (fun x => match x with
                                     | PStr s => String.eqb s k
                                     | _ => false
                                     end) l)
  | PStr s => Ok (is_substring k s)
  | _ => Raise TypeError
  end.

(* ================================================================== *)
(** ** Hashable keys and insertion-ordered dictionaries

    [None], booleans, integers and strings are hashable; [True == 1] and
    [False == 0] as keys.  Lists and dicts are not hashable: using one as a
    key raises [TypeError]. *)

Inductive hkey : Type :=
| HNone
| HInt (z : Z)
| HStr (s : string).

Definition hash_key (v : pyval) : option hkey :=
  match v with
  | PNone => Some HNone
  | PBool b => Some (HInt (if b then 1 else 0))
  | PInt z => Some (HInt z)
  | PStr s => Some (HStr s)
  | PList _ | PDict _ => None
  end.

Definition hkey_eqb (a b : hkey) : bool :=
  match a, b with
  | HNone, HNone => true
  | HInt x, HInt y => x =? y
  | HStr x, HStr y => String.eqb x y
  | _, _ => false
  end.

Definition is_hashable (v : pyval) : bool :=
  match hash_key v with Some _ => true | None => false end.

(** A dictionary keeps its entries in insertion order, each with the key
    object that was first inserted. *)
Definition pydict (V : Type) : Type := list (pyval * V).

Definition key_matches (h : hkey) (k : pyval) : bool :=
  match hash_key k with
  | Some h' => hkey_eqb h' h
  | None => false
  end.

Fixpoint dict_lookup {V : Type} (d : pydict V) (h : hkey) : option V :=
  match d with
  | [] => None
  | (k, v) :: d' => if key_matches h k then Some v else dict_lookup d' h
  end.

(** [d[k] = v]: overwrite in place when the key is present, append otherwise. *)
Fixpoint dict_store {V : Type} (d : pydict V) (h : hkey) (k : pyval) (v : V)
  : pydict V :=
  match d with
  | [] => [(k, v)]
  | (k', v') :: d' =>
      if key_matches h k' then (k', v) :: d'
      else (k', v') :: dict_store d' h k v
  end.

Definition dict_setitem {V : Type} (d : pydict V) (k : pyval) (v : V)
  : result (pydict V) :=
  match hash_key k with
  | Some h => Ok (dict_store d h k v)
  | None => Raise TypeError
  end.

(** [d.get(k)]: [None] of the option stands for the caller's default. *)
Definition dict_get {V : Type} (d : pydict V) (k : pyval) : result (option V) :=
  match hash_key k with
  | Some h => Ok (dict_lookup d h)
  | None => Raise TypeError
  end.

(** [list(d.keys())]. *)
Definition dict_keys {V : Type} (d : pydict V) : list pyval := map fst d.

(** The keys of [d] up to key equality. *)
Definition dict_hkeys {V : Type} (d : pydict V) : list (option hkey) :=
  map (fun kv => hash_key (fst kv)) d.

(* ================================================================== *)
(** ** Binary64 numbers *)

Definition prec : Z := 53.
Definition emax : Z := 1024.

Definition float := spec_float.

(** The float nearest to [(-1)^neg * num / den], ties to even; a magnitude
    beyond the largest finite float rounds to an infinity. *)
Definition float_of_ratio (neg : bool) (num den : Z) : float :=
  if num =? 0 then S754_zero neg
  else
    let '(q, e, l) := SFdiv_core_binary prec emax num 0 den 0 in
    binary_round_aux prec emax neg q e l.

(** The float nearest to [(-1)^neg * d * 10^e]: what [float] makes of a
    decimal literal with digits [d] and decimal exponent [e]. *)
Definition float_of_decimal (neg : bool) (d e : Z) : float :=
  float_of_ratio neg (d * 10 ^ Z.max e 0) (10 ^ Z.max (- e) 0).

(** The literals [1e12], [1e9] and [1e6]. *)
Definition f_1e12 : float := float_of_decimal false 1 12.
Definition f_1e9 : float := float_of_decimal false 1 9.
Definition f_1e6 : float := float_of_decimal false 1 6.

(** [x >= y] on floats: false as soon as one side is a NaN. *)
Definition float_ge (x y : float) : bool := SFleb y x.

(** [x / y] for a non-zero divisor [y]. *)
Definition float_div (x y : float) : float := SFdiv prec emax x y.

(** [float(z)] for an integer: [OverflowError] when the nearest float would
    be infinite. *)
Definition float_of_int (z : Z) : result float :=
  match float_of_ratio (z <? 0) (Z.abs z) 1 with
  | S754_infinity _ => Raise OverflowError
  | f => Ok f
  end.

(* ------------------------------------------------------------------ *)
(** *** [float(s)] for a string *)

Definition code (c : ascii) : N := N_of_ascii c.

Definition is_digit (c : ascii) : bool :=
  ((48 <=? code c) && (code c <=? 57))%N.

(** [Py_ISSPACE]: tab, line feed, vertical tab, form feed, carriage return
    and space. *)
Definition is_space (c : ascii) : bool :=
  (((9 <=? code c) && (code c <=? 13)) || (code c =? 32))%N.

(** Code points at or above 128 that [str.isspace] accepts (below 256):
    NEXT LINE and NO-BREAK SPACE. *)
Definition is_high_space (c : ascii) : bool :=
  ((code c =? 133) || (code c =? 160))%N.

Definition to_lower (c : ascii) : ascii :=
  if ((65 <=? code c) && (code c <=? 90))%N
  then ascii_of_N (code c + 32) else c.

(** A string that is not pure ASCII is first mapped to ASCII: characters
    below 127 stay, spaces become [' '], and the first character that is
    neither (no decimal digit lies between 127 and 255) becomes ['?'] and
    ends the string. *)
Fixpoint to_ascii_text (cs : list ascii) : list ascii :=
  match cs with
  | [] => []
  | c :: cs' =>
      if (code c <? 127)%N then c :: to_ascii_text cs'
      else if is_high_space c then " "%char :: to_ascii_text cs'
      else ["?"%char]
  end.

Definition transform_decimal_and_space (cs : list ascii) : list ascii :=
  if forallb (fun c => (code c <? 128)%N) cs then cs else to_ascii_text cs.

(** Underscores may only sit between two digits; they are dropped. *)
Fixpoint strip_underscores (prev : ascii) (cs : list ascii)
  : option (list ascii) :=
  match cs with
  | [] => if Ascii.eqb prev "_" then None else Some []
  | c :: cs' =>
      if Ascii.eqb c "_" then
        if is_digit prev then strip_underscores c cs' else None
      else if Ascii.eqb prev "_" && negb (is_digit c) then None
      else option_map (cons c) (strip_underscores c cs')
  end.

Definition without_underscores (cs : list ascii) : option (list ascii) :=
  if existsb (fun c => Ascii.eqb c "_") cs
  then strip_underscores zero cs else Some cs.

Fixpoint drop_spaces (cs : list ascii) : list ascii :=
  match cs with
  | c :: cs' => if is_space c then drop_spaces cs' else cs
  | [] => []
  end.

(** Leading blanks go, then trailing ones. *)
Definition strip_spaces (cs : list ascii) : list ascii :=
  rev (drop_spaces (rev (drop_spaces cs))).

Fixpoint span_digits (cs : list ascii) : list ascii * list ascii :=
  match cs with
  | c :: cs' =>
      if is_digit c then
        let '(ds, rest) := span_digits cs' in (c :: ds, rest)
      else ([], cs)
  | [] => ([], [])
  end.

Definition digits_value (ds : list ascii) : Z :=
  fold_left (fun acc c => 10 * acc + (Z.of_N (code c) - 48)) ds 0.

Definition split_sign (cs : list ascii) : bool * list ascii :=
  match cs with
  | c :: cs' =>
      if Ascii.eqb c "-" then (true, cs')
      else if Ascii.eqb c "+" then (false, cs')
      else (false, cs)
  | [] => (false, [])
  end.

(** The optional exponent part; [None] when characters are left over. *)
Definition parse_exponent (cs : list ascii) : option Z :=
  match cs with
  | [] => Some 0
  | c :: cs' =>
      if Ascii.eqb (to_lower c) "e" then
        let '(eneg, r) := split_sign cs' in
        match span_digits r with
        | ((_ :: _) as ds, []) =>
            Some (if eneg then - digits_value ds else digits_value ds)
        | _ => None
        end
      else None
  end.

(** A decimal literal: sign, digits with an optional point (at least one
    digit in all), optional exponent. *)
Definition parse_decimal (cs : list ascii) : option float :=
  let '(neg, r0) := split_sign cs in
  let '(ip, r1) := span_digits r0 in
  let '(fp, r2) := match r1 with
                   | c :: r => if Ascii.eqb c "." then span_digits r
                               else ([], r1)
                   | [] => ([], [])
                   end in
  match ip ++ fp with
  | [] => None
  | ds =>
      match parse_exponent r2 with
      | Some e =>
          Some (float_of_decimal neg (digits_value ds)
                  (e - Z.of_nat (List.length fp)))
      | None => None
      end
  end.

Definition lower_text (cs : list ascii) : string :=
  string_of_list_ascii (map to_lower cs).

(** [inf], [infinity] and [nan], signed, in any letter case. *)
Definition parse_inf_or_nan (cs : list ascii) : option float :=
  let '(neg, r) := split_sign cs in
  let w := lower_text r in
  if String.eqb w "inf" || String.eqb w "infinity" then Some (S754_infinity neg)
  else if String.eqb w "nan" then Some S754_nan
  else None.

Definition float_of_string (s : string) : result float :=
  match without_underscores
          (transform_decimal_and_space (list_ascii_of_string s)) with
  | None => Raise ValueError
  | Some cs =>
      let body := strip_spaces cs in
      match parse_decimal body with
      | Some f => Ok f
      | None =>
          match parse_inf_or_nan body with
          | Some f => Ok f
          | None => Raise ValueError
          end
      end
  end.

(** [float(v)]. *)
Definition py_float (v : pyval) : result float :=
  match v with
  | PStr s => float_of_string s
  | PInt z => float_of_int z
  | PBool b => float_of_int (if b then 1 else 0)
  | PNone | PList _ | PDict _ => Raise TypeError
  end.

(* ------------------------------------------------------------------ *)
(** *** [f"{x:.2f}"] *)

Definition digit_char (d : Z) : ascii := ascii_of_N (Z.to_N (48 + d)).

Definition decimal_of_Z (z : Z) : string :=
  NilEmpty.string_of_uint (N.to_uint (Z.to_N z)).

(** [|x| * 100] rounded to an integer, ties to even, for a finite [x] with
    mantissa [m] and exponent [e]. *)
Definition hundredths (m : positive) (e : Z) : Z :=
  let n := Zpos m * 100 in
  if 0 <=? e then n * 2 ^ e
  else
    let d := 2 ^ (- e) in
    let q := n / d in
    let r := n mod d in
    if (d <? 2 * r) || ((d =? 2 * r) && Z.odd q) then q + 1 else q.

Definition fixed2_of_hundredths (neg : bool) (h : Z) : string :=
  ((if neg then "-" else "")
   ++ decimal_of_Z (h / 100) ++ "."
   ++ String (digit_char ((h / 10) mod 10))
        (String (digit_char (h mod 10)) EmptyString))%string.

Definition format_2f (x : float) : string :=
  match x with
  | S754_nan => "nan"
  | S754_infinity neg => if neg then "-inf" else "inf"
  | S754_zero neg => fixed2_of_hundredths neg 0
  | S754_finite neg m e => fixed2_of_hundredths neg (hundredths m e)
  end.

(* ================================================================== *)
(** ** Configuration constants *)

Definition SPREADSHEET_URL : string :=
  "https://docs.google.com/spreadsheets/d/1HEEy30Axok_zWtWiD2N3UMj8Ou9MjFF2ddkirlBg5oo/edit?gid=0#gid=0".
Definition WORKSHEET_NAME : string := "24 Hour Market Data".
Definition ROBINHOOD_USERNAME : string := "".
Definition ROBINHOOD_PASSWORD : string := "".
Definition WATCHLIST_NAME : string := "24 Hour Market".
Definition CHUNK_SIZE : nat := 100.

(* ================================================================== *)
(** ** [format_market_cap] *)

Definition format_market_cap (market_cap_str : pyval)
  : result (string * string) :=
  if negb (truthy market_cap_str) then Ok ("N/A", "")
  else
    match py_float market_cap_str with
    | Ok cap =>
        if float_ge cap f_1e12 then
          Ok (format_2f (float_div cap f_1e12), "T")
        else if float_ge cap f_1e9 then
          Ok (format_2f (float_div cap f_1e9), "B")
        else if float_ge cap f_1e6 then
          Ok (format_2f (float_div cap f_1e6), "M")
        else Ok (format_2f cap, "")
    | Raise ValueError | Raise TypeError => Ok ("N/A", "")
    | Raise e => Raise e
    end.

(* ================================================================== *)
(** ** Calls to the outside world

    Every call the script makes to [robin_stocks] or [gspread] is a [call];
    the outside world answers each one with a value or an exception and
    moves to a new state.  The run keeps a log of the calls with their
    answers, of the pauses and of the diagnostics it prints (informational
    progress lines are left out). *)

Inductive call : Type :=
| CLogin (username password : string)
| CGetWatchlistByName (name : string)
| CGetLatestPrice (tickers : list pyval)
| CGetFundamentals (chunk : list pyval)
| CLogout
| CServiceAccount
| COpenByUrl (url : string)
| CWorksheet (title : string)
| CClear
| CAddWorksheet (title : string) (rows cols : nat)
| CUpdate (table : list (list pyval)) (range : string).

Inductive notice : Type :=
| LoginFailed
| WatchlistEmpty
| NoTickerSymbols
| EmptyDataset
| PriceFetchWarning (e : exn)
| SheetsError (e : exn)
| UnexpectedError (e : exn).

Inductive event : Type :=
| Called (c : call) (answer : result pyval)
| Slept
| Printed (n : notice).

(** One row of the final table, and the table as handed to the sheet. *)
Record OutputRow : Type := mkRow {
  Name : pyval;
  Symbol : pyval;
  Price : string;
  Marketcap_Value : string;
  Marketcap_Unit : string
}.

Definition COLUMNS : list pyval :=
  [PStr "Name"; PStr "Symbol"; PStr "Price";
   PStr "Marketcap Value"; PStr "Marketcap Unit"].

Definition row_values (r : OutputRow) : list pyval :=
  [Name r; Symbol r; PStr (Price r);
   PStr (Marketcap_Value r); PStr (Marketcap_Unit r)].

(* ------------------------------------------------------------------ *)
(** *** The pure parts of the pipeline *)

(** The body of the [zip] loop of [fetch_latest_prices], with its inner
    [try]/[except (ValueError, TypeError)]. *)
Definition store_price (prices : pydict string) (ticker price_str : pyval)
  : result (pydict string) :=
  match (price <-? py_float price_str ;;
         dict_setitem prices ticker ("$" ++ format_2f price)%string) with
  | Ok prices' => Ok prices'
  | Raise ValueError | Raise TypeError => dict_setitem prices ticker "N/A"
  | Raise e => Raise e
  end.

Fixpoint price_loop (pairs : list (pyval * pyval)) (prices : pydict string)
  : result (pydict string) :=
  match pairs with
  | [] => Ok prices
  | (ticker, price_str) :: rest =>
      prices' <-? store_price prices ticker price_str ;;
      price_loop rest prices'
  end.

(** [{ticker: 'N/A' for ticker in tickers}]. *)
Fixpoint all_na (tickers : list pyval) (prices : pydict string)
  : result (pydict string) :=
  match tickers with
  | [] => Ok prices
  | ticker :: rest =>
      prices' <-? dict_setitem prices ticker "N/A" ;;
      all_na rest prices'
  end.

(** What [fetch_latest_prices] does with the provider's answer when the
    call returned. *)
Definition prices_of_answer (tickers : list pyval) (latest_prices_list : pyval)
  : result (pydict string) :=
  match latest_prices_list with
  | PList l =>
      if truthy latest_prices_list then price_loop (combine tickers l) []
      else Ok []
  | _ => Ok []
  end.

(** Step 2: the instrument list out of the raw watchlist answer. *)
Definition list_of_instruments (watchlist_raw_data : pyval) : pyval :=
  match watchlist_raw_data with
  | PDict d =>
      if str_mem "results" d then py_get watchlist_raw_data "results" (PList [])
      else PList []
  | PList _ => watchlist_raw_data
  | _ => PList []
  end.

(** Step 3: symbol -> [{'Name': name}]. *)
Definition instrument_entry : Type := list (string * pyval).

Fixpoint extract_instruments (items : list pyval)
    (instrument_map : pydict instrument_entry)
  : result (pydict instrument_entry) :=
  match items with
  | [] => Ok instrument_map
  | i :: rest =>
      if is_dict i && truthy (py_get i "symbol" PNone) then
        let symbol := py_get i "symbol" PNone in
        let name := py_get i "name" PNone in
        m <-? dict_setitem instrument_map symbol [("Name", name)] ;;
        extract_instruments rest m
      else extract_instruments rest instrument_map
  end.

(** [range(0, stop, step)] and [l[i:j]]. *)
Definition py_range (stop step : nat) : list nat :=
  map (fun k => (k * step)%nat) (seq 0 ((stop + step - 1) / step)%nat).

Definition py_slice {A : Type} (l : list A) (i j : nat) : list A :=
  firstn (j - i) (skipn i l).

(** Step 5: the batches. *)
Definition chunks_of {A : Type} (size : nat) (l : list A) : list (list A) :=
  map (fun i => py_slice l i (i + size)) (py_range (List.length l) size).

Definition ticker_chunks (unique_tickers : list pyval) : list (list pyval) :=
  chunks_of CHUNK_SIZE unique_tickers.

(** The records one batch contributes: a list as it is, the [results] of an
    envelope when that is truthy, nothing otherwise. *)
Definition chunk_records (chunk_fundamentals : pyval) : result (list pyval) :=
  match chunk_fundamentals with
  | PList l => Ok l
  | PDict _ =>
      if truthy (py_get chunk_fundamentals "results" PNone)
      then py_iter (py_get chunk_fundamentals "results" (PList []))
      else Ok []
  | _ => Ok []
  end.

(** Step 6: one fundamentals record, then the whole loop. *)
Definition merge_record (instrument_map : pydict instrument_entry)
    (latest_prices_map : pydict string) (fund : pyval)
  : result (option OutputRow) :=
  if truthy fund && is_dict fund then
    let ticker := py_get fund "symbol" (PStr "N/A") in
    entry <-? dict_get instrument_map ticker ;;
    let name :=
      match str_get "Name" (match entry with Some e => e | None => [] end) with
      | Some n => n
      | None => py_get fund "name" (PStr "N/A")
      end in
    quote <-? dict_get latest_prices_map ticker ;;
    let price := match quote with Some p => p | None => "N/A" end in
    let raw_market_cap := py_get fund "market_cap" PNone in
    cap <-? format_market_cap raw_market_cap ;;
    Ok (Some (mkRow name ticker price (fst cap) (snd cap)))
  else Ok None.

Fixpoint merge_loop (instrument_map : pydict instrument_entry)
    (latest_prices_map : pydict string) (all_fundamentals : list pyval)
    (final_data : list OutputRow) : result (list OutputRow) :=
  match all_fundamentals with
  | [] => Ok final_data
  | fund :: rest =>
      row <-? merge_record instrument_map latest_prices_map fund ;;
      merge_loop instrument_map latest_prices_map rest
        (match row with
         | Some r => final_data ++ [r]
         | None => final_data
         end)
  end.

Definition merge (instrument_map : pydict instrument_entry)
    (latest_prices_map : pydict string) (all_fundamentals : list pyval)
  : result (list OutputRow) :=
  merge_loop instrument_map latest_prices_map all_fundamentals [].

(* ------------------------------------------------------------------ *)
(** *** The run monad: world state, log, exceptions *)

Section Run.

Variable W : Type.
Variable respond : call -> W -> result pyval * W.

Definition state : Type := W * list event.

Definition M (A : Type) : Type := state -> result A * state.

Definition ret {A : Type} (a : A) : M A := fun s => (Ok a, s).

Definition bind {A B : Type} (m : M A) (k : A -> M B) : M B :=
  fun s =>
    match m s with
    | (Ok a, s') => k a s'
    | (Raise e, s') => (Raise e, s')
    end.

Definition lift {A : Type} (r : result A) : M A := fun s => (r, s).

Definition tell (ev : event) : M unit :=
  fun s => (Ok tt, (fst s, snd s ++ [ev])).

Definition ext (c : call) : M pyval :=
  fun s =>
    let '(answer, w') := respond c (fst s) in
    (answer, (w', snd s ++ [Called c answer])).

(** [try: m except <sel>: h]. *)
Definition try_except {A : Type} (sel : exn -> bool) (m : M A)
    (h : exn -> M A) : M A :=
  fun s =>
    match m s with
    | (Ok a, s') => (Ok a, s')
    | (Raise e, s') => if sel e then h e s' else (Raise e, s')
    end.

(** [try: m finally: fin]. *)
Definition try_finally {A : Type} (m : M A) (fin : M unit) : M A :=
  fun s =>
    let '(r, s') := m s in
    match fin s' with
    | (Ok _, s'') => (r, s'')
    | (Raise e, s'') => (Raise e, s'')
    end.

Definition any_exception (e : exn) : bool := true.

Definition is_worksheet_not_found (e : exn) : bool :=
  match e with WorksheetNotFound => true | _ => false end.

Notation "x <- m ;; k" := (bind m (fun x => k))
  (at level 61, m at next level, right associativity).
Notation "m ;;; k" := (bind m (fun _ => k))
  (at level 61, right associativity).

(* ---------------------------------------------------------------- *)
(** *** [fetch_latest_prices] *)

Definition fetch_latest_prices (tickers : list pyval) : M (pydict string) :=
  match tickers with
  | [] => ret []
  | _ =>
      try_except any_exception
        (latest_prices_list <- ext (CGetLatestPrice tickers) ;;
         lift (prices_of_answer tickers latest_prices_list))
        (fun e =>
           tell (Printed (PriceFetchWarning e)) ;;;
           lift (all_na tickers []))
  end.

(* ---------------------------------------------------------------- *)
(** *** [upload_to_google_sheets] *)

Definition upload_to_google_sheets (df : list OutputRow) : M unit :=
  try_except any_exception
    (ext CServiceAccount ;;;
     ext (COpenByUrl SPREADSHEET_URL) ;;;
     try_except is_worksheet_not_found
       (ext (CWorksheet WORKSHEET_NAME) ;;; ext CClear)
       (fun _ =>
          ext (CAddWorksheet WORKSHEET_NAME (List.length df + 1)
                 (List.length COLUMNS))) ;;;
     ext (CUpdate (COLUMNS :: map row_values df) "A1") ;;;
     ret tt)
    (fun e => tell (Printed (SheetsError e))).

(* ---------------------------------------------------------------- *)
(** *** [export_24hr_market_to_csv_and_sheet] *)

(** Step 5: one request per batch, each after a pause. *)
Fixpoint fetch_fundamentals (chunks : list (list pyval))
    (all_fundamentals : list pyval) : M (list pyval) :=
  match chunks with
  | [] => ret all_fundamentals
  | chunk :: rest =>
      tell Slept ;;;
      chunk_fundamentals <- ext (CGetFundamentals chunk) ;;
      records <- lift (chunk_records chunk_fundamentals) ;;
      fetch_fundamentals rest (all_fundamentals ++ records)
  end.

(** Steps 7 and 8: the data frame is empty exactly when [final_data] is;
    otherwise it has the five columns in the order of [COLUMNS] and one
    line per row.  The frame keeps a column of strings as it is, so the
    Price, Marketcap Value and Marketcap Unit cells are the row's, and so
    are Name and Symbol when they are strings; a Name or Symbol column
    that holds [None] or numbers may come back from the frame as [nan] or
    floats, which [pyval] does not have, and the row keeps what went in.
    The preview of the first rows is printed, not logged. *)
Definition publish (final_data : list OutputRow) : M unit :=
  match final_data with
  | [] => tell (Printed EmptyDataset)
  | _ => upload_to_google_sheets final_data
  end.

(** Steps 6 to 8. *)
Definition merge_and_publish (instrument_map : pydict instrument_entry)
    (latest_prices_map : pydict string) (all_fundamentals : list pyval)
  : M unit :=
  final_data <-
    lift (merge instrument_map latest_prices_map all_fundamentals) ;;
  publish final_data.

(** Steps 3 to 8, from the instrument list on. *)
Definition process_instruments (instruments : pyval) : M unit :=
  items <- lift (py_iter instruments) ;;
  instrument_map <- lift (extract_instruments items []) ;;
  let unique_tickers := dict_keys instrument_map in
  match unique_tickers with
  | [] => tell (Printed NoTickerSymbols)
  | _ =>
      latest_prices_map <- fetch_latest_prices unique_tickers ;;
      all_fundamentals <-
        fetch_fundamentals (ticker_chunks unique_tickers) [] ;;
      merge_and_publish instrument_map latest_prices_map all_fundamentals
  end.

(** The body of the outer [try]. *)
Definition export_body : M unit :=
  login_data <- ext (CLogin ROBINHOOD_USERNAME ROBINHOOD_PASSWORD) ;;
  has_token <-
    (if truthy login_data
     then lift (py_contains "access_token" login_data)
     else ret false) ;;
  if negb has_token then tell (Printed LoginFailed)
  else
    watchlist_raw_data <- ext (CGetWatchlistByName WATCHLIST_NAME) ;;
    let instruments := list_of_instruments watchlist_raw_data in
    if negb (truthy instruments) then tell (Printed WatchlistEmpty)
    else process_instruments instruments.

(** Step 9, inside its own [try]/[except Exception: pass]. *)
Definition logout_quietly : M unit :=
  try_except any_exception (ext CLogout ;;; ret tt) (fun _ => ret tt).

Definition export_24hr_market_to_csv_and_sheet : M unit :=
  try_finally
    (try_except any_exception export_body
       (fun e => tell (Printed (UnexpectedError e))))
    logout_quietly.

End Run.

Arguments ret {W A} a.
Arguments bind {W A B} m k.
Arguments lift {W A} r.
Arguments tell {W} ev.
Arguments try_except {W A} sel m h.
Arguments try_finally {W A} m fin.

(* ================================================================== *)
(** ** Vocabulary of the statements *)

(** The unit ladder, as a function of the parsed value. *)
Definition scaled (cap : float) : string * string :=
  if float_ge cap f_1e12 then (format_2f (float_div cap f_1e12), "T")
  else if float_ge cap f_1e9 then (format_2f (float_div cap f_1e9), "B")
  else if float_ge cap f_1e6 then (format_2f (float_div cap f_1e6), "M")
  else (format_2f cap, "").


(** The log a run leaves, and its outcome. *)
Definition trace {W A : Type} (x : result A * state W) : list event :=
  snd (snd x).

Definition outcome {W A : Type} (x : result A * state W) : result A := fst x.

(** The fundamentals requests of a log, each with the provider's answer. *)
Fixpoint fundamentals_calls (evs : list event)
  : list (list pyval * result pyval) :=
  match evs with
  | [] => []
  | Called (CGetFundamentals chunk) answer :: rest =>
      (chunk, answer) :: fundamentals_calls rest
  | _ :: rest => fundamentals_calls rest
  end.

(** What one answer contributes to [all_fundamentals]. *)
Definition contribution (answer : result pyval) : result (list pyval) :=
  v <-? answer ;; chunk_records v.

(** The records of one provider answer, in the provider's order: the items
    of a list, or the items of the [results] list of an envelope. *)
Definition provider_records (answer : pyval) : list pyval :=
  match answer with
  | PList records => records
  | PDict d =>
      match str_get "results" d with
      | Some (PList records) => records
      | _ => []
      end
  | _ => []
  end.

(** An answer in one of the provider's shapes: anything but an envelope
    whose [results] is truthy and is not a list. *)
Definition provider_shaped (answer : pyval) : bool :=
  match answer with
  | PDict d =>
      match str_get "results" d with
      | Some (PList _) | None => true
      | Some r => negb (truthy r)
      end
  | _ => true
  end.

(** The paced request of one batch, as it shows in the log. *)
Definition paced_request (ca : list pyval * result pyval) : list event :=
  [Slept; Called (CGetFundamentals (fst ca)) (snd ca)].

(** What the [zip] loop stores for one provider entry: the formatted price,
    ["N/A"] when [float] rejects the entry with [ValueError] or [TypeError];
    any other exception leaves the loop. *)
Definition quote_of (price_str : pyval) : result string :=
  match py_float price_str with
  | Ok price => Ok ("$" ++ format_2f price)%string
  | Raise ValueError | Raise TypeError => Ok "N/A"
  | Raise e => Raise e
  end.

(** The key set of [prices] is the set of [tickers] (up to key equality). *)
Definition key_set_equal {V : Type} (prices : pydict V) (tickers : list pyval)
  : Prop :=
  forall k, In k (dict_hkeys prices) <-> In k (map hash_key tickers).

(** Every ticker is a key and every value is the sentinel. *)
Definition total_na (prices : pydict string) (tickers : list pyval) : Prop :=
  key_set_equal prices tickers /\ Forall (eq "N/A") (map snd prices).

(** A world that answers from a fixed script and counts the calls. *)
Record script : Type := mkScript {
  on_login : result pyval;
  on_watchlist : result pyval;
  on_prices : list pyval -> result pyval;
  on_fundamentals : list pyval -> result pyval;
  on_logout : result pyval;
  on_sheets : call -> result pyval
}.

Definition scripted (sc : script) (c : call) (w : nat) : result pyval * nat :=
  (match c with
   | CLogin _ _ => on_login sc
   | CGetWatchlistByName _ => on_watchlist sc
   | CGetLatestPrice tickers => on_prices sc tickers
   | CGetFundamentals chunk => on_fundamentals sc chunk
   | CLogout => on_logout sc
   | _ => on_sheets sc c
   end, S w).

Definition instrument (symbol name : string) : pyval :=
  PDict [("symbol", PStr symbol); ("name", PStr name)].

(** A day on which everything works: two instruments, both quoted, one
    fundamentals record per requested symbol. *)
Definition fair_day : script :=
  mkScript
    (Ok (PDict [("access_token", PStr "t0k3n")]))
    (Ok (PDict [("results",
                 PList [instrument "AAPL" "Apple"; instrument "TSLA" "Tesla"])]))
    (fun tickers => Ok (PList (map (fun _ => PStr "150.0000") tickers)))
    (fun chunk =>
       Ok (PList (map (fun t => PDict [("symbol", t);
                                       ("market_cap", PStr "4440000000000.00")])
                    chunk)))
    (Ok PNone)
    (fun _ => Ok PNone).

(** The records that yield a row, and the key they are joined on. *)
Definition emits_row (fund : pyval) : bool := truthy fund && is_dict fund.

Definition record_symbol (fund : pyval) : pyval :=
  py_get fund "symbol" (PStr "N/A").

(** A dict other than [None], possibly empty. *)
Definition non_null_dict (fund : pyval) : bool :=
  is_dict fund && match fund with PNone => false | _ => true end.

(** A record the merge can process without raising: either it is skipped,
    or its symbol can be used as a key and its market cap can be
    formatted. *)
Definition mergeable (fund : pyval) : bool :=
  negb (emits_row fund)
  || (is_hashable (record_symbol fund)
      && match format_market_cap (py_get fund "market_cap" PNone) with
         | Ok _ => true
         | Raise _ => false
         end).

(** The display name the watchlist holds for a key. *)
Definition watchlist_name (instrument_map : pydict instrument_entry)
    (h : hkey) : option pyval :=
  match dict_lookup instrument_map h with
  | Some entry => str_get "Name" entry
  | None => None
  end.

(** The watchlist lookup and price map of the join example. *)
Definition example_names : pydict instrument_entry :=
  [(PStr "AAPL", [("Name", PStr "Apple")]);
   (PStr "TSLA", [("Name", PStr "Tesla")])].

Definition example_prices : pydict string := [(PStr "AAPL", "$150.00")].

Definition example_fundamentals : list pyval :=
  [PDict [("symbol", PStr "AAPL"); ("market_cap", PStr "4440000000000.00")]].

(** *** The output schema *)

(** Digits, a point and exactly two digits, with an optional minus sign. *)
Definition is_fixed2 (s : string) : bool :=
  let cs := list_ascii_of_string s in
  let body := match cs with
              | c :: r => if Ascii.eqb c "-" then r else cs
              | [] => []
              end in
  match rev body with
  | d2 :: d1 :: dot :: ((_ :: _) as int_part) =>
      is_digit d2 && is_digit d1 && Ascii.eqb dot "."
      && forallb is_digit int_part
  | _ => false
  end.

(** What [format_2f] prints for a NaN or an infinity. *)
Definition is_nonfinite (s : string) : bool :=
  String.eqb s "nan" || String.eqb s "inf" || String.eqb s "-inf".

Definition is_unit (u : string) : bool :=
  String.eqb u "" || String.eqb u "M" || String.eqb u "B" || String.eqb u "T".

Definition after_dollar (number : string -> bool) (p : string) : bool :=
  match p with
  | String c rest => Ascii.eqb c "$" && number rest
  | EmptyString => false
  end.

(** The schema as the specification states it, for one row of cells. *)
Definition schema_strict (cells : list pyval) : bool :=
  match cells with
  | [_; _; PStr price; PStr value; PStr unit_] =>
      (String.eqb price "N/A" || after_dollar is_fixed2 price)
      && (String.eqb value "N/A" || is_fixed2 value)
      && is_unit unit_
  | _ => false
  end.

(** The schema the rows meet: a number may also be a non-finite rendering. *)
Definition is_number (s : string) : bool := is_fixed2 s || is_nonfinite s.

Definition is_price (p : string) : bool :=
  String.eqb p "N/A" || after_dollar is_number p.

Definition is_cap_value (v : string) : bool :=
  String.eqb v "N/A" || is_number v.

Definition schema (cells : list pyval) : bool :=
  match cells with
  | [_; _; PStr price; PStr value; PStr unit_] =>
      is_price price && is_cap_value value && is_unit unit_
  | _ => false
  end.

Definition row_schema (r : OutputRow) : bool := schema (row_values r).

(** *** Shapes of a log *)

(** [m] appends events [evs] to the log, and [evs] with the outcome
    satisfy [post]. *)
Definition emits {W A : Type} (m : M W A)
    (post : list event -> result A -> Prop) : Prop :=
  forall s, exists evs,
    trace (m s) = snd s ++ evs /\ post evs (outcome (m s)).

Definition is_sheet_call (c : call) : bool :=
  match c with
  | CServiceAccount | COpenByUrl _ | CWorksheet _ | CClear
  | CAddWorksheet _ _ _ | CUpdate _ _ => true
  | _ => false
  end.

Definition is_logout (c : call) : bool :=
  match c with CLogout => true | _ => false end.

(** The events of the stages before publishing and of the top-level
    handler: no spreadsheet call, no logout, no empty-dataset notice. *)
Definition quiet (ev : event) : bool :=
  match ev with
  | Called c _ => negb (is_sheet_call c) && negb (is_logout c)
  | Slept => true
  | Printed EmptyDataset | Printed (SheetsError _) => false
  | Printed _ => true
  end.

(** The events of an upload of [table]. *)
Definition sheet_event (table : list (list pyval)) (ev : event) : Prop :=
  match ev with
  | Called (CUpdate t range) _ => t = table /\ range = "A1"
  | Called c _ => is_sheet_call c = true
  | Printed (SheetsError _) => True
  | _ => False
  end.

(** What the publishing step leaves in the log. *)
Inductive publication (mid : list event) : Prop :=
| NotReached : mid = [] -> publication mid
| EmptyResult : mid = [Printed EmptyDataset] -> publication mid
| Uploaded (rows : list OutputRow) :
    rows <> [] ->
    Forall (fun r => row_schema r = true) rows ->
    Forall (sheet_event (COLUMNS :: map row_values rows)) mid ->
    publication mid.

(** Quiet events only, and [Q] of the value returned. *)
Definition quietly {A : Type} (Q : A -> Prop) (evs : list event)
    (r : result A) : Prop :=
  Forall (fun ev => quiet ev = true) evs /\ forall a, r = Ok a -> Q a.

(** Quiet events, then a publication; nothing raises once publishing has
    started. *)
Definition body_shape (evs : list event) (r : result unit) : Prop :=
  exists pre mid,
    evs = pre ++ mid
    /\ Forall (fun ev => quiet ev = true) pre
    /\ publication mid
    /\ (mid <> [] -> r = Ok tt).

(** *** Other days *)

Definition with_fundamentals (sc : script)
    (answer : list pyval -> result pyval) : script :=
  mkScript (on_login sc) (on_watchlist sc) (on_prices sc) answer
    (on_logout sc) (on_sheets sc).

Definition with_prices (sc : script)
    (answer : list pyval -> result pyval) : script :=
  mkScript (on_login sc) (on_watchlist sc) answer (on_fundamentals sc)
    (on_logout sc) (on_sheets sc).

Definition with_login (sc : script) (answer : result pyval) : script :=
  mkScript answer (on_watchlist sc) (on_prices sc) (on_fundamentals sc)
    (on_logout sc) (on_sheets sc).

Definition with_watchlist (sc : script) (answer : result pyval) : script :=
  mkScript (on_login sc) answer (on_prices sc) (on_fundamentals sc)
    (on_logout sc) (on_sheets sc).

Definition with_logout (sc : script) (answer : result pyval) : script :=
  mkScript (on_login sc) (on_watchlist sc) (on_prices sc)
    (on_fundamentals sc) answer (on_sheets sc).

(** [n] distinct symbols, [S0], [S1], ... *)
Definition numbered_symbols (n : nat) : list pyval :=
  map (fun i => PStr ("S" ++ NilEmpty.string_of_uint (Nat.to_uint i)))
    (seq 0 n).

(** The bare record of a symbol. *)
Definition record_of (symbol : pyval) : pyval := PDict [("symbol", symbol)].

(** The provider answers each batch with one record per symbol, last
    symbol first. *)
Definition backwards_day : script :=
  with_fundamentals fair_day
    (fun chunk => Ok (PList (rev (map record_of chunk)))).

(** The provider has no fundamentals for any symbol. *)
Definition no_fundamentals_day : script :=
  with_fundamentals fair_day (fun _ => Ok (PList [])).

(** The provider reports a market cap that is not a number. *)
Definition nan_day : script :=
  with_fundamentals fair_day
    (fun chunk =>
       Ok (PList (map (fun t => PDict [("symbol", t); ("market_cap", PStr "nan")])
                    chunk))).

(** The quote provider answers [None], or with one price for two symbols. *)
Definition no_quotes_day : script := with_prices fair_day (fun _ => Ok PNone).

Definition one_quote_day : script :=
  with_prices fair_day (fun _ => Ok (PList [PStr "150.0000"])).

(** The session cannot be closed. *)
Definition stuck_session (sc : script) : script :=
  with_logout sc (Raise (OtherException "logout failed")).

Definition run_script (sc : script) : result unit * state nat :=
  export_24hr_market_to_csv_and_sheet nat (scripted sc) (0%nat, []).

(* ================================================================== *)
(** ** Vocabulary for the rest of the script *)

(** *** The watchlist *)

(** The instruments the extraction loop keeps, with their two fields. *)
Definition has_symbol (i : pyval) : bool :=
  is_dict i && truthy (py_get i "symbol" PNone).

Definition instrument_symbol (i : pyval) : pyval := py_get i "symbol" PNone.

Definition instrument_name (i : pyval) : pyval := py_get i "name" PNone.

(** Each symbol once, in the order of its first appearance; [seen] tells
    the keys met so far. *)
Fixpoint first_seen (seen : hkey -> bool) (symbols : list pyval)
  : list pyval :=
  match symbols with
  | [] => []
  | s :: rest =>
      match hash_key s with
      | Some h =>
          if seen h then first_seen seen rest
          else s :: first_seen (fun h' => hkey_eqb h h' || seen h') rest
      | None => first_seen seen rest
      end
  end.

Definition dict_has {V : Type} (d : pydict V) (h : hkey) : bool :=
  match dict_lookup d h with Some _ => true | None => false end.

(** *** The gates of the run *)

(** The login check of step 1: [login_data] is truthy and holds
    ['access_token']. *)
Definition has_access_token (login_data : pyval) : result bool :=
  if truthy login_data then py_contains "access_token" login_data
  else Ok false.

(** Step 3 on the instrument list: the tickers. *)
Definition instrument_tickers (instruments : pyval) : result (list pyval) :=
  items <-? py_iter instruments ;;
  instrument_map <-? extract_instruments items [] ;;
  Ok (dict_keys instrument_map).

(** Steps 2 and 3 on the raw watchlist answer; no ticker when the
    instrument list is falsy. *)
Definition watchlist_tickers (watchlist_raw_data : pyval)
  : result (list pyval) :=
  if truthy (list_of_instruments watchlist_raw_data)
  then instrument_tickers (list_of_instruments watchlist_raw_data)
  else Ok [].

(** The instrument map step 3 builds from the raw watchlist answer. *)
Definition watchlist_map (watchlist_raw_data : pyval)
  : result (pydict instrument_entry) :=
  items <-? py_iter (list_of_instruments watchlist_raw_data) ;;
  extract_instruments items [].

(** The price map [fetch_latest_prices] returns for a non-empty ticker list
    on the provider's answer: the fallback map when the request or the
    loop raised. *)
Definition prices_from (tickers : list pyval) (answer : result pyval)
  : result (pydict string) :=
  match v <-? answer ;; prices_of_answer tickers v with
  | Ok prices => Ok prices
  | Raise _ => all_na tickers []
  end.

(** A row whose Name and Symbol are strings.  The data frame keeps a column
    of strings as it is; a column that holds [None] or numbers may come
    back from it as [nan] or floats, which are no values of [pyval]. *)
Definition text_row (r : OutputRow) : bool :=
  match Name r, Symbol r with
  | PStr _, PStr _ => true
  | _, _ => false
  end.

(** The cells of a table line after Name and Symbol: Price, Marketcap
    Value, Marketcap Unit. *)
Definition string_cells (line : list pyval) : list pyval := skipn 2 line.

(** The first two calls of a run. *)
Definition login_call : call := CLogin ROBINHOOD_USERNAME ROBINHOOD_PASSWORD.
Definition watchlist_call : call := CGetWatchlistByName WATCHLIST_NAME.

(** *** The spreadsheet protocol *)

(** The calls of a log, in order. *)
Fixpoint calls_of (evs : list event) : list call :=
  match evs with
  | [] => []
  | Called c _ :: rest => c :: calls_of rest
  | _ :: rest => calls_of rest
  end.

(** The three orders in which [upload_to_google_sheets] can reach the
    write: the worksheet exists and is cleared; it does not exist and is
    created; it vanishes between lookup and clearing and is created. *)
Definition sheet_orders (df : list OutputRow) : list (list call) :=
  let table := COLUMNS :: map row_values df in
  let create := CAddWorksheet WORKSHEET_NAME (List.length df + 1) 5 in
  [[CServiceAccount; COpenByUrl SPREADSHEET_URL; CWorksheet WORKSHEET_NAME;
    CClear; CUpdate table "A1"];
   [CServiceAccount; COpenByUrl SPREADSHEET_URL; CWorksheet WORKSHEET_NAME;
    create; CUpdate table "A1"];
   [CServiceAccount; COpenByUrl SPREADSHEET_URL; CWorksheet WORKSHEET_NAME;
    CClear; create; CUpdate table "A1"]].

(** A call that returned, or a lookup that reported a missing worksheet. *)
Definition went_through (ev : event) : Prop :=
  match ev with
  | Called _ (Ok _) => True
  | Called _ (Raise e) => e = WorksheetNotFound
  | _ => False
  end.

(** A call other than the write. *)
Definition not_a_write (ev : event) : Prop :=
  match ev with
  | Called (CUpdate _ _) _ => False
  | Called _ _ => True
  | _ => False
  end.

(** *** The stages after the watchlist *)

(** A fundamentals request whose answer contributed records. *)
Definition contributed (ca : list pyval * result pyval) : Prop :=
  exists records, contribution (snd ca) = Ok records.

(** How a run that reached step 4 ends, after its fundamentals requests
    [calls]: the last request failed; or all contributed and the merge
    raised, found nothing, or its rows were uploaded. *)
Inductive ending (instrument_map : pydict instrument_entry)
    (latest_prices_map : pydict string) (chunks : list (list pyval))
    (calls : list (list pyval * result pyval)) (tail : list event) : Prop :=
| RequestFailed (earlier : list (list pyval * result pyval))
    (chunk : list pyval) (answer : result pyval) (e : exn) :
    calls = earlier ++ [(chunk, answer)] ->
    Forall contributed earlier ->
    contribution answer = Raise e ->
    tail = [Printed (UnexpectedError e)] ->
    ending instrument_map latest_prices_map chunks calls tail
| MergeFailed (records : list (list pyval)) (e : exn) :
    map fst calls = chunks ->
    Forall2 (fun ca r => contribution (snd ca) = Ok r) calls records ->
    merge instrument_map latest_prices_map (List.concat records) = Raise e ->
    tail = [Printed (UnexpectedError e)] ->
    ending instrument_map latest_prices_map chunks calls tail
| NothingMerged (records : list (list pyval)) :
    map fst calls = chunks ->
    Forall2 (fun ca r => contribution (snd ca) = Ok r) calls records ->
    merge instrument_map latest_prices_map (List.concat records) = Ok [] ->
    tail = [Printed EmptyDataset] ->
    ending instrument_map latest_prices_map chunks calls tail
| RowsUploaded (records : list (list pyval)) (rows : list OutputRow) :
    map fst calls = chunks ->
    Forall2 (fun ca r => contribution (snd ca) = Ok r) calls records ->
    merge instrument_map latest_prices_map (List.concat records) = Ok rows ->
    rows <> [] ->
    Forall (sheet_event (COLUMNS :: map row_values rows)) tail ->
    (exists order k,
       In order (sheet_orders rows) /\ calls_of tail = firstn k order) ->
    ending instrument_map latest_prices_map chunks calls tail.

Definition is_fundamentals_call (ev : event) : bool :=
  match ev with Called (CGetFundamentals _) _ => true | _ => false end.

Definition is_quote_call (ev : event) : bool :=
  match ev with Called (CGetLatestPrice _) _ => true | _ => false end.

Definition is_write (ev : event) : bool :=
  match ev with Called (CUpdate _ _) _ => true | _ => false end.

(** The quote provider is down. *)
Definition quotes_down_day : script :=
  with_prices fair_day (fun _ => Raise (OtherException "quotes unavailable")).

(** The fundamentals provider is down. *)
Definition fundamentals_down_day : script :=
  with_fundamentals fair_day
    (fun _ => Raise (OtherException "fundamentals unavailable")).
(* ================================================================== *)
(** * Properties *)

(** ** [float] on strings *)

Lemma float_of_string_raises (s : string) (e : exn) :
  float_of_string s = Raise e -> e = ValueError.
Proof.
  unfold float_of_string.
  destruct (without_underscores _); [|congruence].
  destruct (parse_decimal _); [discriminate|].
  destruct (parse_inf_or_nan _); [discriminate|congruence].
Qed.

Lemma float_of_string_empty : float_of_string "" = Raise ValueError.
Proof. reflexivity. Qed.

Lemma float_of_string_truthy (s : string) (f : float) :
  float_of_string s = Ok f -> truthy (PStr s) = true.
Proof.
  destruct s; [rewrite float_of_string_empty; discriminate|reflexivity].
Qed.

Lemma py_float_raises (v : pyval) (e : exn) :
  py_float v = Raise e ->
  e = ValueError \/ e = TypeError \/ e = OverflowError.
Proof.
  destruct v; simpl; intros H; try (injection H as <-; tauto).
  - unfold float_of_int in H.
    destruct (float_of_ratio _ _ _); try discriminate.
    injection H as <-; tauto.
  - unfold float_of_int in H.
    destruct (float_of_ratio _ _ _); try discriminate.
    injection H as <-; tauto.
  - apply float_of_string_raises in H; tauto.
Qed.

(** ** [format_market_cap] *)

Lemma format_market_cap_parsed (v : pyval) (cap : float) :
  truthy v = true -> py_float v = Ok cap ->
  format_market_cap v = Ok (scaled cap).
Proof.
  intros Ht Hf. unfold format_market_cap, scaled. rewrite Ht, Hf. simpl.
  destruct (float_ge cap f_1e12); [reflexivity|].
  destruct (float_ge cap f_1e9); [reflexivity|].
  destruct (float_ge cap f_1e6); reflexivity.
Qed.

(** C4. For a string that [float] parses to [cap], the unit is chosen by
    the descending ladder [cap >= 1e12] -> "T", [cap >= 1e9] -> "B",
    [cap >= 1e6] -> "M", otherwise no unit, with the value divided
    accordingly and printed with two decimals; the comparisons are
    inclusive, so a string parsing to exactly [1e12], [1e9] or [1e6] gets
    the larger unit, and ["1000000000000.00"] gives [("1.00", "T")]. *)
Theorem format_market_cap_thresholds (s : string) (cap : float) :
  float_of_string s = Ok cap ->
  format_market_cap (PStr s) =
    Ok (if float_ge cap f_1e12 then (format_2f (float_div cap f_1e12), "T")
        else if float_ge cap f_1e9 then (format_2f (float_div cap f_1e9), "B")
        else if float_ge cap f_1e6 then (format_2f (float_div cap f_1e6), "M")
        else (format_2f cap, ""))
  /\ (cap = f_1e12 -> format_market_cap (PStr s) = Ok ("1.00", "T"))
  /\ (cap = f_1e9 -> format_market_cap (PStr s) = Ok ("1.00", "B"))
  /\ (cap = f_1e6 -> format_market_cap (PStr s) = Ok ("1.00", "M"))
  /\ format_market_cap (PStr "1000000000000.00") = Ok ("1.00", "T").
Proof.
  intros Hs.
  assert (H : format_market_cap (PStr s) = Ok (scaled cap)).
  { apply format_market_cap_parsed; [eapply float_of_string_truthy; eauto|exact Hs]. }
  split; [exact H|].
  split; [intros ->; rewrite H; vm_compute; reflexivity|].
  split; [intros ->; rewrite H; vm_compute; reflexivity|].
  split; [intros ->; rewrite H; vm_compute; reflexivity|].
  vm_compute; reflexivity.
Qed.

Lemma format_market_cap_thresholds_witness :
  float_of_string "4440000000000.00"
    = Ok (S754_finite false 4546560000000000 (-10))
  /\ format_market_cap (PStr "4440000000000.00") = Ok ("4.44", "T").
Proof.
  split; [vm_compute; reflexivity|].
  destruct (format_market_cap_thresholds "4440000000000.00"
              (S754_finite false 4546560000000000 (-10))) as [H _].
  - vm_compute; reflexivity.
  - rewrite H. vm_compute. reflexivity.
Defined.

(** The ladder just below and at each threshold. *)
Example format_market_cap_edges :
  map (fun s => format_market_cap (PStr s))
    ["999999.99"; "1000000"; "999999999.99"; "1000000000";
     "999999999999.99"; "1000000000000"]
  = [Ok ("999999.99", ""); Ok ("1.00", "M"); Ok ("1000.00", "M");
     Ok ("1.00", "B"); Ok ("1000.00", "B"); Ok ("1.00", "T")].
Proof. vm_compute. reflexivity. Qed.

(** C5. On [None] and on every string, [format_market_cap] returns a pair
    and does not raise; [None], the empty string and every string that
    [float] rejects (["abc"] is one) give [("N/A", "")]. *)
Theorem format_market_cap_total :
  format_market_cap PNone = Ok ("N/A", "")
  /\ format_market_cap (PStr "") = Ok ("N/A", "")
  /\ format_market_cap (PStr "abc") = Ok ("N/A", "")
  /\ (forall s e, float_of_string s = Raise e ->
        format_market_cap (PStr s) = Ok ("N/A", ""))
  /\ (forall s, exists value unit_, format_market_cap (PStr s) = Ok (value, unit_)).
Proof.
  split; [reflexivity|]. split; [reflexivity|].
  split; [vm_compute; reflexivity|].
  assert (Hrej : forall s e, float_of_string s = Raise e ->
                   format_market_cap (PStr s) = Ok ("N/A", "")).
  { intros s e H. unfold format_market_cap.
    destruct (negb (truthy (PStr s))); [reflexivity|].
    simpl py_float. rewrite H.
    apply float_of_string_raises in H. subst e. reflexivity. }
  split; [exact Hrej|].
  intros s. destruct (float_of_string s) as [cap|e] eqn:E.
  - exists (fst (scaled cap)), (snd (scaled cap)).
    rewrite <- surjective_pairing.
    apply format_market_cap_parsed; [eapply float_of_string_truthy; eauto|exact E].
  - exists "N/A", "". eapply Hrej; eauto.
Qed.

Lemma format_market_cap_total_witness :
  float_of_string "12abc" = Raise ValueError
  /\ format_market_cap (PStr "12abc") = Ok ("N/A", "").
Proof.
  split; [vm_compute; reflexivity|].
  destruct format_market_cap_total as (_ & _ & _ & H & _).
  apply (H "12abc" ValueError). vm_compute. reflexivity.
Defined.

(* ================================================================== *)
(** ** Batching *)

Lemma nth_map_seq {B : Type} (f : nat -> B) (n i : nat) (d : B) :
  (i < n)%nat -> nth i (map f (seq 0 n)) d = f i.
Proof.
  intros Hi.
  rewrite nth_indep with (d' := f 0%nat) by (rewrite length_map, length_seq; lia).
  now rewrite map_nth, seq_nth.
Qed.

Section Chunks.

Context {A : Type}.
Variable size : nat.
Hypothesis size_pos : (0 < size)%nat.

Lemma firstn_add (a b : nat) (l : list A) :
  firstn (a + b) l = firstn a l ++ firstn b (skipn a l).
Proof.
  revert l; induction a as [|a IH]; intros l; simpl; [reflexivity|].
  destruct l as [|x l]; simpl.
  - now rewrite firstn_nil.
  - now rewrite IH.
Qed.

Lemma py_slice_chunk (l : list A) (i : nat) :
  py_slice l i (i + size) = firstn size (skipn i l).
Proof. unfold py_slice. f_equal. lia. Qed.

Lemma chunks_upto (l : list A) (n : nat) :
  List.concat (map (fun i => py_slice l i (i + size))
            (map (fun k => (k * size)%nat) (seq 0 n)))
  = firstn (n * size) l.
Proof.
  induction n as [|n IH]; [reflexivity|].
  rewrite seq_S, !map_app, concat_app, IH. simpl.
  rewrite app_nil_r, py_slice_chunk.
  replace (size + n * size)%nat with (n * size + size)%nat by lia.
  now rewrite firstn_add.
Qed.

Lemma chunk_count_covers (len : nat) :
  (len <= (len + size - 1) / size * size)%nat.
Proof.
  pose proof (Nat.div_mod_eq (len + size - 1) size) as E.
  pose proof (Nat.mod_upper_bound (len + size - 1) size) as B.
  nia.
Qed.

Lemma chunk_count_tight (len k : nat) :
  (k < (len + size - 1) / size)%nat -> (k * size < len)%nat.
Proof.
  intros Hk.
  pose proof (Nat.div_mod_eq (len + size - 1) size) as E.
  pose proof (Nat.mod_upper_bound (len + size - 1) size) as B.
  nia.
Qed.

Lemma chunks_of_concat (l : list A) : List.concat (chunks_of size l) = l.
Proof.
  unfold chunks_of, py_range. rewrite chunks_upto.
  apply firstn_all2, chunk_count_covers.
Qed.

Lemma chunks_of_lengths (l : list A) :
  map (@List.length A) (chunks_of size l)
  = map (fun k => Nat.min size (List.length l - k * size))
      (seq 0 ((List.length l + size - 1) / size)).
Proof.
  unfold chunks_of, py_range. rewrite !map_map.
  apply map_ext. intros k.
  now rewrite py_slice_chunk, length_firstn, length_skipn.
Qed.

Lemma chunks_of_bounds (l : list A) :
  Forall (fun c => (1 <= List.length c <= size)%nat) (chunks_of size l).
Proof.
  apply Forall_forall. intros c Hc.
  apply (in_map (@List.length A)) in Hc.
  rewrite chunks_of_lengths in Hc.
  apply in_map_iff in Hc as (k & <- & Hk).
  apply in_seq in Hk.
  pose proof (chunk_count_tight (List.length l) k). lia.
Qed.

Lemma chunks_of_full (l : list A) (i : nat) :
  (S i < List.length (chunks_of size l))%nat ->
  List.length (nth i (chunks_of size l) []) = size.
Proof.
  unfold chunks_of, py_range. rewrite map_map, length_map, length_seq.
  intros Hi.
  rewrite nth_map_seq by lia.
  rewrite py_slice_chunk, length_firstn, length_skipn.
  pose proof (chunk_count_tight (List.length l) (S i) Hi). lia.
Qed.

End Chunks.

Lemma ticker_chunks_250 (tickers : list pyval) :
  List.length tickers = 250%nat ->
  map (@List.length pyval) (ticker_chunks tickers) = [100; 100; 50]%nat.
Proof.
  intros H. unfold ticker_chunks.
  rewrite chunks_of_lengths by (unfold CHUNK_SIZE; lia).
  rewrite H. reflexivity.
Qed.

(* ================================================================== *)
(** ** The fundamentals loop *)

Section FundamentalsLoop.

Variable W : Type.
Variable respond : call -> W -> result pyval * W.

Lemma fetch_fundamentals_cons (chunk : list pyval)
    (rest : list (list pyval)) (acc : list pyval) (w : W) (t : list event) :
  fetch_fundamentals W respond (chunk :: rest) acc (w, t)
  = let answer := fst (respond (CGetFundamentals chunk) w) in
    let w' := snd (respond (CGetFundamentals chunk) w) in
    let t' := (t ++ [Slept]) ++ [Called (CGetFundamentals chunk) answer] in
    match contribution answer with
    | Ok records =>
        fetch_fundamentals W respond rest (acc ++ records) (w', t')
    | Raise e => (Raise e, (w', t'))
    end.
Proof.
  cbn [fetch_fundamentals]. unfold bind, tell, ext, lift. cbn [fst snd].
  destruct (respond (CGetFundamentals chunk) w) as [[v|e] w']; cbn [fst snd];
    [|reflexivity].
  unfold contribution, rbind. destruct (chunk_records v); reflexivity.
Qed.

Lemma fetch_fundamentals_log (chunks : list (list pyval)) :
  forall (acc : list pyval) (s : state W),
  exists good recs,
    Forall2 (fun ca r => contribution (snd ca) = Ok r) good recs
    /\ ((outcome (fetch_fundamentals W respond chunks acc s)
           = Ok (acc ++ List.concat recs)
         /\ map fst good = chunks
         /\ trace (fetch_fundamentals W respond chunks acc s)
            = snd s ++ flat_map paced_request good)
        \/ (exists c a e,
              outcome (fetch_fundamentals W respond chunks acc s) = Raise e
              /\ contribution a = Raise e
              /\ map fst (good ++ [(c, a)])
                 = firstn (S (List.length good)) chunks
              /\ trace (fetch_fundamentals W respond chunks acc s)
                 = snd s ++ flat_map paced_request (good ++ [(c, a)]))).
Proof.
  induction chunks as [|chunk rest IH]; intros acc [w t].
  - exists [], []. split; [constructor|]. left. simpl.
    now rewrite !app_nil_r.
  - rewrite fetch_fundamentals_cons. cbv zeta.
    set (answer := fst (respond (CGetFundamentals chunk) w)).
    set (w' := snd (respond (CGetFundamentals chunk) w)).
    destruct (contribution answer) as [records|e] eqn:Ec.
    + destruct (IH (acc ++ records)
                  (w', (t ++ [Slept]) ++ [Called (CGetFundamentals chunk) answer]))
        as (good & recs & HF & Hcase).
      exists ((chunk, answer) :: good), (records :: recs).
      split; [constructor; [exact Ec|exact HF]|].
      destruct Hcase as [(Ho & Hm & Ht)|(c & a & e & Ho & Hc & Hm & Ht)].
      * left. rewrite Ho, Ht. cbn [snd]. simpl.
        rewrite <- !app_assoc. simpl. rewrite Hm.
        repeat split; reflexivity.
      * right. exists c, a, e. rewrite Ho, Ht. cbn [snd]. simpl.
        rewrite <- !app_assoc. simpl.
        simpl in Hm. rewrite Hm.
        repeat split; try reflexivity; exact Hc.
    + exists [], []. split; [constructor|]. right.
      exists chunk, answer, e. simpl.
      rewrite <- !app_assoc.
      repeat split; try reflexivity. exact Ec.
Qed.

Lemma chunk_records_shaped (answer : pyval) :
  provider_shaped answer = true ->
  chunk_records answer = Ok (provider_records answer).
Proof.
  destruct answer as [|b|z|s|l|d]; try reflexivity.
  unfold provider_shaped, provider_records, chunk_records, py_get.
  destruct (str_get "results" d) as [r|]; [|reflexivity].
  destruct r as [|b|z|s|l|d']; intros H;
    try (apply negb_true_iff in H; rewrite H; reflexivity);
    try reflexivity.
  simpl. destruct l; reflexivity.
Qed.

Lemma contributions_of_shaped (calls : list (list pyval * result pyval))
    (recs : list (list pyval)) :
  Forall2 (fun ca r => contribution (snd ca) = Ok r) calls recs ->
  forall answers,
    map snd calls = map Ok answers ->
    Forall (fun v => provider_shaped v = true) answers ->
    List.concat recs = flat_map provider_records answers.
Proof.
  induction 1 as [|[c a] r calls recs Hr _ IH]; intros answers Hans Hshape.
  - destruct answers; [reflexivity|discriminate].
  - destruct answers as [|v answers]; [discriminate|].
    simpl in Hans. injection Hans as -> Hans.
    inversion Hshape as [|x l Hv Hrest]; subst.
    simpl in Hr. unfold contribution in Hr. cbn [rbind] in Hr.
    rewrite (chunk_records_shaped v Hv) in Hr. injection Hr as <-.
    simpl. f_equal. now apply IH.
Qed.

(** C3. The symbol list is cut into consecutive batches of at most 100
    that concatenate back to it (all but the last hold exactly 100, and
    250 symbols give batches of 100, 100 and 50); the loop pauses and then
    requests one batch after another, in batch order, stopping at the
    first request that fails; when it completes, every batch was
    requested and [all_fundamentals] is the concatenation, in request
    order, of what each answer contributes; it completes whenever every
    answer contributes; and when every request returns an answer in one of
    the provider's shapes, [all_fundamentals] is the provider's records,
    batch after batch in request order and, within a batch, in the order
    the provider gave them. *)
Theorem fundamentals_batching (tickers : list pyval) (s : state W) :
  let chunks := ticker_chunks tickers in
  let run := fetch_fundamentals W respond chunks [] s in
  List.concat chunks = tickers
  /\ Forall (fun c => (1 <= List.length c <= 100)%nat) chunks
  /\ (forall i, (S i < List.length chunks)%nat ->
        List.length (nth i chunks []) = 100%nat)
  /\ (List.length tickers = 250%nat ->
        map (@List.length pyval) chunks = [100; 100; 50]%nat)
  /\ exists calls,
       trace run = snd s ++ flat_map paced_request calls
       /\ fundamentals_calls (trace run)
          = fundamentals_calls (snd s) ++ calls
       /\ map fst calls = firstn (List.length calls) chunks
       /\ (forall all_fundamentals,
             outcome run = Ok all_fundamentals ->
             map fst calls = chunks
             /\ exists recs,
                  Forall2 (fun ca r => contribution (snd ca) = Ok r)
                    calls recs
                  /\ all_fundamentals = List.concat recs)
       /\ (Forall (fun ca => exists r, contribution (snd ca) = Ok r) calls ->
           exists all_fundamentals, outcome run = Ok all_fundamentals)
       /\ (forall answers,
             map snd calls = map Ok answers ->
             Forall (fun v => provider_shaped v = true) answers ->
             map fst calls = chunks
             /\ outcome run = Ok (flat_map provider_records answers)).
Proof.
  intros chunks run.
  assert (Hsize : (0 < CHUNK_SIZE)%nat) by (unfold CHUNK_SIZE; lia).
  split; [apply chunks_of_concat; exact Hsize|].
  split; [apply (chunks_of_bounds CHUNK_SIZE Hsize)|].
  split; [intros i; apply (chunks_of_full CHUNK_SIZE Hsize)|].
  split; [apply ticker_chunks_250|].
  assert (Hcalls : forall calls t,
            fundamentals_calls (t ++ flat_map paced_request calls)
            = fundamentals_calls t ++ calls).
  { intros calls t. induction t as [|ev t IHt].
    - simpl. induction calls as [|[c a] calls IHc]; [reflexivity|].
      simpl. now rewrite IHc.
    - simpl. destruct ev as [c' a'| |n]; try exact IHt.
      destruct c'; try exact IHt. simpl. now rewrite IHt. }
  destruct (fetch_fundamentals_log chunks [] s)
    as (good & recs & HF & [(Ho & Hm & Ht)|(c & a & e & Ho & Hc & Hm & Ht)]).
  - exists good. fold run in Ho, Ht.
    split; [exact Ht|]. split; [rewrite Ht; apply Hcalls|].
    split; [rewrite <- Hm, <- (length_map fst good); symmetry; apply firstn_all|].
    split; [|split].
    + intros F HFok. split; [exact Hm|]. exists recs.
      split; [exact HF|]. rewrite Ho in HFok. now injection HFok as <-.
    + intros _. eexists; exact Ho.
    + intros answers Hans Hshape. split; [exact Hm|].
      rewrite Ho. simpl.
      now rewrite (contributions_of_shaped good recs HF answers Hans Hshape).
  - exists (good ++ [(c, a)]). fold run in Ho, Ht.
    split; [exact Ht|]. split; [rewrite Ht; apply Hcalls|].
    split; [rewrite Hm, length_app, Nat.add_1_r; reflexivity|].
    split; [|split].
    + intros F HFok. rewrite Ho in HFok. discriminate.
    + intros Hall. apply Forall_app in Hall as [_ Hlast].
      inversion Hlast as [|x l [r Hr] _]; subst.
      simpl in Hr. rewrite Hc in Hr. discriminate.
    + intros answers Hans Hshape. exfalso.
      rewrite map_app in Hans. simpl in Hans.
      assert (Hlast : exists v, a = Ok v /\ In v answers).
      { clear - Hans. revert answers Hans.
        induction (map snd good) as [|x l IH]; intros answers Hans.
        - destruct answers as [|v answers]; [discriminate|].
          simpl in Hans. injection Hans as -> _. exists v. split; auto.
          now left.
        - destruct answers as [|v answers]; [discriminate|].
          simpl in Hans. injection Hans as _ Hans.
          destruct (IH _ Hans) as (v' & Hv & Hin). exists v'. split; auto.
          now right. }
      destruct Hlast as (v & -> & Hin).
      apply (proj1 (Forall_forall _ _) Hshape) in Hin.
      unfold contribution in Hc. cbn [rbind] in Hc.
      rewrite (chunk_records_shaped v Hin) in Hc. discriminate.
Qed.

End FundamentalsLoop.

(* ================================================================== *)
(** ** Dictionaries *)

Lemma hkey_eqb_eq (a b : hkey) : hkey_eqb a b = true <-> a = b.
Proof.
  destruct a, b; simpl; split; intros H; try discriminate; try reflexivity.
  - apply Z.eqb_eq in H. now subst.
  - injection H as ->. apply Z.eqb_refl.
  - apply String.eqb_eq in H. now subst.
  - injection H as ->. apply String.eqb_refl.
Qed.

Lemma key_matches_iff (h : hkey) (k : pyval) :
  key_matches h k = true <-> hash_key k = Some h.
Proof.
  unfold key_matches. destruct (hash_key k) as [h'|].
  - rewrite hkey_eqb_eq. split; congruence.
  - split; discriminate.
Qed.

Lemma key_matches_false (h : hkey) (k : pyval) :
  key_matches h k = false <-> hash_key k <> Some h.
Proof.
  rewrite <- key_matches_iff. destruct (key_matches h k); split; congruence.
Qed.

Section DictFacts.

Context {V : Type}.
Implicit Types (d : pydict V) (h : hkey) (k : pyval) (v : V).

Lemma dict_lookup_store_same d h k v :
  hash_key k = Some h -> dict_lookup (dict_store d h k v) h = Some v.
Proof.
  intros Hk. induction d as [|[k' v'] d IH]; simpl.
  - apply key_matches_iff in Hk. now rewrite Hk.
  - destruct (key_matches h k') eqn:E; simpl; rewrite E; [reflexivity|exact IH].
Qed.

Lemma dict_lookup_store_other d h h' k v :
  hash_key k = Some h -> h' <> h ->
  dict_lookup (dict_store d h k v) h' = dict_lookup d h'.
Proof.
  intros Hk Hne. induction d as [|[k' v'] d IH]; simpl.
  - assert (E : key_matches h' k = false)
      by (apply key_matches_false; congruence).
    now rewrite E.
  - destruct (key_matches h k') eqn:E; simpl.
    + apply key_matches_iff in E.
      assert (E' : key_matches h' k' = false)
        by (apply key_matches_false; congruence).
      now rewrite E'.
    + destruct (key_matches h' k'); [reflexivity|exact IH].
Qed.

Lemma dict_hkeys_store d h k v (x : option hkey) :
  hash_key k = Some h ->
  In x (dict_hkeys (dict_store d h k v)) <-> In x (dict_hkeys d) \/ x = Some h.
Proof.
  intros Hk. unfold dict_hkeys.
  induction d as [|[k' v'] d IH]; simpl.
  - rewrite Hk. intuition congruence.
  - destruct (key_matches h k') eqn:E; simpl.
    + apply key_matches_iff in E. rewrite E. intuition congruence.
    + rewrite IH. tauto.
Qed.

Lemma dict_values_store (P : V -> Prop) d h k v :
  Forall P (map snd d) -> P v -> Forall P (map snd (dict_store d h k v)).
Proof.
  intros Hd Hv. induction d as [|[k' v'] d IH]; simpl.
  - constructor; [exact Hv|constructor].
  - simpl in Hd. inversion Hd as [|? ? Hv' Hd']; subst.
    destruct (key_matches h k'); simpl; constructor; auto.
Qed.

Lemma dict_lookup_value (P : V -> Prop) d h v :
  Forall P (map snd d) -> dict_lookup d h = Some v -> P v.
Proof.
  induction d as [|[k' v'] d IH]; simpl; [discriminate|].
  intros Hd. inversion Hd as [|? ? Hv' Hd']; subst.
  destruct (key_matches h k'); [intros [= <-]; exact Hv'|auto].
Qed.

Lemma dict_lookup_absent d h :
  ~ In (Some h) (dict_hkeys d) -> dict_lookup d h = None.
Proof.
  unfold dict_hkeys. induction d as [|[k' v'] d IH]; simpl; [reflexivity|].
  intros Hn. destruct (key_matches h k') eqn:E.
  - apply key_matches_iff in E. tauto.
  - apply IH. tauto.
Qed.

Lemma dict_setitem_hashable d k v h :
  hash_key k = Some h -> dict_setitem d k v = Ok (dict_store d h k v).
Proof. unfold dict_setitem. now intros ->. Qed.

End DictFacts.

Lemma is_hashable_iff (k : pyval) :
  is_hashable k = true <-> exists h, hash_key k = Some h.
Proof.
  unfold is_hashable. destruct (hash_key k) as [h|]; split.
  - eauto.
  - reflexivity.
  - discriminate.
  - intros [h H]. discriminate.
Qed.

(* ================================================================== *)
(** ** The price loop *)

Lemma store_price_hashable (prices : pydict string) (ticker price_str : pyval)
    (h : hkey) :
  hash_key ticker = Some h ->
  store_price prices ticker price_str
  = q <-? quote_of price_str ;; Ok (dict_store prices h ticker q).
Proof.
  intros Hk. unfold store_price, quote_of, dict_setitem. rewrite Hk.
  destruct (py_float price_str) as [f|e] eqn:E; simpl; [reflexivity|].
  destruct e; reflexivity.
Qed.

Lemma store_price_values (P : string -> Prop) (prices prices' : pydict string)
    (ticker price_str : pyval) :
  P "N/A" -> (forall f, P ("$" ++ format_2f f)%string) ->
  Forall P (map snd prices) ->
  store_price prices ticker price_str = Ok prices' ->
  Forall P (map snd prices').
Proof.
  intros Hna Hfmt Hd. unfold store_price, dict_setitem.
  destruct (py_float price_str) as [f|e], (hash_key ticker) as [h|];
    try destruct e; simpl; try discriminate;
    intros [= <-]; apply dict_values_store; auto; apply Hfmt.
Qed.

Lemma price_loop_values (P : string -> Prop) (pairs : list (pyval * pyval)) :
  P "N/A" -> (forall f, P ("$" ++ format_2f f)%string) ->
  forall prices prices',
    Forall P (map snd prices) ->
    price_loop pairs prices = Ok prices' ->
    Forall P (map snd prices').
Proof.
  intros Hna Hfmt. induction pairs as [|[t v] pairs IH]; simpl; intros d d' Hd.
  - now intros [= <-].
  - destruct (store_price d t v) as [d1|e] eqn:E; simpl; [|discriminate].
    apply IH. eapply store_price_values; eauto.
Qed.

Lemma all_na_values (P : string -> Prop) (tickers : list pyval) :
  P "N/A" ->
  forall prices prices',
    Forall P (map snd prices) ->
    all_na tickers prices = Ok prices' ->
    Forall P (map snd prices').
Proof.
  intros Hna. induction tickers as [|t tickers IH]; simpl; intros d d' Hd.
  - now intros [= <-].
  - unfold dict_setitem. destruct (hash_key t) as [h|]; simpl; [|discriminate].
    apply IH. now apply dict_values_store.
Qed.

Lemma all_na_total (tickers : list pyval) :
  Forall (fun t => is_hashable t = true) tickers ->
  forall prices,
  exists prices',
    all_na tickers prices = Ok prices'
    /\ forall k, In k (dict_hkeys prices')
                 <-> In k (dict_hkeys prices) \/ In k (map hash_key tickers).
Proof.
  induction 1 as [|t tickers Ht _ IH]; intros d; simpl.
  - exists d. split; [reflexivity|]. tauto.
  - apply is_hashable_iff in Ht as [h Hh].
    rewrite (dict_setitem_hashable _ _ _ _ Hh). simpl.
    destruct (IH (dict_store d h t "N/A")) as (d' & Hd' & Hk).
    exists d'. split; [exact Hd'|].
    intros k. rewrite Hk, dict_hkeys_store by exact Hh. rewrite Hh.
    intuition congruence.
Qed.

Lemma price_loop_ok (pairs : list (pyval * pyval)) :
  Forall (fun p => is_hashable (fst p) = true) pairs ->
  Forall (fun p => exists q, quote_of (snd p) = Ok q) pairs ->
  forall prices,
  exists prices',
    price_loop pairs prices = Ok prices'
    /\ (forall k, In k (dict_hkeys prices')
                  <-> In k (dict_hkeys prices)
                      \/ In k (map (fun p => hash_key (fst p)) pairs))
    /\ (forall h, ~ In (Some h) (map (fun p => hash_key (fst p)) pairs) ->
                  dict_lookup prices' h = dict_lookup prices h)
    /\ (forall pre t v post,
          pairs = pre ++ (t, v) :: post ->
          (forall p, In p post -> hash_key (fst p) <> hash_key t) ->
          exists h q, hash_key t = Some h /\ quote_of v = Ok q
                      /\ dict_lookup prices' h = Some q).
Proof.
  induction pairs as [|[t v] pairs IH]; intros Hh Hq d; simpl.
  - exists d. split; [reflexivity|]. split; [tauto|]. split; [reflexivity|].
    intros [|? ?] ? ? ? E; discriminate.
  - inversion Hh as [|? ? Ht Hh']; subst.
    inversion Hq as [|? ? [q Hqv] Hq']; subst. simpl in Ht, Hqv.
    apply is_hashable_iff in Ht as [h Hk].
    rewrite (store_price_hashable _ _ _ _ Hk), Hqv. simpl.
    destruct (IH Hh' Hq' (dict_store d h t q)) as (d' & Hd' & Hkeys & Hfar & Hpos).
    exists d'. split; [exact Hd'|]. split; [|split].
    + intros k. rewrite Hkeys, dict_hkeys_store by exact Hk. rewrite Hk.
      intuition congruence.
    + intros h' Hn. rewrite Hfar by tauto.
      apply dict_lookup_store_other; [exact Hk|]. intros ->. tauto.
    + intros pre t0 v0 post E Hlater.
      destruct pre as [|p pre]; simpl in E.
      * inversion E; subst t0 v0 post.
        exists h, q. split; [exact Hk|]. split; [exact Hqv|].
        rewrite Hfar.
        -- now apply dict_lookup_store_same.
        -- intros Hin. apply in_map_iff in Hin as (p & Hp & Hin).
           apply (Hlater p Hin). congruence.
      * inversion E; subst. eapply Hpos; eauto.
Qed.

Lemma price_loop_raises (pairs : list (pyval * pyval)) :
  Forall (fun p => is_hashable (fst p) = true) pairs ->
  Exists (fun p => exists e, quote_of (snd p) = Raise e) pairs ->
  forall prices, exists e, price_loop pairs prices = Raise e.
Proof.
  induction pairs as [|[t v] pairs IH]; intros Hh Hex d.
  - inversion Hex.
  - inversion Hh as [|? ? Ht Hh']; subst. simpl in Ht.
    apply is_hashable_iff in Ht as [h Hk]. simpl.
    rewrite (store_price_hashable _ _ _ _ Hk).
    destruct (quote_of v) as [q|e] eqn:Eq; simpl; [|eauto].
    apply IH; [exact Hh'|].
    inversion Hex as [? ? [e He]|]; subst; [simpl in He; congruence|assumption].
Qed.

Lemma map_fst_combine {A B : Type} (a : list A) (b : list B) :
  map fst (combine a b) = firstn (List.length b) a.
Proof.
  revert b; induction a as [|x a IH]; intros [|y b]; simpl; try reflexivity.
  now rewrite IH.
Qed.

Lemma in_firstn_in {A : Type} (n : nat) (l : list A) (x : A) :
  In x (firstn n l) -> In x l.
Proof.
  intros H. rewrite <- (firstn_skipn n l). apply in_or_app. now left.
Qed.

Lemma quote_ok_dec (p : pyval * pyval) :
  {exists q, quote_of (snd p) = Ok q} + {~ exists q, quote_of (snd p) = Ok q}.
Proof.
  destruct (quote_of (snd p)) as [q|e].
  - left. now exists q.
  - right. intros [q H]. discriminate.
Qed.

(* ================================================================== *)
(** ** [fetch_latest_prices] *)

Section PriceFetcher.

Variable W : Type.
Variable respond : call -> W -> result pyval * W.

Lemma fetch_latest_prices_run (tickers : list pyval) (s : state W) :
  tickers <> [] ->
  fetch_latest_prices W respond tickers s
  = let answer := fst (respond (CGetLatestPrice tickers) (fst s)) in
    let w' := snd (respond (CGetLatestPrice tickers) (fst s)) in
    let t' := snd s ++ [Called (CGetLatestPrice tickers) answer] in
    match v <-? answer ;; prices_of_answer tickers v with
    | Ok prices => (Ok prices, (w', t'))
    | Raise e =>
        (all_na tickers [], (w', t' ++ [Printed (PriceFetchWarning e)]))
    end.
Proof.
  intros Hne. destruct tickers as [|t0 tickers]; [congruence|].
  unfold fetch_latest_prices, try_except, bind, ext, lift, tell, any_exception.
  destruct (respond _ (fst s)) as [[v|e] w']; cbn [fst snd rbind];
    [|reflexivity].
  destruct (prices_of_answer _ v); reflexivity.
Qed.

Lemma fetch_latest_prices_values (P : string -> Prop) (tickers : list pyval)
    (s : state W) (prices : pydict string) :
  P "N/A" -> (forall f, P ("$" ++ format_2f f)%string) ->
  outcome (fetch_latest_prices W respond tickers s) = Ok prices ->
  Forall P (map snd prices).
Proof.
  intros Hna Hfmt.
  destruct tickers as [|t0 tickers].
  { simpl. intros [= <-]. constructor. }
  rewrite fetch_latest_prices_run by discriminate. cbv zeta.
  destruct (fst (respond _ (fst s))) as [v|e]; cbn [rbind].
  - destruct (prices_of_answer _ v) as [d|e] eqn:E; cbn [outcome fst].
    + intros [= <-]. unfold prices_of_answer in E.
      destruct v; try (injection E as <-; constructor).
      destruct (truthy (PList l)); [|injection E as <-; constructor].
      eapply price_loop_values; eauto; constructor.
    + eapply all_na_values; eauto; constructor.
  - cbn [outcome fst]. eapply all_na_values; eauto; constructor.
Qed.

(** C2, as the code has it. With hashable tickers (strings are),
    [fetch_latest_prices] never raises and its keys are input symbols;
    the key set is the whole input, every value ["N/A"], when the
    provider raises or an entry makes [float] raise something other than
    [ValueError] or [TypeError]; it is the first [len(answer)] symbols,
    matched by position (a repeated symbol keeps its last entry), when the
    provider returns a non-empty list, with ["N/A"] for every entry that
    [float] rejects; and it is empty when the provider returns [None],
    an empty list or something that is not a list. *)
Theorem fetch_latest_prices_mapping (tickers : list pyval) (s : state W) :
  Forall (fun t => is_hashable t = true) tickers ->
  let answer := fst (respond (CGetLatestPrice tickers) (fst s)) in
  let run := fetch_latest_prices W respond tickers s in
  exists prices,
    outcome run = Ok prices
    /\ (forall k, In k (dict_hkeys prices) -> In k (map hash_key tickers))
    /\ (tickers = [] -> prices = [] /\ trace run = snd s)
    /\ (tickers <> [] ->
        (forall e, answer = Raise e -> total_na prices tickers)
        /\ (forall l, answer = Ok (PList l) -> l <> [] ->
              Exists (fun p => exists e, quote_of (snd p) = Raise e)
                (combine tickers l) ->
              total_na prices tickers)
        /\ (forall l, answer = Ok (PList l) -> l <> [] ->
              Forall (fun p => exists q, quote_of (snd p) = Ok q)
                (combine tickers l) ->
              key_set_equal prices (firstn (List.length l) tickers)
              /\ forall pre t v post,
                   combine tickers l = pre ++ (t, v) :: post ->
                   (forall p, In p post -> hash_key (fst p) <> hash_key t) ->
                   exists h q,
                     hash_key t = Some h /\ quote_of v = Ok q
                     /\ dict_lookup prices h = Some q)
        /\ (forall v, answer = Ok v -> is_list v && truthy v = false ->
              prices = [])).
Proof.
  intros Hh.
  destruct tickers as [|t0 tickers'].
  { intros answer run. exists []. split; [reflexivity|].
    split; [intros k []|].
    split; [intros _; split; reflexivity|]. congruence. }
  remember (t0 :: tickers') as tickers eqn:Et.
  assert (Hne : tickers <> []) by (subst; discriminate).
  clear Et t0 tickers'.
  intros answer run.
  assert (Hna : exists prices,
             all_na tickers [] = Ok prices /\ total_na prices tickers).
  { destruct (all_na_total tickers Hh []) as (d & Hd & Hk).
    exists d. split; [exact Hd|]. split.
    - intros k. rewrite Hk. simpl. tauto.
    - eapply all_na_values; eauto; constructor. }
  destruct Hna as (dna & Hdna & Htot).
  assert (Hpairs : forall l,
             Forall (fun p : pyval * pyval => is_hashable (fst p) = true)
               (combine tickers l)).
  { intros l. apply Forall_forall. intros [t v] Hin.
    apply in_combine_l in Hin. simpl.
    now apply (proj1 (Forall_forall _ _) Hh). }
  subst run. rewrite fetch_latest_prices_run by exact Hne. cbv zeta.
  fold answer.
  destruct answer as [v|e] eqn:Ea; cbn [rbind].
  - destruct v as [| | | |l|]; cbn [prices_of_answer];
      try (exists []; split; [reflexivity|]; split; [intros k []|];
           split; [congruence|]; intros _;
           repeat split; try congruence; try discriminate;
           intros; congruence).
    destruct l as [|x l].
    { exists []. split; [reflexivity|]. split; [intros k []|].
      split; [congruence|]. intros _.
      repeat split; try congruence; try discriminate; intros; congruence. }
    cbn [truthy].
    destruct (Forall_Exists_dec _ quote_ok_dec
                (combine tickers (x :: l))) as [Hall|Hex].
    + destruct (price_loop_ok _ (Hpairs (x :: l)) Hall [])
        as (d & Hd & Hkeys & _ & Hpos).
      rewrite Hd. exists d. cbn [outcome fst].
      assert (Hks : key_set_equal d (firstn (List.length (x :: l)) tickers)).
      { intros k. rewrite Hkeys, <- map_fst_combine, map_map. simpl. tauto. }
      split; [reflexivity|]. split.
      { intros k Hk. apply Hks in Hk. apply in_map_iff in Hk as (t & <- & Hin).
        apply in_map. eapply in_firstn_in; eauto. }
      split; [congruence|]. intros _.
      split; [discriminate|]. split.
      { intros l0 [= <-] _ Hex. exfalso.
        apply Exists_exists in Hex as (p & Hin & e & He).
        apply (proj1 (Forall_forall _ _) Hall) in Hin as [q Hq]. congruence. }
      split.
      { intros l0 [= <-] _ _. split; [exact Hks|exact Hpos]. }
      intros v [= <-]. discriminate.
    + assert (Hex' : Exists (fun p => exists e, quote_of (snd p) = Raise e)
                       (combine tickers (x :: l))).
      { apply Exists_exists in Hex as (p & Hin & Hn).
        apply Exists_exists. exists p. split; [exact Hin|].
        destruct (quote_of (snd p)) as [q|e]; [exfalso; eauto|eauto]. }
      destruct (price_loop_raises _ (Hpairs (x :: l)) Hex' []) as [e He].
      rewrite He, Hdna. exists dna. cbn [outcome fst].
      split; [reflexivity|]. split; [intros k; apply (proj1 Htot)|].
      split; [congruence|]. intros _.
      split; [discriminate|]. split; [intros; exact Htot|]. split.
      { intros l0 [= <-] _ Hall. exfalso.
        apply Exists_exists in Hex' as (p & Hin & e' & He').
        apply (proj1 (Forall_forall _ _) Hall) in Hin as [q Hq]. congruence. }
      intros v [= <-]. discriminate.
  - rewrite Hdna. exists dna. cbn [outcome fst].
    split; [reflexivity|]. split; [intros k; apply (proj1 Htot)|].
    split; [congruence|]. intros _.
    split; [intros; exact Htot|].
    repeat split; intros; discriminate.
Qed.

End PriceFetcher.

(* ================================================================== *)
(** ** The merge *)

Section Merge.

Variable instrument_map : pydict instrument_entry.
Variable latest_prices_map : pydict string.

Let merge_record' := merge_record instrument_map latest_prices_map.
Let merge_loop' := merge_loop instrument_map latest_prices_map.

Lemma merge_record_skips (fund : pyval) :
  emits_row fund = false -> merge_record' fund = Ok None.
Proof.
  unfold merge_record', merge_record, emits_row. now intros ->.
Qed.

Lemma merge_record_row (fund : pyval) (h : hkey) (cap : string * string) :
  emits_row fund = true ->
  hash_key (record_symbol fund) = Some h ->
  format_market_cap (py_get fund "market_cap" PNone) = Ok cap ->
  merge_record' fund
  = Ok (Some (mkRow
                (match watchlist_name instrument_map h with
                 | Some n => n
                 | None => py_get fund "name" (PStr "N/A")
                 end)
                (record_symbol fund)
                (match dict_lookup latest_prices_map h with
                 | Some p => p
                 | None => "N/A"
                 end)
                (fst cap) (snd cap))).
Proof.
  unfold merge_record', merge_record, emits_row, record_symbol, dict_get,
    watchlist_name.
  intros -> -> ->. simpl.
  destruct (dict_lookup instrument_map h); reflexivity.
Qed.

Lemma merge_record_mergeable (fund : pyval) :
  emits_row fund = true -> mergeable fund = true ->
  exists r, merge_record' fund = Ok (Some r)
            /\ Symbol r = record_symbol fund.
Proof.
  unfold mergeable. intros He. rewrite He. simpl.
  intros Hm. apply andb_prop in Hm as [Hh Hc].
  apply is_hashable_iff in Hh as [h Hh].
  destruct (format_market_cap _) as [cap|] eqn:Ec; [|discriminate].
  rewrite (merge_record_row _ _ _ He Hh Ec). eexists; split; reflexivity.
Qed.

Lemma merge_record_raises (fund : pyval) :
  mergeable fund = false -> exists e, merge_record' fund = Raise e.
Proof.
  unfold mergeable, merge_record', merge_record, emits_row, record_symbol,
    is_hashable, dict_get.
  destruct (truthy fund && is_dict fund); simpl; [|discriminate].
  destruct (hash_key _) as [h|]; simpl; [|eauto].
  destruct (format_market_cap _); [discriminate|simpl; eauto].
Qed.

Lemma merge_record_some_emits (fund : pyval) (r : OutputRow) :
  merge_record' fund = Ok (Some r) -> emits_row fund = true.
Proof.
  intros H. destruct (emits_row fund) eqn:E; [reflexivity|].
  rewrite merge_record_skips in H by exact E. discriminate.
Qed.

Lemma merge_loop_acc (funds : list pyval) :
  forall acc,
    merge_loop' funds acc
    = rows <-? merge_loop' funds [] ;; Ok (acc ++ rows).
Proof.
  unfold merge_loop'.
  induction funds as [|f funds IH]; intros acc; simpl.
  - now rewrite app_nil_r.
  - destruct (merge_record _ _ f) as [[r|]|e]; simpl; try reflexivity.
    + rewrite IH. rewrite (IH [r]).
      destruct (merge_loop _ _ funds []); simpl; [|reflexivity].
      now rewrite <- app_assoc.
    + apply IH.
Qed.

Lemma merge_loop_rows (funds : list pyval) :
  Forall (fun f => mergeable f = true) funds ->
  exists rows,
    merge_loop' funds [] = Ok rows
    /\ Forall2 (fun f r => merge_record' f = Ok (Some r))
         (filter emits_row funds) rows.
Proof.
  induction 1 as [|f funds Hf _ (rows & Hrows & HF)].
  - exists []. split; [reflexivity|constructor].
  - unfold merge_loop'. simpl. fold merge_loop'.
    destruct (emits_row f) eqn:He.
    + destruct (merge_record_mergeable f He Hf) as (r & Hr & _).
      fold (merge_record' f). rewrite Hr. simpl.
      rewrite merge_loop_acc, Hrows. simpl.
      exists (r :: rows). split; [reflexivity|]. now constructor.
    + fold (merge_record' f). rewrite merge_record_skips by exact He. simpl.
      exists rows. now split.
Qed.

Lemma merge_loop_needs_mergeable (funds : list pyval) (rows : list OutputRow) :
  merge_loop' funds [] = Ok rows ->
  Forall (fun f => mergeable f = true) funds.
Proof.
  revert rows. induction funds as [|f funds IH]; intros rows; [constructor|].
  unfold merge_loop'. simpl. fold merge_loop'. fold (merge_record' f).
  destruct (mergeable f) eqn:Hm.
  - destruct (merge_record' f) as [row|]; simpl; [|discriminate].
    rewrite merge_loop_acc.
    destruct (merge_loop' funds []) as [rows'|] eqn:E; [|discriminate].
    intros _. constructor; [exact Hm|]. eapply IH; reflexivity.
  - destruct (merge_record_raises f Hm) as [e ->]. discriminate.
Qed.

End Merge.

Lemma Forall2_symbols (instrument_map : pydict instrument_entry)
    (latest_prices_map : pydict string) (funds : list pyval)
    (rows : list OutputRow) :
  Forall2 (fun f r =>
             merge_record instrument_map latest_prices_map f = Ok (Some r))
    funds rows ->
  Forall (fun f => mergeable f = true) funds ->
  map Symbol rows = map record_symbol funds.
Proof.
  induction 1 as [|f r funds rows Hr _ IH]; intros Hm; [reflexivity|].
  inversion Hm as [|? ? Hf Hm']; subst. simpl. rewrite IH by exact Hm'.
  f_equal.
  destruct (merge_record_mergeable instrument_map latest_prices_map f
              (merge_record_some_emits _ _ _ _ Hr) Hf) as (r' & Hr' & Hs).
  congruence.
Qed.

(** C1, as the code has it. When every record can be processed (its symbol
    is usable as a key and its market cap can be formatted), the merge
    returns exactly one row per fundamentals record that is a non-empty
    dict, in fundamentals order, each row being the one built from its
    record; so a symbol that no fundamentals record carries has no row,
    whatever the watchlist holds.  On the example of the specification the
    output is the single row ("Apple", "AAPL", "$150.00", "4.44", "T"). *)
Theorem merge_fan_in (instrument_map : pydict instrument_entry)
    (latest_prices_map : pydict string) (all_fundamentals : list pyval) :
  Forall (fun f => mergeable f = true) all_fundamentals ->
  (exists rows,
     merge instrument_map latest_prices_map all_fundamentals = Ok rows
     /\ Forall2 (fun f r =>
                   merge_record instrument_map latest_prices_map f
                   = Ok (Some r))
          (filter emits_row all_fundamentals) rows
     /\ map Symbol rows = map record_symbol (filter emits_row all_fundamentals)
     /\ (forall k, ~ In k (map record_symbol all_fundamentals) ->
                   ~ In k (map Symbol rows)))
  /\ merge example_names example_prices example_fundamentals
     = Ok [mkRow (PStr "Apple") (PStr "AAPL") "$150.00" "4.44" "T"].
Proof.
  intros Hm. split; [|vm_compute; reflexivity].
  destruct (merge_loop_rows instrument_map latest_prices_map _ Hm)
    as (rows & Hrows & HF).
  assert (Hsym : map Symbol rows
                 = map record_symbol (filter emits_row all_fundamentals)).
  { eapply Forall2_symbols; [exact HF|].
    apply Forall_forall. intros f Hin. apply filter_In in Hin as [Hin _].
    now apply (proj1 (Forall_forall _ _) Hm). }
  exists rows. split; [exact Hrows|]. split; [exact HF|]. split; [exact Hsym|].
  intros k Hk Hin. apply Hk. rewrite Hsym in Hin.
  apply in_map_iff in Hin as (f & <- & Hf). apply filter_In in Hf as [Hf _].
  now apply in_map.
Qed.

Lemma merge_fan_in_witness :
  Forall (fun f => mergeable f = true) example_fundamentals
  /\ merge example_names example_prices example_fundamentals
     = Ok [mkRow (PStr "Apple") (PStr "AAPL") "$150.00" "4.44" "T"]
  /\ ~ In (PStr "TSLA")
         (map Symbol [mkRow (PStr "Apple") (PStr "AAPL") "$150.00" "4.44" "T"]).
Proof.
  assert (H : Forall (fun f => mergeable f = true) example_fundamentals).
  { repeat constructor. }
  split; [exact H|].
  destruct (merge_fan_in example_names example_prices example_fundamentals H)
    as [(rows & Hrows & _ & _ & Hno) Hex].
  split; [exact Hex|].
  rewrite Hex in Hrows. injection Hrows as <-.
  apply Hno. simpl. intros [E|[]]. discriminate E.
Defined.

(** A symbol that cannot be a key, or an integer market cap beyond the
    float range, makes the merge raise: no row at all is produced. *)
Example merge_raises :
  merge example_names example_prices
    [PDict [("symbol", PList [PStr "AAPL"])]] = Raise TypeError
  /\ merge example_names example_prices
       [PDict [("symbol", PStr "AAPL"); ("market_cap", PInt (2 ^ 1024))]]
     = Raise OverflowError.
Proof. split; vm_compute; reflexivity. Qed.

(** An empty dict is a dict, is not [None], and yields no row. *)
Lemma merge_skips_empty_dict :
  List.length (filter non_null_dict [PDict []]) = 1%nat
  /\ merge example_names example_prices [PDict []] = Ok [].
Proof. split; reflexivity. Qed.

Lemma extract_instruments_entries (items : list pyval) :
  forall m m',
    Forall (fun e => exists n, e = [("Name", n)]) (map snd m) ->
    extract_instruments items m = Ok m' ->
    Forall (fun e => exists n, e = [("Name", n)]) (map snd m').
Proof.
  induction items as [|i items IH]; simpl; intros m m' Hm.
  - now intros [= <-].
  - destruct (is_dict i && truthy (py_get i "symbol" PNone)); [|now apply IH].
    unfold dict_setitem.
    destruct (hash_key (py_get i "symbol" PNone)) as [h|]; [|discriminate].
    simpl. apply IH. apply dict_values_store; eauto.
Qed.

Lemma watchlist_name_present (items : list pyval)
    (instrument_map : pydict instrument_entry) (h : hkey) :
  extract_instruments items [] = Ok instrument_map ->
  (watchlist_name instrument_map h = None
   <-> dict_lookup instrument_map h = None)
  /\ (forall entry, dict_lookup instrument_map h = Some entry ->
        exists n, entry = [("Name", n)]
                  /\ watchlist_name instrument_map h = Some n).
Proof.
  intros Hx.
  assert (HF : Forall (fun e => exists n, e = [("Name", n)])
                 (map snd instrument_map)).
  { eapply extract_instruments_entries; [|exact Hx]. constructor. }
  unfold watchlist_name.
  destruct (dict_lookup instrument_map h) as [entry|] eqn:E.
  - destruct (dict_lookup_value _ _ _ _ HF E) as [n ->]. simpl.
    split; [split; discriminate|].
    intros entry' [= <-]. eauto.
  - split; [tauto|discriminate].
Qed.

(** C6. For a fundamentals record that is a non-empty dict (and that the
    merge can process), the row's Name is the name the watchlist map holds
    for the record's symbol when the map has an entry for it, otherwise the
    record's own [name] field, otherwise ["N/A"]; its Price is the price
    map's entry for the symbol, otherwise ["N/A"]. *)
Theorem merge_record_fallbacks (items : list pyval)
    (instrument_map : pydict instrument_entry)
    (latest_prices_map : pydict string) (d : list (string * pyval)) :
  extract_instruments items [] = Ok instrument_map ->
  d <> [] ->
  mergeable (PDict d) = true ->
  exists r h,
    merge_record instrument_map latest_prices_map (PDict d) = Ok (Some r)
    /\ hash_key (record_symbol (PDict d)) = Some h
    /\ Symbol r = record_symbol (PDict d)
    /\ (forall entry, dict_lookup instrument_map h = Some entry ->
          entry = [("Name", Name r)])
    /\ (dict_lookup instrument_map h = None ->
        (forall n, str_get "name" d = Some n -> Name r = n)
        /\ (str_get "name" d = None -> Name r = PStr "N/A"))
    /\ (forall p, dict_lookup latest_prices_map h = Some p -> Price r = p)
    /\ (dict_lookup latest_prices_map h = None -> Price r = "N/A").
Proof.
  intros Hx Hd Hm.
  assert (He : emits_row (PDict d) = true) by (destruct d; [congruence|reflexivity]).
  unfold mergeable in Hm. rewrite He in Hm. simpl in Hm.
  apply andb_prop in Hm as [Hh Hc].
  apply is_hashable_iff in Hh as [h Hh].
  destruct (format_market_cap _) as [cap|] eqn:Ec; [|discriminate].
  eexists; exists h.
  split; [apply (merge_record_row _ _ _ h cap He Hh Ec)|].
  split; [exact Hh|]. split; [reflexivity|].
  destruct (watchlist_name_present items instrument_map h Hx) as [Hnone Hsome].
  cbn [Name Price]. split; [|split; [|split]].
  - intros entry E. destruct (Hsome entry E) as (n & -> & ->). reflexivity.
  - intros E. apply Hnone in E. rewrite E. simpl.
    split; [now intros n ->|now intros ->].
  - now intros p ->.
  - now intros ->.
Qed.

Lemma merge_record_fallbacks_witness :
  exists r,
    merge_record
      [(PStr "AAPL", [("Name", PStr "Apple")])] [(PStr "AAPL", "$150.00")]
      (PDict [("symbol", PStr "MSFT"); ("name", PStr "Microsoft")])
    = Ok (Some r)
    /\ Name r = PStr "Microsoft" /\ Price r = "N/A".
Proof.
  destruct (merge_record_fallbacks
              [instrument "AAPL" "Apple"]
              [(PStr "AAPL", [("Name", PStr "Apple")])]
              [(PStr "AAPL", "$150.00")]
              [("symbol", PStr "MSFT"); ("name", PStr "Microsoft")])
    as (r & h & Hr & Hh & _ & _ & Hname & _ & Hprice).
  - reflexivity.
  - discriminate.
  - reflexivity.
  - exists r. split; [exact Hr|].
    injection Hh as <-.
    split.
    + apply (proj1 (Hname eq_refl)). reflexivity.
    + apply Hprice. reflexivity.
Defined.

(** C10. A non-empty dict without a [symbol] key whose market cap
    [format_market_cap] can format still yields a row: its Symbol is the
    string ["N/A"], and Name and Price are looked up under the key ["N/A"]
    in the watchlist map and in the price map; a record that is falsy
    ([None], an empty dict) or is not a dict yields no row. *)
Theorem merge_record_without_symbol
    (instrument_map : pydict instrument_entry)
    (latest_prices_map : pydict string) (d : list (string * pyval))
    (cap : string * string) :
  d <> [] ->
  str_get "symbol" d = None ->
  format_market_cap (py_get (PDict d) "market_cap" PNone) = Ok cap ->
  merge_record instrument_map latest_prices_map (PDict d)
  = Ok (Some (mkRow
                (match watchlist_name instrument_map (HStr "N/A") with
                 | Some n => n
                 | None => py_get (PDict d) "name" (PStr "N/A")
                 end)
                (PStr "N/A")
                (match dict_lookup latest_prices_map (HStr "N/A") with
                 | Some p => p
                 | None => "N/A"
                 end)
                (fst cap) (snd cap)))
  /\ (forall fund, truthy fund = false \/ is_dict fund = false ->
        merge_record instrument_map latest_prices_map fund = Ok None)
  /\ merge instrument_map latest_prices_map
       [PNone; PDict []; PList [PStr "AAPL"]; PStr "AAPL"; PInt 7] = Ok [].
Proof.
  intros Hd Hs Hc.
  assert (He : emits_row (PDict d) = true) by (destruct d; [congruence|reflexivity]).
  assert (Hsym : record_symbol (PDict d) = PStr "N/A").
  { unfold record_symbol. simpl. now rewrite Hs. }
  split.
  - rewrite (merge_record_row _ _ (PDict d) (HStr "N/A") cap He); auto.
    + now rewrite Hsym.
    + now rewrite Hsym.
  - split; [|reflexivity].
    intros fund Hf. apply merge_record_skips. unfold emits_row.
    destruct Hf as [-> | ->]; [reflexivity|apply andb_false_r].
Qed.

Lemma merge_record_without_symbol_witness :
  merge_record [(PStr "N/A", [("Name", PStr "Placeholder")])]
    [(PStr "N/A", "$1.00")]
    (PDict [("market_cap", PStr "2500000")])
  = Ok (Some (mkRow (PStr "Placeholder") (PStr "N/A") "$1.00" "2.50" "M")).
Proof.
  destruct (merge_record_without_symbol
              [(PStr "N/A", [("Name", PStr "Placeholder")])]
              [(PStr "N/A", "$1.00")]
              [("market_cap", PStr "2500000")] ("2.50", "M")) as [H _].
  - discriminate.
  - reflexivity.
  - vm_compute. reflexivity.
  - exact H.
Defined.

(** A non-empty dict without a [symbol] key yields no row when its market
    cap is an integer too large for a float: [format_market_cap] lets the
    [OverflowError] through and the merge raises. *)
Lemma symbolless_record_can_raise :
  emits_row (PDict [("market_cap", PInt (2 ^ 1024))]) = true
  /\ str_get "symbol" [("market_cap", PInt (2 ^ 1024))] = None
  /\ merge_record example_names example_prices
       (PDict [("market_cap", PInt (2 ^ 1024))])
     = Raise OverflowError
  /\ merge example_names example_prices
       [PDict [("market_cap", PInt (2 ^ 1024))]]
     = Raise OverflowError.
Proof. repeat split; vm_compute; reflexivity. Qed.

(* ================================================================== *)
(** ** Two-decimal rendering *)

Lemma list_ascii_of_string_app (a b : string) :
  list_ascii_of_string (a ++ b)
  = list_ascii_of_string a ++ list_ascii_of_string b.
Proof. induction a as [|c a IH]; simpl; [reflexivity|now rewrite IH]. Qed.

Lemma digit_char_is_digit (d : Z) :
  0 <= d < 10 -> is_digit (digit_char d) = true.
Proof.
  intros H.
  assert (E : d = 0 \/ d = 1 \/ d = 2 \/ d = 3 \/ d = 4 \/ d = 5 \/ d = 6
              \/ d = 7 \/ d = 8 \/ d = 9) by lia.
  repeat (destruct E as [-> | E]; [reflexivity|]). subst. reflexivity.
Qed.

Lemma string_of_uint_digits (u : Decimal.uint) :
  forallb is_digit (list_ascii_of_string (NilEmpty.string_of_uint u)) = true.
Proof. induction u; simpl; auto. Qed.

Lemma decimal_of_Z_digits (z : Z) :
  exists c cs,
    list_ascii_of_string (decimal_of_Z z) = c :: cs
    /\ forallb is_digit (c :: cs) = true.
Proof.
  unfold decimal_of_Z.
  pose proof (string_of_uint_digits (N.to_uint (Z.to_N z))) as Hd.
  destruct (N.to_uint (Z.to_N z)) as [|u|u|u|u|u|u|u|u|u|u] eqn:E;
    try (simpl; eexists; eexists; split; [reflexivity|exact Hd]).
  exfalso. destruct (Z.to_N z) as [|p]; [discriminate|].
  exact (Unsigned.to_uint_nonnil p E).
Qed.

Lemma forallb_rev {A : Type} (f : A -> bool) (l : list A) :
  forallb f (rev l) = forallb f l.
Proof.
  induction l as [|x l IH]; [reflexivity|].
  simpl. rewrite forallb_app, IH. simpl. rewrite andb_true_r. apply andb_comm.
Qed.

Lemma fixed2_of_hundredths_fixed2 (neg : bool) (h : Z) :
  0 <= h -> is_fixed2 (fixed2_of_hundredths neg h) = true.
Proof.
  intros Hh. unfold fixed2_of_hundredths, is_fixed2.
  destruct (decimal_of_Z_digits (h / 100)) as (c & cs & Ecs & Hcs).
  assert (Hd1 : is_digit (digit_char ((h / 10) mod 10)) = true)
    by (apply digit_char_is_digit, Z.mod_pos_bound; lia).
  assert (Hd2 : is_digit (digit_char (h mod 10)) = true)
    by (apply digit_char_is_digit, Z.mod_pos_bound; lia).
  set (d1 := digit_char ((h / 10) mod 10)) in *.
  set (d2 := digit_char (h mod 10)) in *.
  assert (Hbody : forall body,
             body = (c :: cs) ++ ["."%char; d1; d2] ->
             match rev body with
             | x2 :: x1 :: dot :: (_ :: _) as int_part =>
                 is_digit x2 && is_digit x1 && Ascii.eqb dot "."
                 && forallb is_digit int_part
             | _ => false
             end = true).
  { intros body ->. rewrite rev_app_distr.
    change (rev ["."%char; d1; d2]) with [d2; d1; "."%char].
    assert (Hr : forallb is_digit (rev (c :: cs)) = true)
      by now rewrite forallb_rev.
    destruct (rev (c :: cs)) as [|y ys] eqn:Er.
    - apply (f_equal (@List.length ascii)) in Er.
      rewrite length_rev in Er. discriminate.
    - cbn [app]. rewrite Hd1, Hd2, Hr. reflexivity. }
  rewrite !list_ascii_of_string_app, Ecs.
  destruct neg; cbn [list_ascii_of_string app].
  - change (Ascii.eqb "-" "-") with true. cbv iota.
    apply Hbody. reflexivity.
  - assert (Hc : Ascii.eqb c "-" = false).
    { simpl in Hcs. apply andb_prop in Hcs as [Hc _].
      destruct (Ascii.eqb_spec c "-"); [subst; discriminate|reflexivity]. }
    rewrite Hc. apply Hbody. reflexivity.
Qed.

Lemma hundredths_nonneg (m : positive) (e : Z) : 0 <= hundredths m e.
Proof.
  unfold hundredths.
  destruct (0 <=? e) eqn:E.
  - apply Z.leb_le in E. apply Z.mul_nonneg_nonneg; [lia|].
    apply Z.pow_nonneg. lia.
  - apply Z.leb_gt in E.
    assert (Hd : 0 < 2 ^ (- e)) by (apply Z.pow_pos_nonneg; lia).
    assert (Hq : 0 <= Z.pos m * 100 / 2 ^ (- e))
      by (apply Z.div_pos; lia).
    destruct (_ || _); lia.
Qed.

Lemma format_2f_number (x : float) : is_number (format_2f x) = true.
Proof.
  unfold is_number.
  destruct x as [neg|neg| |neg m e]; simpl format_2f.
  - rewrite fixed2_of_hundredths_fixed2 by lia. reflexivity.
  - destruct neg; reflexivity.
  - reflexivity.
  - rewrite fixed2_of_hundredths_fixed2 by apply hundredths_nonneg.
    reflexivity.
Qed.

Lemma format_2f_finite (x : float) :
  match x with S754_zero _ | S754_finite _ _ _ => True | _ => False end ->
  is_fixed2 (format_2f x) = true.
Proof.
  destruct x as [neg|neg| |neg m e]; simpl format_2f; intros H; try tauto.
  - apply fixed2_of_hundredths_fixed2. lia.
  - apply fixed2_of_hundredths_fixed2, hundredths_nonneg.
Qed.

Lemma quote_is_price (x : float) : is_price ("$" ++ format_2f x) = true.
Proof.
  unfold is_price. cbn [append after_dollar].
  rewrite format_2f_number. reflexivity.
Qed.

Lemma format_market_cap_schema (v : pyval) (value unit_ : string) :
  format_market_cap v = Ok (value, unit_) ->
  is_cap_value value = true /\ is_unit unit_ = true.
Proof.
  unfold format_market_cap.
  destruct (negb (truthy v)); [intros [= <- <-]; split; reflexivity|].
  destruct (py_float v) as [cap|e].
  - unfold is_cap_value.
    destruct (float_ge cap f_1e12); [intros [= <- <-]|
    destruct (float_ge cap f_1e9); [intros [= <- <-]|
    destruct (float_ge cap f_1e6); intros [= <- <-]]];
      (split; [rewrite format_2f_number; apply orb_true_r|reflexivity]).
  - destruct e; try discriminate; intros [= <- <-]; split; reflexivity.
Qed.

Lemma merge_record_schema (instrument_map : pydict instrument_entry)
    (latest_prices_map : pydict string) (fund : pyval) (r : OutputRow) :
  Forall (fun p => is_price p = true) (map snd latest_prices_map) ->
  merge_record instrument_map latest_prices_map fund = Ok (Some r) ->
  row_schema r = true.
Proof.
  intros Hp. unfold merge_record, dict_get.
  destruct (truthy fund && is_dict fund); [|discriminate].
  destruct (hash_key _) as [h|]; [|discriminate]. simpl.
  destruct (format_market_cap _) as [[value unit_]|] eqn:Ec; [|discriminate].
  simpl. intros [= <-].
  apply format_market_cap_schema in Ec as [Hv Hu].
  unfold row_schema, schema. simpl. rewrite Hv, Hu.
  destruct (dict_lookup latest_prices_map h) as [p|] eqn:E; [|reflexivity].
  now rewrite (dict_lookup_value _ _ _ _ Hp E).
Qed.

Lemma merge_schema (instrument_map : pydict instrument_entry)
    (latest_prices_map : pydict string) (funds : list pyval)
    (rows : list OutputRow) :
  Forall (fun p => is_price p = true) (map snd latest_prices_map) ->
  merge instrument_map latest_prices_map funds = Ok rows ->
  Forall (fun r => row_schema r = true) rows.
Proof.
  intros Hp. unfold merge. revert rows.
  induction funds as [|f funds IH]; intros rows; simpl.
  - intros [= <-]. constructor.
  - destruct (merge_record _ _ f) as [row|] eqn:Er; [|discriminate]. simpl.
    rewrite merge_loop_acc.
    destruct (merge_loop _ _ funds []) as [rows'|] eqn:El; [|discriminate].
    simpl. intros [= <-]. apply Forall_app. split; [|now apply IH].
    destruct row as [r|]; [|constructor].
    constructor; [|constructor]. eapply merge_record_schema; eauto.
Qed.

(* ================================================================== *)
(** ** Reasoning on logs *)

Section Logs.

Variable W : Type.
Variable respond : call -> W -> result pyval * W.

Lemma emits_bind {A B : Type} (m : M W A) (k : A -> M W B)
    (post1 : list event -> result A -> Prop)
    (post2 : A -> list event -> result B -> Prop)
    (post : list event -> result B -> Prop) :
  emits m post1 ->
  (forall a, (exists e1, post1 e1 (Ok a)) -> emits (k a) (post2 a)) ->
  (forall e1 e, post1 e1 (Raise e) -> post e1 (Raise e)) ->
  (forall e1 a e2 r, post1 e1 (Ok a) -> post2 a e2 r -> post (e1 ++ e2) r) ->
  emits (bind m k) post.
Proof.
  intros Hm Hk Hraise Hseq s. unfold emits, bind, trace, outcome in *.
  destruct (Hm s) as (e1 & Ht1 & Hp1).
  destruct (m s) as [[a|e] s1]; cbn [fst snd] in *.
  - destruct (Hk a (ex_intro _ e1 Hp1) s1) as (e2 & Ht2 & Hp2).
    exists (e1 ++ e2). split.
    + rewrite Ht2, Ht1. now rewrite app_assoc.
    + eapply Hseq; eauto.
  - exists e1. split; [exact Ht1|]. now apply Hraise.
Qed.

Lemma emits_weaken {A : Type} (m : M W A)
    (post post' : list event -> result A -> Prop) :
  emits m post -> (forall evs r, post evs r -> post' evs r) ->
  emits m post'.
Proof.
  intros Hm Hw s. destruct (Hm s) as (evs & Ht & Hp). eauto.
Qed.

Lemma emits_ret {A : Type} (a : A) :
  emits (W := W) (ret a) (quietly (fun x => x = a)).
Proof.
  intros s. exists []. split; [symmetry; apply app_nil_r|].
  split; [constructor|]. now intros x [= <-].
Qed.

Lemma emits_lift {A : Type} (r : result A) :
  emits (W := W) (lift r) (quietly (fun a => r = Ok a)).
Proof.
  intros s. exists []. split; [symmetry; apply app_nil_r|].
  split; [constructor|]. intros a H. exact H.
Qed.

Lemma emits_tell (ev : event) (post : list event -> result unit -> Prop) :
  post [ev] (Ok tt) -> emits (W := W) (tell ev) post.
Proof. intros H s. exists [ev]. split; [reflexivity|exact H]. Qed.

Lemma emits_ext (c : call) (post : list event -> result pyval -> Prop) :
  (forall answer, post [Called c answer] answer) ->
  emits (ext W respond c) post.
Proof.
  intros H s. unfold ext, trace, outcome.
  destruct (respond c (fst s)) as [answer w']. cbn [fst snd].
  exists [Called c answer]. split; [reflexivity|apply H].
Qed.

Lemma emits_try_except {A : Type} (sel : exn -> bool) (m : M W A)
    (h : exn -> M W A)
    (post1 post2 post : list event -> result A -> Prop) :
  emits m post1 ->
  (forall e, sel e = true -> emits (h e) post2) ->
  (forall e1 a, post1 e1 (Ok a) -> post e1 (Ok a)) ->
  (forall e1 e, sel e = false -> post1 e1 (Raise e) -> post e1 (Raise e)) ->
  (forall e1 e e2 r, sel e = true -> post1 e1 (Raise e) -> post2 e2 r ->
                     post (e1 ++ e2) r) ->
  emits (try_except sel m h) post.
Proof.
  intros Hm Hh Hok Hpass Hcatch s.
  unfold emits, try_except, trace, outcome in *.
  destruct (Hm s) as (e1 & Ht1 & Hp1).
  destruct (m s) as [[a|e] s1]; cbn [fst snd] in *.
  - exists e1. split; [exact Ht1|]. now apply Hok.
  - destruct (sel e) eqn:Es.
    + destruct (Hh e Es s1) as (e2 & Ht2 & Hp2).
      exists (e1 ++ e2). split.
      * rewrite Ht2, Ht1. now rewrite app_assoc.
      * eapply Hcatch; eauto.
    + exists e1. split; [exact Ht1|]. now apply Hpass.
Qed.

(** Composition of quiet steps. *)
Lemma quiet_app (a b : list event) :
  Forall (fun ev => quiet ev = true) a ->
  Forall (fun ev => quiet ev = true) b ->
  Forall (fun ev => quiet ev = true) (a ++ b).
Proof. intros; apply Forall_app; now split. Qed.

Lemma body_bind {A : Type} (m : M W A) (k : A -> M W unit)
    (Q : A -> Prop) :
  emits m (quietly Q) ->
  (forall a, Q a -> emits (k a) body_shape) ->
  emits (bind m k) body_shape.
Proof.
  intros Hm Hk.
  apply emits_bind with (post1 := quietly Q) (post2 := fun _ => body_shape).
  - exact Hm.
  - intros a (e1 & _ & HQ). apply Hk, HQ. reflexivity.
  - intros e1 e [Hq _]. exists e1, []. rewrite app_nil_r.
    repeat split; auto. now constructor. intros H; congruence.
  - intros e1 a e2 r [Hq1 _] (pre & mid & -> & Hpre & Hmid & Hr).
    exists (e1 ++ pre), mid. rewrite app_assoc.
    repeat split; auto. now apply quiet_app.
Qed.

Lemma quiet_body (m : M W unit) :
  emits m (quietly (fun _ => True)) -> emits m body_shape.
Proof.
  intros Hm. eapply emits_weaken; [exact Hm|].
  intros evs r [Hq _]. exists evs, []. rewrite app_nil_r.
  repeat split; auto. now constructor. intros H; congruence.
Qed.

Lemma quietly_ext (c : call) :
  is_sheet_call c = false -> is_logout c = false ->
  emits (ext W respond c) (quietly (fun _ => True)).
Proof.
  intros Hs Hl. apply emits_ext. intros answer.
  split; [|trivial]. constructor; [|constructor].
  simpl. now rewrite Hs, Hl.
Qed.

Lemma quietly_tell (ev : event) :
  quiet ev = true -> emits (W := W) (tell ev) (quietly (fun _ => True)).
Proof.
  intros Hq. apply emits_tell. split; [|trivial].
  constructor; [exact Hq|constructor].
Qed.

Lemma quietly_fetch_latest_prices (tickers : list pyval) :
  emits (fetch_latest_prices W respond tickers)
    (quietly (fun prices =>
                Forall (fun p => is_price p = true) (map snd prices))).
Proof.
  intros s.
  assert (HQ : forall prices,
             outcome (fetch_latest_prices W respond tickers s) = Ok prices ->
             Forall (fun p => is_price p = true) (map snd prices)).
  { intros prices. apply fetch_latest_prices_values; [reflexivity|].
    apply quote_is_price. }
  destruct tickers as [|t0 tickers'].
  { exists []. split; [symmetry; apply app_nil_r|].
    split; [constructor|exact HQ]. }
  revert HQ. rewrite fetch_latest_prices_run by discriminate. cbv zeta.
  destruct (v <-? fst (respond _ (fst s)) ;; prices_of_answer _ v);
    intros HQ; unfold trace; cbn [fst snd].
  - eexists. split; [reflexivity|]. split; [|exact HQ].
    repeat constructor.
  - eexists. split; [rewrite <- app_assoc; reflexivity|].
    split; [|exact HQ]. repeat constructor.
Qed.

Lemma quietly_fetch_fundamentals (chunks : list (list pyval))
    (acc : list pyval) :
  emits (fetch_fundamentals W respond chunks acc) (quietly (fun _ => True)).
Proof.
  intros s.
  assert (Hq : forall calls,
             Forall (fun ev => quiet ev = true)
               (flat_map paced_request calls)).
  { induction calls as [|ca calls IH]; simpl; repeat constructor; exact IH. }
  destruct (fetch_fundamentals_log W respond chunks acc s)
    as (good & recs & _ & [(_ & _ & Ht)|(c & a & e & _ & _ & _ & Ht)]).
  - eexists. split; [exact Ht|]. split; [apply Hq|trivial].
  - eexists. split; [exact Ht|]. split; [apply Hq|trivial].
Qed.

End Logs.

(* ================================================================== *)
(** ** The upload and the whole run *)

Section WholeRun.

Variable W : Type.
Variable respond : call -> W -> result pyval * W.

Let sheets (table : list (list pyval)) {A : Type}
    (evs : list event) (_ : result A) : Prop :=
  Forall (sheet_event table) evs.

Lemma sheets_bind (table : list (list pyval)) {A B : Type}
    (m : M W A) (k : A -> M W B) :
  emits m (sheets table) -> (forall a, emits (k a) (sheets table)) ->
  emits (bind m k) (sheets table).
Proof.
  intros Hm Hk.
  apply emits_bind with (post1 := sheets table)
                        (post2 := fun _ => sheets table); auto.
  intros e1 a e2 r H1 H2. apply Forall_app. now split.
Qed.

Lemma sheets_ext (table : list (list pyval)) (c : call) :
  (forall answer, sheet_event table (Called c answer)) ->
  emits (ext W respond c) (sheets table).
Proof.
  intros H. apply emits_ext. intros answer.
  constructor; [apply H|constructor].
Qed.

Lemma upload_to_google_sheets_log (df : list OutputRow) :
  emits (upload_to_google_sheets W respond df)
    (fun evs r =>
       Forall (sheet_event (COLUMNS :: map row_values df)) evs
       /\ r = Ok tt).
Proof.
  set (table := COLUMNS :: map row_values df).
  unfold upload_to_google_sheets.
  apply emits_try_except
    with (post1 := sheets table)
         (post2 := fun evs r => Forall (sheet_event table) evs /\ r = Ok tt).
  - apply sheets_bind; [apply sheets_ext; reflexivity|intros _].
    apply sheets_bind; [apply sheets_ext; reflexivity|intros _].
    apply sheets_bind.
    + apply emits_try_except
        with (post1 := sheets table) (post2 := sheets table); auto.
      * apply sheets_bind; [apply sheets_ext; reflexivity|intros _].
        apply sheets_ext; reflexivity.
      * intros e _. apply sheets_ext; reflexivity.
      * intros e1 e e2 r _ H1 H2. apply Forall_app. now split.
    + intros _.
      apply sheets_bind; [apply sheets_ext; intros; split; reflexivity|].
      intros _ s. exists []. split; [symmetry; apply app_nil_r|constructor].
  - intros e _. apply emits_tell.
    split; [|reflexivity]. constructor; [exact I|constructor].
  - intros e1 [] H. split; [exact H|reflexivity].
  - intros e1 e He. discriminate.
  - intros e1 e e2 r _ H1 [H2 ->]. split; [|reflexivity].
    apply Forall_app. now split.
Qed.

Lemma publish_log (final_data : list OutputRow) :
  Forall (fun r => row_schema r = true) final_data ->
  emits (publish W respond final_data) body_shape.
Proof.
  intros Hrows. destruct final_data as [|r0 rows].
  - apply emits_tell. exists [], [Printed EmptyDataset].
    repeat split; auto. now apply EmptyResult.
  - eapply emits_weaken; [apply upload_to_google_sheets_log|].
    intros evs r [Hs ->]. exists [], evs.
    repeat split; auto.
    apply (Uploaded evs (r0 :: rows)); [discriminate|exact Hrows|exact Hs].
Qed.

Lemma process_instruments_log (instruments : pyval) :
  emits (process_instruments W respond instruments) body_shape.
Proof.
  unfold process_instruments.
  eapply body_bind; [apply emits_lift|intros items _].
  eapply body_bind; [apply emits_lift|intros instrument_map _].
  destruct (dict_keys instrument_map) as [|t0 ts] eqn:Ek.
  { apply quiet_body, quietly_tell. reflexivity. }
  eapply body_bind; [apply quietly_fetch_latest_prices|].
  intros latest_prices_map Hprices.
  eapply body_bind; [apply quietly_fetch_fundamentals|].
  intros all_fundamentals _. unfold merge_and_publish.
  eapply body_bind; [apply emits_lift|intros final_data Hmerge].
  apply publish_log.
  exact (merge_schema _ _ _ _ Hprices Hmerge).
Qed.

Lemma export_body_log : emits (export_body W respond) body_shape.
Proof.
  unfold export_body.
  eapply body_bind; [apply quietly_ext; reflexivity|intros login_data _].
  eapply body_bind with (Q := fun _ => True).
  { destruct (truthy login_data).
    - eapply emits_weaken; [apply emits_lift|].
      intros evs r [Hq _]. split; [exact Hq|trivial].
    - eapply emits_weaken; [apply emits_ret|].
      intros evs r [Hq _]. split; [exact Hq|trivial]. }
  intros has_token _.
  destruct (negb has_token).
  { apply quiet_body, quietly_tell. reflexivity. }
  eapply body_bind; [apply quietly_ext; reflexivity|].
  intros watchlist_raw_data _. cbv zeta.
  destruct (negb (truthy (list_of_instruments watchlist_raw_data))).
  { apply quiet_body, quietly_tell. reflexivity. }
  apply process_instruments_log.
Qed.

Lemma logout_quietly_run (s : state W) :
  logout_quietly W respond s
  = (Ok tt, (snd (respond CLogout (fst s)),
             snd s ++ [Called CLogout (fst (respond CLogout (fst s)))])).
Proof.
  unfold logout_quietly, try_except, bind, ext, ret, any_exception.
  destruct (respond CLogout (fst s)) as [[v|e] w']; reflexivity.
Qed.

(** The shape of every run: quiet events, a publication, the logout. *)
Lemma export_log (s : state W) :
  exists pre mid answer,
    trace (export_24hr_market_to_csv_and_sheet W respond s)
    = snd s ++ (pre ++ mid) ++ [Called CLogout answer]
    /\ outcome (export_24hr_market_to_csv_and_sheet W respond s) = Ok tt
    /\ Forall (fun ev => quiet ev = true) pre
    /\ publication mid.
Proof.
  assert (Hte : emits
                  (try_except any_exception (export_body W respond)
                     (fun e => tell (Printed (UnexpectedError e))))
                  (fun evs r =>
                     r = Ok tt
                     /\ exists pre mid,
                          evs = pre ++ mid
                          /\ Forall (fun ev => quiet ev = true) pre
                          /\ publication mid)).
  { apply emits_try_except
      with (post1 := body_shape)
           (post2 := fun evs r =>
                       r = Ok tt
                       /\ exists e, evs = [Printed (UnexpectedError e)]).
    - apply export_body_log.
    - intros e _. apply emits_tell. split; [reflexivity|eauto].
    - intros e1 [] (pre & mid & -> & Hpre & Hmid & _).
      split; [reflexivity|]. exists pre, mid. auto.
    - intros e1 e He. discriminate.
    - intros e1 e e2 r _ (pre & mid & -> & Hpre & Hmid & Hr) [-> [e' ->]].
      split; [reflexivity|].
      assert (mid = []) as ->.
      { destruct mid; [reflexivity|].
        assert (Raise e = Ok tt) by (apply Hr; discriminate). discriminate. }
      rewrite app_nil_r.
      exists (pre ++ [Printed (UnexpectedError e')]), [].
      rewrite app_nil_r. split; [reflexivity|].
      split; [|now constructor].
      apply quiet_app; [exact Hpre|]. repeat constructor. }
  unfold export_24hr_market_to_csv_and_sheet, try_finally.
  destruct (Hte s) as (evs & Ht & Hr & pre & mid & -> & Hpre & Hmid).
  unfold trace, outcome in *.
  destruct (try_except _ _ _ s) as [r s1]. cbn [fst snd] in *.
  rewrite logout_quietly_run. cbn [fst snd].
  exists pre, mid, (fst (respond CLogout (fst s1))).
  rewrite Ht, Hr, <- app_assoc. auto.
Qed.

End WholeRun.

Lemma fundamentals_batching_witness :
  List.length (numbered_symbols 250) = 250%nat
  /\ map (@List.length pyval) (ticker_chunks (numbered_symbols 250))
     = [100; 100; 50]%nat
  /\ outcome (fetch_fundamentals nat (scripted backwards_day)
                (ticker_chunks (numbered_symbols 250)) [] (0%nat, []))
     = Ok (map record_of
             (rev (firstn 100 (numbered_symbols 250))
              ++ rev (firstn 100 (skipn 100 (numbered_symbols 250)))
              ++ rev (skipn 200 (numbered_symbols 250)))).
Proof.
  split; [reflexivity|].
  destruct (fundamentals_batching nat (scripted backwards_day)
              (numbered_symbols 250) (0%nat, []))
    as (_ & _ & _ & Hsizes & calls & _ & Hcalls & _ & _ & _ & Hrecords).
  split; [apply Hsizes; reflexivity|].
  simpl fundamentals_calls in Hcalls at 2. simpl app in Hcalls.
  destruct (Hrecords
              (map (fun chunk => PList (rev (map record_of chunk)))
                 (ticker_chunks (numbered_symbols 250))))
    as [_ Hrun].
  - rewrite <- Hcalls. vm_compute. reflexivity.
  - vm_compute. repeat constructor.
  - rewrite Hrun. vm_compute. reflexivity.
Defined.

(** Two symbols: one batch, one record per symbol. *)
Example fundamentals_one_batch :
  fundamentals_calls
    (trace (fetch_fundamentals nat (scripted fair_day)
              (ticker_chunks [PStr "AAPL"; PStr "TSLA"]) [] (0%nat, [])))
  = [([PStr "AAPL"; PStr "TSLA"],
      Ok (PList
            [PDict [("symbol", PStr "AAPL");
                    ("market_cap", PStr "4440000000000.00")];
             PDict [("symbol", PStr "TSLA");
                    ("market_cap", PStr "4440000000000.00")]]))].
Proof. reflexivity. Qed.

Lemma fetch_latest_prices_mapping_witness :
  Forall (fun t => is_hashable t = true) [PStr "AAPL"; PStr "TSLA"]
  /\ exists prices,
       outcome (fetch_latest_prices nat (scripted one_quote_day)
                  [PStr "AAPL"; PStr "TSLA"] (0%nat, [])) = Ok prices
       /\ key_set_equal prices [PStr "AAPL"].
Proof.
  assert (H : Forall (fun t => is_hashable t = true) [PStr "AAPL"; PStr "TSLA"])
    by (repeat constructor).
  split; [exact H|].
  destruct (fetch_latest_prices_mapping nat (scripted one_quote_day)
              [PStr "AAPL"; PStr "TSLA"] (0%nat, []) H)
    as (prices & Hrun & _ & _ & Hcases).
  exists prices. split; [exact Hrun|].
  destruct Hcases as (_ & _ & Hlist & _); [discriminate|].
  destruct (Hlist [PStr "150.0000"]) as [Hkeys _].
  - reflexivity.
  - discriminate.
  - repeat constructor. exists "$150.00". vm_compute. reflexivity.
  - exact Hkeys.
Defined.

(** Entries that [float] rejects are quoted ["N/A"]; a parsed one is
    rounded to two decimals. *)
Example quote_of_entries :
  map quote_of [PStr "150.129"; PStr "abc"; PNone; PStr ""; PList []; PInt 3]
  = [Ok "$150.13"; Ok "N/A"; Ok "N/A"; Ok "N/A"; Ok "N/A"; Ok "$3.00"].
Proof. vm_compute. reflexivity. Qed.

(** When the quote provider answers [None] the mapping is empty, although
    two symbols were asked for. *)
Lemma silent_provider_loses_keys :
  outcome (fetch_latest_prices nat (scripted no_quotes_day)
             [PStr "AAPL"; PStr "TSLA"] (0%nat, [])) = Ok []
  /\ ~ key_set_equal (@nil (pyval * string)) [PStr "AAPL"; PStr "TSLA"].
Proof.
  split; [reflexivity|].
  intros H. apply (proj2 (H (Some (HStr "AAPL")))). simpl. now left.
Qed.

(** A list shorter than the input leaves the later symbols without a key. *)
Example short_answer_loses_keys :
  outcome (fetch_latest_prices nat (scripted one_quote_day)
             [PStr "AAPL"; PStr "TSLA"] (0%nat, []))
  = Ok [(PStr "AAPL", "$150.00")].
Proof. vm_compute. reflexivity. Qed.

(* ================================================================== *)
(** ** Properties of every run *)

Lemma quiet_not_sheet (pre : list event) (c : call) (a : result pyval) :
  Forall (fun ev => quiet ev = true) pre -> In (Called c a) pre ->
  is_sheet_call c = false /\ is_logout c = false.
Proof.
  intros Hq Hin. apply (proj1 (Forall_forall _ _) Hq) in Hin. simpl in Hin.
  apply andb_prop in Hin as [H1 H2].
  split; [now apply negb_true_iff|now apply negb_true_iff].
Qed.

Lemma quiet_not_empty_notice (pre : list event) :
  Forall (fun ev => quiet ev = true) pre -> ~ In (Printed EmptyDataset) pre.
Proof.
  intros Hq Hin. apply (proj1 (Forall_forall _ _) Hq) in Hin. discriminate.
Qed.

Section EveryRun.

Variable W : Type.
Variable respond : call -> W -> result pyval * W.

Let run (s : state W) := export_24hr_market_to_csv_and_sheet W respond s.

(** C7. When the merge returns an empty row sequence (it does for empty
    fundamentals), steps 6 to 8 print the empty-dataset error and do
    nothing else: no spreadsheet call.  In every run in which that error is
    printed no spreadsheet call is made at all and only the logout follows;
    an upload always carries at least one row; the run ends normally.
    With a non-empty watchlist and no fundamentals the run is: login,
    watchlist, quotes, one paced fundamentals request, the error, logout. *)
Theorem empty_result_is_terminal (s : state W)
    (instrument_map : pydict instrument_entry)
    (latest_prices_map : pydict string) (all_fundamentals : list pyval) :
  (merge instrument_map latest_prices_map all_fundamentals = Ok [] ->
   merge_and_publish W respond instrument_map latest_prices_map
     all_fundamentals s
   = (Ok tt, (fst s, snd s ++ [Printed EmptyDataset])))
  /\ merge instrument_map latest_prices_map [] = Ok []
  /\ outcome (run s) = Ok tt
  /\ (exists evs,
        trace (run s) = snd s ++ evs
        /\ (In (Printed EmptyDataset) evs ->
            (forall c a, In (Called c a) evs -> is_sheet_call c = false)
            /\ exists pre a,
                 evs = pre ++ [Printed EmptyDataset; Called CLogout a])
        /\ (forall table range a,
              In (Called (CUpdate table range) a) evs ->
              exists rows,
                rows <> [] /\ table = COLUMNS :: map row_values rows))
  /\ trace (run_script no_fundamentals_day)
     = [Called (CLogin "" "") (on_login fair_day);
        Called (CGetWatchlistByName "24 Hour Market") (on_watchlist fair_day);
        Called (CGetLatestPrice [PStr "AAPL"; PStr "TSLA"])
          (Ok (PList [PStr "150.0000"; PStr "150.0000"]));
        Slept;
        Called (CGetFundamentals [PStr "AAPL"; PStr "TSLA"]) (Ok (PList []));
        Printed EmptyDataset;
        Called CLogout (Ok PNone)].
Proof.
  split.
  { intros Hm. unfold merge_and_publish, bind, lift. rewrite Hm.
    destruct s; reflexivity. }
  split; [reflexivity|].
  destruct (export_log W respond s) as (pre & mid & answer & Ht & Ho & Hpre & Hmid).
  split; [exact Ho|].
  split; [|vm_compute; reflexivity].
  exists ((pre ++ mid) ++ [Called CLogout answer]). split; [exact Ht|].
  split.
  - intros Hin.
    apply in_app_or in Hin as [Hin|[E|[]]]; [|discriminate].
    apply in_app_or in Hin as [Hin|Hin];
      [exfalso; eapply quiet_not_empty_notice; eauto|].
    destruct Hmid as [-> | -> | rows _ _ Hs]; [destruct Hin| |].
    + split.
      * intros c a Hc.
        apply in_app_or in Hc as [Hc|[E|[]]]; [|now injection E as <- _].
        apply in_app_or in Hc as [Hc|[E|[]]]; [|discriminate].
        eapply quiet_not_sheet; eauto.
      * exists pre, answer. now rewrite <- app_assoc.
    + exfalso. apply (proj1 (Forall_forall _ _) Hs) in Hin. exact Hin.
  - intros table range a Hin.
    apply in_app_or in Hin as [Hin|[E|[]]]; [|discriminate].
    apply in_app_or in Hin as [Hin|Hin].
    { apply (quiet_not_sheet _ _ _ Hpre) in Hin as [Hin _]. discriminate. }
    destruct Hmid as [-> | -> | rows Hne _ Hs].
    + destruct Hin.
    + destruct Hin as [E|[]]. discriminate.
    + apply (proj1 (Forall_forall _ _) Hs) in Hin. simpl in Hin.
      destruct Hin as [-> _]. eauto.
Qed.

(** C8, as the code has it. In every table sent to the sheet the first
    row is the header Name, Symbol, Price, Marketcap Value, Marketcap
    Unit and every other row has its cells in that order, with a Price
    that is ["N/A"] or ["$"] followed by a number, a Marketcap Value that
    is ["N/A"] or a number, and a unit among "", "M", "B", "T" -- where a
    number is a two-decimal fixed-point string or one of the renderings
    ["nan"], ["inf"], ["-inf"] of a non-finite float. *)
Theorem published_rows_schema (s : state W) :
  COLUMNS = [PStr "Name"; PStr "Symbol"; PStr "Price";
             PStr "Marketcap Value"; PStr "Marketcap Unit"]
  /\ exists evs,
       trace (run s) = snd s ++ evs
       /\ forall table range a,
            In (Called (CUpdate table range) a) evs ->
            range = "A1"
            /\ exists rows,
                 table = COLUMNS :: map row_values rows
                 /\ Forall (fun cells => schema cells = true)
                      (map row_values rows)
                 /\ Forall (fun r =>
                              is_price (Price r) = true
                              /\ is_cap_value (Marketcap_Value r) = true
                              /\ is_unit (Marketcap_Unit r) = true) rows.
Proof.
  split; [reflexivity|].
  destruct (export_log W respond s) as (pre & mid & answer & Ht & Ho & Hpre & Hmid).
  exists ((pre ++ mid) ++ [Called CLogout answer]). split; [exact Ht|].
  intros table range a Hin.
  apply in_app_or in Hin as [Hin|[E|[]]]; [|discriminate].
  apply in_app_or in Hin as [Hin|Hin].
  { apply (quiet_not_sheet _ _ _ Hpre) in Hin as [Hin _]. discriminate. }
  destruct Hmid as [-> | -> | rows Hne Hrows Hs].
  - destruct Hin.
  - destruct Hin as [E|[]]. discriminate.
  - apply (proj1 (Forall_forall _ _) Hs) in Hin. simpl in Hin.
    destruct Hin as [-> ->]. split; [reflexivity|].
    exists rows. split; [reflexivity|]. split.
    + apply Forall_forall. intros cells Hc.
      apply in_map_iff in Hc as (r & <- & Hr).
      apply (proj1 (Forall_forall _ _) Hrows r Hr).
    + apply Forall_forall. intros r Hr.
      apply (proj1 (Forall_forall _ _) Hrows) in Hr.
      unfold row_schema, schema in Hr. simpl in Hr.
      apply andb_prop in Hr as [Hr Hu]. apply andb_prop in Hr as [Hp Hv].
      auto.
Qed.

(** C9. Every run returns normally and ends with exactly one logout
    attempt, made last, whatever the provider answered before and
    whatever the logout itself answers: a failing logout is swallowed. *)
Theorem logout_always_attempted (s : state W) :
  outcome (run s) = Ok tt
  /\ exists evs answer,
       trace (run s) = snd s ++ evs ++ [Called CLogout answer]
       /\ (forall a, ~ In (Called CLogout a) evs)
       /\ (forall e, answer = Raise e -> outcome (run s) = Ok tt).
Proof.
  destruct (export_log W respond s) as (pre & mid & answer & Ht & Ho & Hpre & Hmid).
  split; [exact Ho|].
  exists (pre ++ mid), answer. split; [exact Ht|]. split; [|intros; exact Ho].
  intros a Hin. apply in_app_or in Hin as [Hin|Hin].
  { apply (quiet_not_sheet _ _ _ Hpre) in Hin as [_ Hin]. discriminate. }
  destruct Hmid as [-> | -> | rows _ _ Hs].
  - destruct Hin.
  - destruct Hin as [E|[]]. discriminate.
  - apply (proj1 (Forall_forall _ _) Hs) in Hin. discriminate.
Qed.

End EveryRun.

Lemma empty_result_is_terminal_witness :
  merge example_names example_prices [PNone; PDict []] = Ok []
  /\ merge_and_publish nat (scripted fair_day) example_names example_prices
       [PNone; PDict []] (0%nat, [])
     = (Ok tt, (0%nat, [Printed EmptyDataset])).
Proof.
  split; [reflexivity|].
  destruct (empty_result_is_terminal nat (scripted fair_day) (0%nat, [])
              example_names example_prices [PNone; PDict []]) as [H _].
  apply H. reflexivity.
Defined.

(** The early exits and the failure path, each with a logout that fails. *)
Example logout_on_each_path :
  map (fun sc => (outcome (run_script sc), trace (run_script sc)))
    [stuck_session (with_login fair_day (Ok PNone));
     stuck_session (with_watchlist fair_day (Ok (PList [])));
     stuck_session
       (with_watchlist fair_day (Ok (PList [PDict [("name", PStr "x")]])));
     stuck_session (with_watchlist fair_day (Raise (OtherException "boom")))]
  = [(Ok tt,
      [Called (CLogin "" "") (Ok PNone); Printed LoginFailed;
       Called CLogout (Raise (OtherException "logout failed"))]);
     (Ok tt,
      [Called (CLogin "" "") (Ok (PDict [("access_token", PStr "t0k3n")]));
       Called (CGetWatchlistByName "24 Hour Market") (Ok (PList []));
       Printed WatchlistEmpty;
       Called CLogout (Raise (OtherException "logout failed"))]);
     (Ok tt,
      [Called (CLogin "" "") (Ok (PDict [("access_token", PStr "t0k3n")]));
       Called (CGetWatchlistByName "24 Hour Market")
         (Ok (PList [PDict [("name", PStr "x")]]));
       Printed NoTickerSymbols;
       Called CLogout (Raise (OtherException "logout failed"))]);
     (Ok tt,
      [Called (CLogin "" "") (Ok (PDict [("access_token", PStr "t0k3n")]));
       Called (CGetWatchlistByName "24 Hour Market")
         (Raise (OtherException "boom"));
       Printed (UnexpectedError (OtherException "boom"));
       Called CLogout (Raise (OtherException "logout failed"))])].
Proof. vm_compute. reflexivity. Qed.

(** A market cap of ["nan"] reaches the sheet as the value ["nan"], which
    is neither ["N/A"] nor a two-decimal fixed-point string. *)
Lemma nan_market_cap_breaks_strict_schema :
  exists table a,
    In (Called (CUpdate table "A1") a) (trace (run_script nan_day))
    /\ tl table
       = [[PStr "Apple"; PStr "AAPL"; PStr "$150.00"; PStr "nan"; PStr ""];
          [PStr "Tesla"; PStr "TSLA"; PStr "$150.00"; PStr "nan"; PStr ""]]
    /\ forallb schema_strict (tl table) = false.
Proof.
  eexists; eexists. split; [|split].
  - vm_compute. do 9 right. left. reflexivity.
  - reflexivity.
  - reflexivity.
Qed.

(* ================================================================== *)
(** * Further properties of the script *)

(** ** [format_market_cap] on values that are not strings *)

Lemma format_market_cap_raise_inv (v : pyval) (e : exn) :
  format_market_cap v = Raise e ->
  e = OverflowError
  /\ exists z, v = PInt z /\ float_of_int z = Raise OverflowError.
Proof.
  unfold format_market_cap.
  destruct (negb (truthy v)); [discriminate|].
  destruct (py_float v) as [cap|e'] eqn:Ef.
  - destruct (float_ge cap f_1e12); [discriminate|].
    destruct (float_ge cap f_1e9); [discriminate|].
    destruct (float_ge cap f_1e6); discriminate.
  - destruct e'; try discriminate; intros [= <-].
    + split; [reflexivity|].
      destruct v as [|b|z|s|l|d]; simpl in Ef; try discriminate.
      * destruct b; vm_compute in Ef; discriminate.
      * eauto.
      * apply float_of_string_raises in Ef. discriminate.
    + apply py_float_raises in Ef. destruct Ef as [E|[E|E]]; discriminate.
    + apply py_float_raises in Ef. destruct Ef as [E|[E|E]]; discriminate.
Qed.

(** [format_market_cap] raises in one situation only: an integer too large
    for a float makes [float] raise [OverflowError], which the [except]
    clause does not list.  Every other value (a string, [None], a boolean,
    a list, a dict, a smaller integer) gets a result. *)
Theorem format_market_cap_raises_only_overflow (v : pyval) (e : exn) :
  format_market_cap v = Raise e ->
  e = OverflowError
  /\ exists z, v = PInt z /\ float_of_int z = Raise OverflowError.
Proof. exact (format_market_cap_raise_inv v e). Qed.

Lemma format_market_cap_raises_only_overflow_witness :
  format_market_cap (PInt (2 ^ 1024)) = Raise OverflowError
  /\ exists z, PInt (2 ^ 1024) = PInt z
               /\ float_of_int z = Raise OverflowError.
Proof.
  assert (H : format_market_cap (PInt (2 ^ 1024)) = Raise OverflowError)
    by (vm_compute; reflexivity).
  split; [exact H|].
  exact (proj2 (format_market_cap_raises_only_overflow _ _ H)).
Defined.

(** Integers, and the first one [float] refuses. *)
Example format_market_cap_integers :
  map format_market_cap
    [PInt 4440000000000; PInt 0; PBool true; PInt (10 ^ 30);
     PInt (2 ^ 1024 - 2 ^ 970); PList [PInt 1]]
  = [Ok ("4.44", "T"); Ok ("N/A", ""); Ok ("1.00", "");
     Ok ("1000000000000000000.00", "T");
     Raise OverflowError; Ok ("N/A", "")].
Proof. vm_compute. reflexivity. Qed.

(* ================================================================== *)
(** ** The watchlist: symbols and names *)

Section DictOrder.

Context {V : Type}.
Implicit Types (d : pydict V) (h : hkey) (k : pyval) (v : V).

Lemma dict_hkeys_keys d : dict_hkeys d = map hash_key (dict_keys d).
Proof. unfold dict_hkeys, dict_keys. now rewrite map_map. Qed.

Lemma dict_has_iff d h : dict_has d h = true <-> In (Some h) (dict_hkeys d).
Proof.
  unfold dict_has, dict_hkeys. induction d as [|[k' v'] d IH]; simpl.
  - split; [discriminate|tauto].
  - destruct (key_matches h k') eqn:E.
    + apply key_matches_iff in E. split; auto.
    + apply key_matches_false in E. rewrite IH. split; [auto|].
      intros [H|H]; [congruence|exact H].
Qed.

Lemma dict_has_store d h h' k v :
  hash_key k = Some h ->
  dict_has (dict_store d h k v) h' = hkey_eqb h h' || dict_has d h'.
Proof.
  intros Hk. unfold dict_has.
  destruct (hkey_eqb h h') eqn:E.
  - apply hkey_eqb_eq in E. subst h'.
    now rewrite dict_lookup_store_same.
  - rewrite dict_lookup_store_other; [reflexivity|exact Hk|].
    intros ->. rewrite (proj2 (hkey_eqb_eq h h) eq_refl) in E. discriminate.
Qed.

Lemma dict_keys_store d h k v :
  dict_keys (dict_store d h k v)
  = if dict_has d h then dict_keys d else dict_keys d ++ [k].
Proof.
  unfold dict_has, dict_keys. induction d as [|[k' v'] d IH]; simpl.
  - reflexivity.
  - destruct (key_matches h k'); simpl; [reflexivity|].
    rewrite IH. now destruct (dict_lookup d h).
Qed.

Lemma dict_store_nodup d h k v :
  hash_key k = Some h ->
  NoDup (dict_hkeys d) -> NoDup (dict_hkeys (dict_store d h k v)).
Proof.
  intros Hk Hnd. rewrite dict_hkeys_keys, dict_keys_store.
  destruct (dict_has d h) eqn:E.
  - now rewrite <- dict_hkeys_keys.
  - rewrite map_app, <- dict_hkeys_keys. simpl. rewrite Hk.
    apply NoDup_app; [exact Hnd|repeat constructor; intros []|].
    intros x Hx [<-|[]].
    apply dict_has_iff in Hx. congruence.
Qed.

End DictOrder.

Lemma first_seen_ext (seen seen' : hkey -> bool) (symbols : list pyval) :
  (forall h, seen h = seen' h) ->
  first_seen seen symbols = first_seen seen' symbols.
Proof.
  revert seen seen'. induction symbols as [|s rest IH]; intros seen seen' E.
  - reflexivity.
  - simpl. destruct (hash_key s) as [h|]; [|now apply IH].
    rewrite <- E. destruct (seen h); [now apply IH|].
    f_equal. apply IH. intros h'. now rewrite E.
Qed.

Lemma extract_instruments_step (i : pyval) (rest : list pyval)
    (m : pydict instrument_entry) :
  extract_instruments (i :: rest) m
  = if has_symbol i then
      m' <-? dict_setitem m (instrument_symbol i)
               [("Name", instrument_name i)] ;;
      extract_instruments rest m'
    else extract_instruments rest m.
Proof. reflexivity. Qed.

Lemma extract_instruments_order (items : list pyval) :
  forall m,
    Forall (fun i => is_hashable (instrument_symbol i) = true)
      (filter has_symbol items) ->
    NoDup (dict_hkeys m) ->
    exists m',
      extract_instruments items m = Ok m'
      /\ dict_keys m'
         = dict_keys m
           ++ first_seen (dict_has m)
                (map instrument_symbol (filter has_symbol items))
      /\ NoDup (dict_hkeys m')
      /\ (forall h,
            ~ In (Some h)
                (map (fun i => hash_key (instrument_symbol i))
                   (filter has_symbol items)) ->
            dict_lookup m' h = dict_lookup m h)
      /\ (forall pre i post,
            filter has_symbol items = pre ++ i :: post ->
            (forall j, In j post ->
               hash_key (instrument_symbol j)
               <> hash_key (instrument_symbol i)) ->
            exists h,
              hash_key (instrument_symbol i) = Some h
              /\ dict_lookup m' h = Some [("Name", instrument_name i)]).
Proof.
  induction items as [|i items IH]; intros m Hh Hnd.
  - exists m. simpl. rewrite app_nil_r.
    repeat split; auto. intros [|? ?] ? ? E; discriminate.
  - rewrite extract_instruments_step. simpl filter in *.
    destruct (has_symbol i) eqn:Ei; [|now apply IH].
    inversion Hh as [|? ? Hi Hh']; subst.
    apply is_hashable_iff in Hi as [h Hk].
    rewrite (dict_setitem_hashable _ _ _ _ Hk). cbn [rbind].
    set (m1 := dict_store m h (instrument_symbol i)
                 [("Name", instrument_name i)]).
    destruct (IH m1 Hh' (dict_store_nodup _ _ _ _ Hk Hnd))
      as (m' & Hm' & Hkeys & Hnd' & Hfar & Hpos).
    exists m'. split; [exact Hm'|]. split; [|split; [exact Hnd'|split]].
    + rewrite Hkeys. unfold m1. rewrite dict_keys_store.
      cbn [map first_seen]. rewrite Hk.
      destruct (dict_has m h) eqn:Eh.
      * f_equal. apply first_seen_ext. intros h'.
        rewrite dict_has_store by exact Hk.
        destruct (hkey_eqb h h') eqn:E; [|reflexivity].
        apply hkey_eqb_eq in E. now subst.
      * rewrite <- app_assoc. cbn [app]. do 2 f_equal.
        apply first_seen_ext. intros h'.
        now rewrite dict_has_store by exact Hk.
    + intros h' Hn. cbn [map] in Hn.
      rewrite Hfar by (intros Hin; apply Hn; right; exact Hin).
      apply dict_lookup_store_other; [exact Hk|].
      intros ->. apply Hn. left. exact Hk.
    + intros pre i0 post E Hlater.
      destruct pre as [|p pre]; simpl in E.
      * inversion E; subst i0 post.
        exists h. split; [exact Hk|].
        rewrite Hfar.
        -- now apply dict_lookup_store_same.
        -- intros Hin. apply in_map_iff in Hin as (j & Hj & Hin).
           apply (Hlater j Hin). congruence.
      * inversion E; subst. eapply Hpos; eauto.
Qed.

(** The extraction loop keeps the instruments that are dicts with a truthy
    symbol.  When those symbols can be dict keys, [unique_tickers] lists
    each distinct symbol once, in the order of its first appearance, and
    the name kept for a symbol is the one of its last appearance. *)
Theorem extract_instruments_dedup (items : list pyval) :
  Forall (fun i => is_hashable (instrument_symbol i) = true)
    (filter has_symbol items) ->
  exists instrument_map,
    extract_instruments items [] = Ok instrument_map
    /\ dict_keys instrument_map
       = first_seen (fun _ => false)
           (map instrument_symbol (filter has_symbol items))
    /\ NoDup (dict_hkeys instrument_map)
    /\ (forall pre i post,
          filter has_symbol items = pre ++ i :: post ->
          (forall j, In j post ->
             hash_key (instrument_symbol j) <> hash_key (instrument_symbol i)) ->
          exists h,
            hash_key (instrument_symbol i) = Some h
            /\ dict_lookup instrument_map h
               = Some [("Name", instrument_name i)])
    /\ (forall h,
          ~ In (Some h)
              (map (fun i => hash_key (instrument_symbol i))
                 (filter has_symbol items)) ->
          dict_lookup instrument_map h = None).
Proof.
  intros Hh.
  destruct (extract_instruments_order items [] Hh (NoDup_nil _))
    as (m & Hm & Hkeys & Hnd & Hfar & Hpos).
  exists m. split; [exact Hm|]. split; [exact Hkeys|]. split; [exact Hnd|].
  split; [exact Hpos|]. intros h Hn. now rewrite Hfar.
Qed.

Lemma extract_instruments_dedup_witness :
  exists instrument_map,
    extract_instruments
      [instrument "AAPL" "Apple"; PNone; instrument "TSLA" "Tesla";
       PDict [("name", PStr "nameless")]; PDict [("symbol", PStr "")];
       instrument "AAPL" "Apple Inc."] [] = Ok instrument_map
    /\ dict_keys instrument_map = [PStr "AAPL"; PStr "TSLA"]
    /\ dict_lookup instrument_map (HStr "AAPL")
       = Some [("Name", PStr "Apple Inc.")].
Proof.
  destruct (extract_instruments_dedup
              [instrument "AAPL" "Apple"; PNone; instrument "TSLA" "Tesla";
               PDict [("name", PStr "nameless")]; PDict [("symbol", PStr "")];
               instrument "AAPL" "Apple Inc."])
    as (m & Hm & Hkeys & _ & Hlast & _).
  - repeat constructor.
  - exists m. split; [exact Hm|]. split; [exact Hkeys|].
    destruct (Hlast [instrument "AAPL" "Apple"; instrument "TSLA" "Tesla"]
                (instrument "AAPL" "Apple Inc.") [])
      as (h & Hh & Hl).
    + reflexivity.
    + intros j [].
    + injection Hh as <-. exact Hl.
Defined.

(** A symbol that cannot be a key aborts the extraction. *)
Example extract_instruments_unhashable :
  extract_instruments
    [instrument "AAPL" "Apple"; PDict [("symbol", PList [PStr "TSLA"])]] []
  = Raise TypeError.
Proof. reflexivity. Qed.

(* ================================================================== *)
(** ** The run, stage by stage *)

Section Stages.

Variable W : Type.
Variable respond : call -> W -> result pyval * W.

Let export := export_24hr_market_to_csv_and_sheet W respond.

(** The outer [try]/[except]/[finally] around any body. *)
Lemma export_unfold (s : state W) :
  export s
  = let r := fst (export_body W respond s) in
    let s1 := snd (export_body W respond s) in
    let t1 := match r with
              | Ok _ => snd s1
              | Raise e => snd s1 ++ [Printed (UnexpectedError e)]
              end in
    (Ok tt,
     (snd (respond CLogout (fst s1)),
      t1 ++ [Called CLogout (fst (respond CLogout (fst s1)))])).
Proof.
  unfold export, export_24hr_market_to_csv_and_sheet, try_finally, try_except,
    any_exception, tell.
  destruct (export_body W respond s) as [[[]|e] s1]; cbn [fst snd];
    rewrite logout_quietly_run; reflexivity.
Qed.

Lemma export_body_unfold (s : state W) :
  export_body W respond s
  = let a := fst (respond login_call (fst s)) in
    let w1 := snd (respond login_call (fst s)) in
    let t1 := snd s ++ [Called login_call a] in
    match v <-? a ;; has_access_token v with
    | Raise e => (Raise e, (w1, t1))
    | Ok false => (Ok tt, (w1, t1 ++ [Printed LoginFailed]))
    | Ok true =>
        let aw := fst (respond watchlist_call w1) in
        let w2 := snd (respond watchlist_call w1) in
        let t2 := t1 ++ [Called watchlist_call aw] in
        match aw with
        | Raise e => (Raise e, (w2, t2))
        | Ok raw =>
            if truthy (list_of_instruments raw)
            then process_instruments W respond (list_of_instruments raw)
                   (w2, t2)
            else (Ok tt, (w2, t2 ++ [Printed WatchlistEmpty]))
        end
    end.
Proof.
  unfold export_body, bind, ext, login_call, watchlist_call, has_access_token.
  destruct (respond _ (fst s)) as [[v|e] w1]; cbn [fst snd rbind];
    [|reflexivity].
  destruct (truthy v).
  - unfold lift. destruct (py_contains "access_token" v) as [[|]|e];
      cbn [negb]; try reflexivity.
    cbv beta. cbn [fst snd].
    destruct (respond (CGetWatchlistByName WATCHLIST_NAME) w1)
      as [[raw|e] w2]; cbn [fst snd]; [|reflexivity].
    destruct (truthy (list_of_instruments raw)); reflexivity.
  - reflexivity.
Qed.

Lemma process_instruments_unfold (instruments : pyval) (s : state W) :
  process_instruments W respond instruments s
  = match items <-? py_iter instruments ;; extract_instruments items [] with
    | Raise e => (Raise e, s)
    | Ok instrument_map =>
        match dict_keys instrument_map with
        | [] => (Ok tt, (fst s, snd s ++ [Printed NoTickerSymbols]))
        | _ :: _ =>
            bind (fetch_latest_prices W respond (dict_keys instrument_map))
              (fun latest_prices_map =>
                 bind (fetch_fundamentals W respond
                         (ticker_chunks (dict_keys instrument_map)) [])
                   (fun all_fundamentals =>
                      merge_and_publish W respond instrument_map
                        latest_prices_map all_fundamentals)) s
        end
    end.
Proof.
  unfold process_instruments, bind at 1, lift at 1.
  destruct (py_iter instruments) as [items|e]; cbn [rbind]; [|reflexivity].
  unfold bind at 1, lift at 1.
  destruct (extract_instruments items []) as [m|e]; [|reflexivity].
  cbv zeta. destruct (dict_keys m); reflexivity.
Qed.

Lemma export_login_refused (s : state W) :
  let a := fst (respond login_call (fst s)) in
  let w1 := snd (respond login_call (fst s)) in
  (v <-? a ;; has_access_token v) <> Ok true ->
  exists n,
    export s
    = (Ok tt,
       (snd (respond CLogout w1),
        snd s ++ [Called login_call a; Printed n;
                  Called CLogout (fst (respond CLogout w1))]))
    /\ ((v <-? a ;; has_access_token v) = Ok false -> n = LoginFailed)
    /\ (forall e, (v <-? a ;; has_access_token v) = Raise e ->
                  n = UnexpectedError e).
Proof.
  intros a w1 Hno. rewrite export_unfold, export_body_unfold. cbv zeta.
  fold a w1.
  destruct (v <-? a ;; has_access_token v) as [[|]|e]; [congruence| |].
  - exists LoginFailed. cbn [fst snd]. rewrite <- !app_assoc.
    repeat split; congruence.
  - exists (UnexpectedError e). cbn [fst snd]. rewrite <- !app_assoc.
    repeat split; congruence.
Qed.

(** A run whose login does not pass the check makes no other call than
    the logout: a refused login prints the login error, a login (or a
    check) that raises prints the unexpected-error line. *)
Theorem login_gate (s : state W) :
  let a := fst (respond login_call (fst s)) in
  let w1 := snd (respond login_call (fst s)) in
  (v <-? a ;; has_access_token v) <> Ok true ->
  exists n,
    export s
    = (Ok tt,
       (snd (respond CLogout w1),
        snd s ++ [Called login_call a; Printed n;
                  Called CLogout (fst (respond CLogout w1))]))
    /\ ((v <-? a ;; has_access_token v) = Ok false -> n = LoginFailed)
    /\ (forall e, (v <-? a ;; has_access_token v) = Raise e ->
                  n = UnexpectedError e).
Proof. exact (export_login_refused s). Qed.

Lemma export_no_ticker (s : state W) :
  let a := fst (respond login_call (fst s)) in
  let w1 := snd (respond login_call (fst s)) in
  let aw := fst (respond watchlist_call w1) in
  let w2 := snd (respond watchlist_call w1) in
  (v <-? a ;; has_access_token v) = Ok true ->
  (forall t ts, (raw <-? aw ;; watchlist_tickers raw) <> Ok (t :: ts)) ->
  exists n,
    export s
    = (Ok tt,
       (snd (respond CLogout w2),
        snd s ++ [Called login_call a; Called watchlist_call aw; Printed n;
                  Called CLogout (fst (respond CLogout w2))]))
    /\ (forall raw, aw = Ok raw ->
          truthy (list_of_instruments raw) = false -> n = WatchlistEmpty)
    /\ (forall raw, aw = Ok raw ->
          truthy (list_of_instruments raw) = true ->
          instrument_tickers (list_of_instruments raw) = Ok [] ->
          n = NoTickerSymbols)
    /\ (forall e, (raw <-? aw ;; watchlist_tickers raw) = Raise e ->
                  n = UnexpectedError e).
Proof.
  intros a w1 aw w2 Hlogin Hno.
  rewrite export_unfold, export_body_unfold. cbv zeta.
  fold a w1. rewrite Hlogin. fold aw w2.
  destruct aw as [raw|e] eqn:Eaw; cbn [rbind] in Hno |- *.
  - destruct (truthy (list_of_instruments raw)) eqn:Et.
    + rewrite process_instruments_unfold.
      destruct (py_iter (list_of_instruments raw)) as [items|e] eqn:Ei;
        cbn [rbind].
      * destruct (extract_instruments items []) as [m|e] eqn:Em.
        -- assert (Hwt : watchlist_tickers raw = Ok (dict_keys m)).
           { unfold watchlist_tickers, instrument_tickers.
             rewrite Et, Ei. cbn [rbind]. now rewrite Em. }
           destruct (dict_keys m) as [|t ts] eqn:Ek;
             [|exfalso; eapply Hno; exact Hwt].
           exists NoTickerSymbols. cbn [fst snd]. rewrite <- !app_assoc.
           repeat split; try congruence.
        -- assert (Hwt : watchlist_tickers raw = Raise e).
           { unfold watchlist_tickers, instrument_tickers.
             rewrite Et, Ei. cbn [rbind]. now rewrite Em. }
           exists (UnexpectedError e). cbn [fst snd]. rewrite <- !app_assoc.
           repeat split; try congruence.
           intros raw' [= <-] _. unfold watchlist_tickers in Hwt.
           rewrite Et in Hwt. congruence.
      * assert (Hwt : watchlist_tickers raw = Raise e).
        { unfold watchlist_tickers, instrument_tickers.
          now rewrite Et, Ei. }
        exists (UnexpectedError e). cbn [fst snd]. rewrite <- !app_assoc.
        repeat split; try congruence.
        intros raw' [= <-] _. unfold watchlist_tickers in Hwt.
        rewrite Et in Hwt. congruence.
    + assert (Hwt : watchlist_tickers raw = Ok []).
      { unfold watchlist_tickers. now rewrite Et. }
      exists WatchlistEmpty. cbn [fst snd]. rewrite <- !app_assoc.
      repeat split; try congruence.
  - exists (UnexpectedError e). cbn [fst snd]. rewrite <- !app_assoc.
    repeat split; try congruence.
Qed.

(** After a good login, a watchlist that yields no ticker -- the request
    fails, the answer is neither a list nor an envelope, the list is empty,
    no instrument has a symbol, or the extraction raises -- ends the run
    after these two calls: no quote, no fundamentals request, no
    spreadsheet call. *)
Theorem watchlist_gate (s : state W) :
  let a := fst (respond login_call (fst s)) in
  let w1 := snd (respond login_call (fst s)) in
  let aw := fst (respond watchlist_call w1) in
  let w2 := snd (respond watchlist_call w1) in
  (v <-? a ;; has_access_token v) = Ok true ->
  (forall t ts, (raw <-? aw ;; watchlist_tickers raw) <> Ok (t :: ts)) ->
  exists n,
    export s
    = (Ok tt,
       (snd (respond CLogout w2),
        snd s ++ [Called login_call a; Called watchlist_call aw; Printed n;
                  Called CLogout (fst (respond CLogout w2))]))
    /\ (forall raw, aw = Ok raw ->
          truthy (list_of_instruments raw) = false -> n = WatchlistEmpty)
    /\ (forall raw, aw = Ok raw ->
          truthy (list_of_instruments raw) = true ->
          instrument_tickers (list_of_instruments raw) = Ok [] ->
          n = NoTickerSymbols)
    /\ (forall e, (raw <-? aw ;; watchlist_tickers raw) = Raise e ->
                  n = UnexpectedError e).
Proof. exact (export_no_ticker s). Qed.

End Stages.

(* ================================================================== *)
(** ** [upload_to_google_sheets] *)

Section Upload.

Variable W : Type.
Variable respond : call -> W -> result pyval * W.

Lemma rev_eq_app {A : Type} (l rest : list A) (x : A) :
  rev l = x :: rest -> l = rev rest ++ [x].
Proof.
  intros H. rewrite <- (rev_involutive l), H. reflexivity.
Qed.

Lemma rev_eq_app2 {A : Type} (l rest : list A) (x y : A) :
  rev l = y :: x :: rest -> l = rev rest ++ [x; y].
Proof.
  intros H. rewrite <- (rev_involutive l), H. simpl.
  now rewrite <- app_assoc.
Qed.

Ltac answer_step :=
  match goal with
  | |- context [respond ?c ?w] =>
      let v := fresh "v" in
      let e := fresh "e" in
      let w' := fresh "w" in
      destruct (respond c w) as [[v|e] w']; cbn [fst snd];
      try (progress
             match goal with
             | |- context [match e with WorksheetNotFound => _ | _ => _ end] =>
                 destruct e
             end)
  end.

Ltac by_order i k := solve [exists i; exists k; reflexivity].

Ltac by_order_upto i :=
  first [by_order i 1%nat | by_order i 2%nat | by_order i 3%nat
        |by_order i 4%nat | by_order i 5%nat | by_order i 6%nat].

Ltac pick_order :=
  first [by_order_upto 0%nat | by_order_upto 1%nat | by_order_upto 2%nat].

Lemma upload_cases (df : list OutputRow) (s : state W) :
  let table := COLUMNS :: map row_values df in
  exists evs,
    trace (upload_to_google_sheets W respond df s) = snd s ++ evs
    /\ outcome (upload_to_google_sheets W respond df s) = Ok tt
    /\ (exists i k, calls_of evs = firstn k (nth i (sheet_orders df) []))
    /\ ((exists rest v,
           rev evs = Called (CUpdate table "A1") (Ok v) :: rest
           /\ Forall went_through rest)
        \/ (exists rest c e,
              rev evs = Printed (SheetsError e) :: Called c (Raise e) :: rest
              /\ Forall not_a_write rest)).
Proof.
  intros table. subst table. destruct s as [w0 t0].
  unfold upload_to_google_sheets, try_except, bind, ext, tell, ret,
    any_exception, is_worksheet_not_found, trace, outcome.
  cbn [fst snd].
  repeat answer_step;
    cbn [fst snd]; rewrite <- ?app_assoc; cbn [app];
    (eexists; split; [reflexivity|]; split; [reflexivity|]; split;
     [pick_order
     |first [left; eexists; eexists; split;
             [reflexivity|repeat constructor]
            |right; eexists; eexists; eexists; split;
             [reflexivity|repeat constructor]]]).
Qed.

(** [upload_to_google_sheets] never raises.  Either its last call is the
    write of the table (header, then the rows in order) at ["A1"], every
    earlier call having returned or reported a missing worksheet; or the
    call that raised is followed by the error line, nothing having been
    written before it. *)
Theorem upload_reports_and_returns (df : list OutputRow) (s : state W) :
  let table := COLUMNS :: map row_values df in
  exists evs,
    trace (upload_to_google_sheets W respond df s) = snd s ++ evs
    /\ outcome (upload_to_google_sheets W respond df s) = Ok tt
    /\ ((exists pre v,
           evs = pre ++ [Called (CUpdate table "A1") (Ok v)]
           /\ Forall went_through pre)
        \/ (exists pre c e,
              evs = pre ++ [Called c (Raise e); Printed (SheetsError e)]
              /\ Forall not_a_write pre)).
Proof.
  intros table.
  destruct (upload_cases df s) as (evs & Ht & Ho & _ & Hend).
  exists evs. split; [exact Ht|]. split; [exact Ho|].
  destruct Hend as [(rest & v & Hr & HF)|(rest & c & e & Hr & HF)].
  - left. exists (rev rest), v. split; [now apply rev_eq_app|].
    now apply Forall_rev.
  - right. exists (rev rest), c, e. split; [now apply rev_eq_app2|].
    now apply Forall_rev.
Qed.

(** The gspread calls of an upload are an initial segment of one of three
    orders: authenticate, open the spreadsheet, look the worksheet up, then
    clear it, or create it, or fail to clear it because it is gone and
    create it, and finally write.  A created worksheet has one row more
    than the data and five columns, which is the shape of the table. *)
Theorem upload_call_order (df : list OutputRow) (s : state W) :
  let table := COLUMNS :: map row_values df in
  (exists evs order k,
     trace (upload_to_google_sheets W respond df s) = snd s ++ evs
     /\ In order (sheet_orders df)
     /\ calls_of evs = firstn k order)
  /\ List.length table = (List.length df + 1)%nat
  /\ Forall (fun cells => List.length cells = 5%nat) table.
Proof.
  intros table. split; [|split].
  - destruct (upload_cases df s) as (evs & Ht & _ & (i & k & Hc) & _).
    exists evs.
    destruct i as [|[|[|i]]].
    + eexists; exists k. split; [exact Ht|]. split; [|exact Hc].
      simpl; auto.
    + eexists; exists k. split; [exact Ht|]. split; [|exact Hc].
      simpl; auto.
    + eexists; exists k. split; [exact Ht|]. split; [|exact Hc].
      simpl; auto.
    + eexists; exists 0%nat. split; [exact Ht|]. split; [left; reflexivity|].
      rewrite Hc. simpl. destruct i; now rewrite firstn_nil.
  - unfold table. simpl. rewrite length_map. lia.
  - unfold table. constructor; [reflexivity|].
    apply Forall_forall. intros cells Hin.
    apply in_map_iff in Hin as (r & <- & _). reflexivity.
Qed.

End Upload.

(* ================================================================== *)
(** ** A run that reaches the quotes *)

Lemma upload_order (W : Type) (respond : call -> W -> result pyval * W)
    (df : list OutputRow) (s : state W) (evs : list event) :
  trace (upload_to_google_sheets W respond df s) = snd s ++ evs ->
  exists order k,
    In order (sheet_orders df) /\ calls_of evs = firstn k order.
Proof.
  intros H.
  destruct (upload_cases W respond df s) as (evs' & Ht & _ & (i & k & Hc) & _).
  rewrite Ht in H. apply app_inv_head in H. subst evs'.
  destruct i as [|[|[|i]]].
  - eexists; exists k. split; [|exact Hc]. simpl; auto.
  - eexists; exists k. split; [|exact Hc]. simpl; auto.
  - eexists; exists k. split; [|exact Hc]. simpl; auto.
  - eexists; exists 0%nat. split; [simpl; left; reflexivity|].
    rewrite Hc. simpl. destruct i, k; reflexivity.
Qed.

Lemma extract_instruments_hashable (items : list pyval) :
  forall m m',
    Forall (fun k => is_hashable k = true) (dict_keys m) ->
    extract_instruments items m = Ok m' ->
    Forall (fun k => is_hashable k = true) (dict_keys m').
Proof.
  induction items as [|i items IH]; intros m m' Hm.
  - now intros [= <-].
  - rewrite extract_instruments_step.
    destruct (has_symbol i); [|now apply IH].
    unfold dict_setitem.
    destruct (hash_key (instrument_symbol i)) as [h|] eqn:Hk; [|discriminate].
    cbn [rbind]. apply IH. rewrite dict_keys_store.
    destruct (dict_has m h); [exact Hm|].
    apply Forall_app. split; [exact Hm|].
    constructor; [|constructor]. apply is_hashable_iff. eauto.
Qed.

Lemma ticker_chunks_first (t : pyval) (ts : list pyval) :
  exists rest, ticker_chunks (t :: ts) = firstn CHUNK_SIZE (t :: ts) :: rest.
Proof.
  unfold ticker_chunks, chunks_of, py_range.
  destruct ((List.length (t :: ts) + CHUNK_SIZE - 1) / CHUNK_SIZE)%nat
    as [|n] eqn:En.
  - exfalso.
    pose proof (chunk_count_covers CHUNK_SIZE ltac:(unfold CHUNK_SIZE; lia)
                  (List.length (t :: ts))) as H.
    rewrite En in H. simpl in H. lia.
  - rewrite <- cons_seq. cbn [map]. eexists. f_equal.
Qed.

Section Reached.

Variable W : Type.
Variable respond : call -> W -> result pyval * W.

Lemma fetch_latest_prices_returns (tickers : list pyval) (s : state W) :
  tickers <> [] ->
  Forall (fun t => is_hashable t = true) tickers ->
  let ap := fst (respond (CGetLatestPrice tickers) (fst s)) in
  exists pm warn,
    fetch_latest_prices W respond tickers s
    = (Ok pm,
       (snd (respond (CGetLatestPrice tickers) (fst s)),
        snd s ++ Called (CGetLatestPrice tickers) ap :: warn))
    /\ (warn = []
        \/ exists e, warn = [Printed (PriceFetchWarning e)]
                     /\ Forall (eq "N/A") (map snd pm))
    /\ (forall e, ap = Raise e -> warn = [Printed (PriceFetchWarning e)])
    /\ prices_from tickers ap = Ok pm.
Proof.
  intros Hne Hh ap.
  rewrite fetch_latest_prices_run by exact Hne. cbv zeta. fold ap.
  unfold prices_from.
  destruct (all_na_total tickers Hh []) as (dna & Hdna & _).
  assert (Hvals : Forall (eq "N/A") (map snd dna)).
  { eapply all_na_values; eauto; constructor. }
  destruct ap as [v|e] eqn:Ea; cbn [rbind].
  - destruct (prices_of_answer tickers v) as [pm|e].
    + exists pm, []. split; [reflexivity|]. split; [now left|].
      split; [discriminate|reflexivity].
    + rewrite Hdna. exists dna, [Printed (PriceFetchWarning e)].
      rewrite <- app_assoc. split; [reflexivity|].
      split; [right; eauto|]. split; [discriminate|reflexivity].
  - rewrite Hdna. exists dna, [Printed (PriceFetchWarning e)].
    rewrite <- app_assoc. split; [reflexivity|].
    split; [right; eauto|]. split; [now intros e' [= <-]|reflexivity].
Qed.

Lemma merge_and_publish_unfold (instrument_map : pydict instrument_entry)
    (latest_prices_map : pydict string) (all_fundamentals : list pyval)
    (s : state W) :
  merge_and_publish W respond instrument_map latest_prices_map
    all_fundamentals s
  = match merge instrument_map latest_prices_map all_fundamentals with
    | Raise e => (Raise e, s)
    | Ok [] => (Ok tt, (fst s, snd s ++ [Printed EmptyDataset]))
    | Ok (r :: rows) => upload_to_google_sheets W respond (r :: rows) s
    end.
Proof.
  unfold merge_and_publish, bind, lift, publish.
  destruct (merge _ _ _) as [[|r rows]|e]; reflexivity.
Qed.

(** The part of the log that steps 4 to 8 write, and the outcome. *)
Ltac norm_log :=
  rewrite ?app_nil_r; repeat rewrite <- app_assoc; cbn [app];
  repeat rewrite <- app_assoc; cbn [app].

Lemma pipeline_log (instrument_map : pydict instrument_entry)
    (t : pyval) (ts : list pyval) (s : state W) :
  dict_keys instrument_map = t :: ts ->
  Forall (fun k => is_hashable k = true) (t :: ts) ->
  let tickers := t :: ts in
  let ap := fst (respond (CGetLatestPrice tickers) (fst s)) in
  let run :=
    bind (fetch_latest_prices W respond tickers)
      (fun latest_prices_map =>
         bind (fetch_fundamentals W respond (ticker_chunks tickers) [])
           (fun all_fundamentals =>
              merge_and_publish W respond instrument_map latest_prices_map
                all_fundamentals)) s in
  exists pm warn calls tail,
    snd (snd run) ++ match fst run with
                     | Ok _ => []
                     | Raise e => [Printed (UnexpectedError e)]
                     end
    = snd s ++ Called (CGetLatestPrice tickers) ap :: warn
        ++ flat_map paced_request calls ++ tail
    /\ (warn = []
        \/ exists e, warn = [Printed (PriceFetchWarning e)]
                     /\ Forall (eq "N/A") (map snd pm))
    /\ (forall e, ap = Raise e -> warn = [Printed (PriceFetchWarning e)])
    /\ Forall (fun p => is_price p = true) (map snd pm)
    /\ map fst calls = firstn (List.length calls) (ticker_chunks tickers)
    /\ ending instrument_map pm (ticker_chunks tickers) calls tail
    /\ prices_from tickers ap = Ok pm.
Proof.
  intros Hkeys Hh tickers ap run.
  destruct (fetch_latest_prices_returns tickers s ltac:(discriminate) Hh)
    as (pm & warn & Hfetch & Hwarn & Hraise & Hfrom).
  assert (Hpm : Forall (fun p => is_price p = true) (map snd pm)).
  { apply (fetch_latest_prices_values W respond _ tickers s pm);
      [reflexivity|apply quote_is_price|].
    unfold outcome. now rewrite Hfetch. }
  set (s1 := (snd (respond (CGetLatestPrice tickers) (fst s)),
              snd s ++ Called (CGetLatestPrice tickers) ap :: warn)).
  assert (Hrun : run
                 = let (rF, sF) :=
                     fetch_fundamentals W respond (ticker_chunks tickers) []
                       s1 in
                   match rF with
                   | Ok all_fundamentals =>
                       merge_and_publish W respond instrument_map pm
                         all_fundamentals sF
                   | Raise e => (Raise e, sF)
                   end).
  { subst run. unfold bind. rewrite Hfetch. reflexivity. }
  clearbody run. subst run.
  exists pm, warn.
  destruct (fetch_fundamentals_log W respond (ticker_chunks tickers) [] s1)
    as (good & recs & HF & [(Ho & Hm & Ht)|(c & a & e & Ho & Hc & Hm & Ht)]);
    unfold outcome, trace in Ho, Ht;
    destruct (fetch_fundamentals W respond (ticker_chunks tickers) [] s1)
      as [rF sF]; cbn [fst snd] in Ho, Ht; subst rF.
  - cbn [app]. rewrite merge_and_publish_unfold.
    assert (Hlen : map fst good
                   = firstn (List.length good) (ticker_chunks tickers)).
    { rewrite <- Hm, <- (length_map fst good).
      symmetry. apply firstn_all. }
    destruct (merge instrument_map pm (List.concat recs)) as [[|r rows]|e]
      eqn:Emerge; cbn [fst snd].
    + exists good, [Printed EmptyDataset].
      rewrite Ht. unfold s1. cbn [snd]. norm_log.
      repeat split; auto. eapply NothingMerged; eauto.
    + destruct (upload_to_google_sheets_log W respond (r :: rows) sF)
        as (evs & Hte & Hs & Hok).
      pose proof (upload_order W respond (r :: rows) sF evs Hte) as Horder.
      unfold trace, outcome in Hte, Hok. rewrite Hok, Hte.
      exists good, evs.
      rewrite Ht. unfold s1. cbn [snd]. norm_log.
      repeat split; auto.
      eapply RowsUploaded; eauto. discriminate.
    + exists good, [Printed (UnexpectedError e)].
      rewrite Ht. unfold s1. cbn [snd]. norm_log.
      repeat split; auto. eapply MergeFailed; eauto.
  - cbn [fst snd].
    exists (good ++ [(c, a)]), [Printed (UnexpectedError e)].
    rewrite Ht. unfold s1. cbn [snd]. norm_log.
    repeat split; auto.
    + rewrite Hm, length_app, Nat.add_1_r. reflexivity.
    + eapply RequestFailed; eauto.
      clear - HF. induction HF as [|ca r good recs Hr _ IH]; constructor; auto.
      now exists r.
Qed.

End Reached.

Lemma fundamentals_calls_app (a b : list event) :
  fundamentals_calls (a ++ b) = fundamentals_calls a ++ fundamentals_calls b.
Proof.
  induction a as [|ev a IH]; [reflexivity|].
  simpl. destruct ev as [c ans| |n]; try exact IH.
  destruct c; try exact IH. simpl. now rewrite IH.
Qed.

Lemma fundamentals_calls_none (l : list event) :
  Forall (fun ev => is_fundamentals_call ev = false) l ->
  fundamentals_calls l = [].
Proof.
  induction 1 as [|ev l Hev _ IH]; [reflexivity|].
  simpl. destruct ev as [c ans| |n]; try exact IH.
  destruct c; try exact IH. discriminate.
Qed.

Lemma fundamentals_calls_paced (calls : list (list pyval * result pyval)) :
  fundamentals_calls (flat_map paced_request calls) = calls.
Proof.
  induction calls as [|[c a] calls IH]; [reflexivity|].
  simpl. now rewrite IH.
Qed.

Lemma paced_kinds (calls : list (list pyval * result pyval)) :
  Forall (fun ev => is_quote_call ev = false /\ is_write ev = false
                    /\ quiet ev = true)
    (flat_map paced_request calls).
Proof.
  induction calls as [|[c a] calls IH]; simpl; repeat constructor. exact IH.
Qed.

Lemma sheet_event_kinds (table : list (list pyval)) (ev : event) :
  sheet_event table ev ->
  is_fundamentals_call ev = false /\ is_quote_call ev = false.
Proof.
  destruct ev as [c a| |n]; simpl; intros H; try tauto.
  destruct c; simpl in H; try discriminate; auto.
Qed.

Lemma ending_kinds (instrument_map : pydict instrument_entry)
    (pm : pydict string) (chunks : list (list pyval))
    (calls : list (list pyval * result pyval)) (tail : list event) :
  ending instrument_map pm chunks calls tail ->
  Forall (fun ev => is_fundamentals_call ev = false
                    /\ is_quote_call ev = false) tail.
Proof.
  intros [earlier chunk answer e _ _ _ ->|records e _ _ _ ->
         |records _ _ _ ->|records rows _ _ _ _ Hs _];
    try (repeat constructor).
  apply Forall_forall. intros ev Hin.
  eapply sheet_event_kinds. apply (proj1 (Forall_forall _ _) Hs ev Hin).
Qed.

Lemma merge_record_price (instrument_map : pydict instrument_entry)
    (latest_prices_map : pydict string) (fund : pyval) (r : OutputRow) :
  Forall (eq "N/A") (map snd latest_prices_map) ->
  merge_record instrument_map latest_prices_map fund = Ok (Some r) ->
  Price r = "N/A".
Proof.
  intros Hp. unfold merge_record, dict_get.
  destruct (truthy fund && is_dict fund); [|discriminate].
  destruct (hash_key _) as [h|]; [|discriminate]. simpl.
  destruct (format_market_cap _) as [[value unit_]|]; [|discriminate].
  simpl. intros [= <-]. simpl.
  destruct (dict_lookup latest_prices_map h) as [p|] eqn:E; [|reflexivity].
  symmetry. exact (dict_lookup_value _ _ _ _ Hp E).
Qed.

Lemma merge_prices_na (instrument_map : pydict instrument_entry)
    (latest_prices_map : pydict string) (funds : list pyval)
    (rows : list OutputRow) :
  Forall (eq "N/A") (map snd latest_prices_map) ->
  merge instrument_map latest_prices_map funds = Ok rows ->
  Forall (fun r => Price r = "N/A") rows.
Proof.
  intros Hp. unfold merge. revert rows.
  induction funds as [|f funds IH]; intros rows; simpl.
  - intros [= <-]. constructor.
  - destruct (merge_record _ _ f) as [row|] eqn:Er; [|discriminate]. simpl.
    rewrite merge_loop_acc.
    destruct (merge_loop _ _ funds []) as [rows'|] eqn:El; [|discriminate].
    simpl. intros [= <-]. apply Forall_app. split; [|now apply IH].
    destruct row as [r|]; [|constructor].
    constructor; [|constructor]. eapply merge_record_price; eauto.
Qed.

Section ReachedRun.

Variable W : Type.
Variable respond : call -> W -> result pyval * W.

Let export := export_24hr_market_to_csv_and_sheet W respond.

Lemma export_reached (s : state W) (raw t : pyval) (ts : list pyval) :
  let a := fst (respond login_call (fst s)) in
  let w1 := snd (respond login_call (fst s)) in
  let aw := fst (respond watchlist_call w1) in
  let w2 := snd (respond watchlist_call w1) in
  let tickers := t :: ts in
  let ap := fst (respond (CGetLatestPrice tickers) w2) in
  (v <-? a ;; has_access_token v) = Ok true ->
  aw = Ok raw ->
  watchlist_tickers raw = Ok tickers ->
  exists instrument_map pm warn calls tail lo,
    trace (export s)
    = snd s ++ Called login_call a :: Called watchlist_call aw
        :: Called (CGetLatestPrice tickers) ap
        :: warn ++ flat_map paced_request calls ++ tail ++ [Called CLogout lo]
    /\ dict_keys instrument_map = tickers
    /\ (warn = []
        \/ exists e, warn = [Printed (PriceFetchWarning e)]
                     /\ Forall (eq "N/A") (map snd pm))
    /\ (forall e, ap = Raise e -> warn = [Printed (PriceFetchWarning e)])
    /\ map fst calls = firstn (List.length calls) (ticker_chunks tickers)
    /\ ending instrument_map pm (ticker_chunks tickers) calls tail
    /\ watchlist_map raw = Ok instrument_map
    /\ prices_from tickers ap = Ok pm.
Proof.
  intros a w1 aw w2 tickers ap Hlogin Haw Htickers.
  unfold export. rewrite export_unfold, export_body_unfold. cbv zeta.
  fold a w1. rewrite Hlogin. fold aw w2. rewrite Haw.
  unfold watchlist_tickers in Htickers. unfold watchlist_map.
  destruct (truthy (list_of_instruments raw)); [|discriminate].
  rewrite process_instruments_unfold.
  unfold instrument_tickers in Htickers.
  destruct (py_iter (list_of_instruments raw)) as [items|]; [|discriminate].
  cbn [rbind] in *.
  destruct (extract_instruments items []) as [m|] eqn:Em; [|discriminate].
  cbn [rbind] in Htickers. injection Htickers as Hkeys.
  assert (Hh : Forall (fun k => is_hashable k = true) (t :: ts)).
  { fold tickers. rewrite <- Hkeys.
    eapply extract_instruments_hashable; [|exact Em]. constructor. }
  rewrite Hkeys. unfold tickers. cbv iota.
  destruct (pipeline_log W respond m t ts
              (w2, (snd s ++ [Called login_call a])
                   ++ [Called watchlist_call (Ok raw)]) Hkeys Hh)
    as (pm & warn & calls & tail & Hlog & Hwarn & Hraise & _ & Hcalls & Hend
        & Hfrom).
  cbv zeta in Hlog. cbn [fst snd] in Hlog, Hraise, Hfrom.
  set (run := bind _ _ _) in *.
  destruct run as [[u|e] sR]; cbn [fst snd] in *.
  - rewrite app_nil_r in Hlog. rewrite Hlog.
    exists m, pm, warn, calls, tail. eexists.
    split; [|repeat split; auto].
    unfold trace. cbn [snd]. rewrite <- !app_assoc. cbn [app].
    do 4 f_equal. rewrite <- !app_assoc. reflexivity.
  - rewrite Hlog.
    exists m, pm, warn, calls, tail. eexists.
    split; [|repeat split; auto].
    unfold trace. cbn [snd]. rewrite <- !app_assoc. cbn [app].
    do 4 f_equal. rewrite <- !app_assoc. reflexivity.
Qed.

End ReachedRun.

Lemma in_paced_request (calls : list (list pyval * result pyval))
    (chunk : list pyval) (answer : result pyval) :
  In (Called (CGetFundamentals chunk) answer) (flat_map paced_request calls) ->
  In (chunk, answer) calls.
Proof.
  induction calls as [|[c a] calls IH]; simpl; [tauto|].
  intros [H|[H|H]]; [discriminate| |auto].
  injection H as -> ->. now left.
Qed.

Lemma Forall2_contributed (calls : list (list pyval * result pyval))
    (records : list (list pyval)) :
  Forall2 (fun ca r => contribution (snd ca) = Ok r) calls records ->
  Forall contributed calls.
Proof.
  induction 1 as [|ca r calls records Hr _ IH]; constructor; auto.
  now exists r.
Qed.

Lemma ending_calls_nonempty (instrument_map : pydict instrument_entry)
    (pm : pydict string) (chunk : list pyval) (chunks : list (list pyval))
    (all_chunks : list (list pyval))
    (calls : list (list pyval * result pyval)) (tail : list event) :
  all_chunks = chunk :: chunks ->
  ending instrument_map pm all_chunks calls tail ->
  calls <> [].
Proof.
  intros -> [earlier c answer e -> _ _ _|records e Hm _ _ _
            |records Hm _ _ _|records rows Hm _ _ _ _ _];
    try (intros ->; simpl in Hm; discriminate).
  intros H. apply (f_equal (@List.length _)) in H.
  rewrite length_app in H. simpl in H. lia.
Qed.

Section ReachedProperties.

Variable W : Type.
Variable respond : call -> W -> result pyval * W.

Let export := export_24hr_market_to_csv_and_sheet W respond.

(** Once the login is good and the watchlist yields tickers, the quotes
    are requested exactly once, for the deduplicated watchlist symbols, and
    before any fundamentals; then, whatever the quote provider answered,
    fundamentals are requested for the same symbols cut into batches,
    starting with the first hundred. *)
Theorem quotes_then_fundamentals (s : state W) (raw t : pyval)
    (ts : list pyval) :
  let a := fst (respond login_call (fst s)) in
  let w1 := snd (respond login_call (fst s)) in
  let aw := fst (respond watchlist_call w1) in
  let w2 := snd (respond watchlist_call w1) in
  let tickers := t :: ts in
  let ap := fst (respond (CGetLatestPrice tickers) w2) in
  (v <-? a ;; has_access_token v) = Ok true ->
  aw = Ok raw ->
  watchlist_tickers raw = Ok tickers ->
  exists rest,
    trace (export s)
    = snd s ++ Called login_call a :: Called watchlist_call aw
        :: Called (CGetLatestPrice tickers) ap :: rest
    /\ Forall (fun ev => is_quote_call ev = false) rest
    /\ (exists answer more,
          fundamentals_calls rest
          = (firstn CHUNK_SIZE tickers, answer) :: more)
    /\ map fst (fundamentals_calls rest)
       = firstn (List.length (fundamentals_calls rest))
           (ticker_chunks tickers).
Proof.
  intros a w1 aw w2 tickers ap Hlogin Haw Htickers.
  destruct (export_reached W respond s raw t ts Hlogin Haw Htickers)
    as (m & pm & warn & calls & tail & lo & Ht & _ & Hwarn & _ & Hcalls & Hend
        & _).
  eexists. split; [exact Ht|].
  assert (Hw : Forall (fun ev => is_fundamentals_call ev = false
                                 /\ is_quote_call ev = false) warn).
  { destruct Hwarn as [->|(e & -> & _)]; repeat constructor. }
  pose proof (ending_kinds _ _ _ _ _ Hend) as Htail.
  assert (Hfc : fundamentals_calls
                  (warn ++ flat_map paced_request calls ++ tail
                     ++ [Called CLogout lo]) = calls).
  { rewrite !fundamentals_calls_app, fundamentals_calls_paced.
    rewrite (fundamentals_calls_none warn)
      by (eapply Forall_impl; [|exact Hw]; now intros ev [H _]).
    rewrite (fundamentals_calls_none tail)
      by (eapply Forall_impl; [|exact Htail]; now intros ev [H _]).
    simpl. now rewrite app_nil_r. }
  split; [|rewrite Hfc; split; [|exact Hcalls]].
  - apply Forall_app. split.
    { eapply Forall_impl; [|exact Hw]. now intros ev [_ H]. }
    apply Forall_app. split.
    { eapply Forall_impl; [|apply paced_kinds]. now intros ev [H _]. }
    apply Forall_app. split.
    { eapply Forall_impl; [|exact Htail]. now intros ev [_ H]. }
    repeat constructor.
  - destruct (ticker_chunks_first t ts) as [chunks Hchunks].
    subst tickers.
    pose proof (ending_calls_nonempty _ _ _ _ _ _ _ Hchunks Hend) as Hne.
    destruct calls as [|[c0 a0] more]; [congruence|].
    rewrite Hchunks in Hcalls. simpl in Hcalls. injection Hcalls as -> _.
    eauto.
Qed.

(** When the quote request raises, the run goes on: the warning is
    printed, fundamentals are still requested, and every row that reaches
    the sheet has ["N/A"] as its price. *)
Theorem quote_failure_is_isolated (s : state W) (raw t : pyval)
    (ts : list pyval) (e : exn) :
  let a := fst (respond login_call (fst s)) in
  let w1 := snd (respond login_call (fst s)) in
  let aw := fst (respond watchlist_call w1) in
  let w2 := snd (respond watchlist_call w1) in
  let tickers := t :: ts in
  (v <-? a ;; has_access_token v) = Ok true ->
  aw = Ok raw ->
  watchlist_tickers raw = Ok tickers ->
  fst (respond (CGetLatestPrice tickers) w2) = Raise e ->
  exists evs,
    trace (export s) = snd s ++ evs
    /\ In (Printed (PriceFetchWarning e)) evs
    /\ (exists answer,
          In (Called (CGetFundamentals (firstn CHUNK_SIZE tickers)) answer)
            evs)
    /\ (forall table range answer,
          In (Called (CUpdate table range) answer) evs ->
          exists rows,
            table = COLUMNS :: map row_values rows
            /\ Forall (fun r => Price r = "N/A") rows).
Proof.
  intros a w1 aw w2 tickers Hlogin Haw Htickers Hquote.
  destruct (export_reached W respond s raw t ts Hlogin Haw Htickers)
    as (m & pm & warn & calls & tail & lo & Ht & _ & Hwarn & Hraise
        & Hcalls & Hend & _).
  specialize (Hraise e Hquote). subst warn.
  destruct Hwarn as [Hw|(e' & _ & Hna)]; [discriminate|].
  eexists. split; [exact Ht|]. split; [|split].
  - do 3 right. now left.
  - destruct (ticker_chunks_first t ts) as [chunks Hchunks].
    subst tickers.
    pose proof (ending_calls_nonempty _ _ _ _ _ _ _ Hchunks Hend) as Hne.
    destruct calls as [|[c0 a0] more]; [congruence|].
    rewrite Hchunks in Hcalls. simpl in Hcalls. injection Hcalls as -> _.
    exists a0. do 4 right. simpl. right. now left.
  - intros table range answer Hin.
    destruct Hin as [H|[H|[H|[H|Hin]]]]; try discriminate.
    cbn [app] in Hin. apply in_app_or in Hin as [Hin|Hin].
    { exfalso. pose proof (paced_kinds calls) as Hk.
      apply (proj1 (Forall_forall _ _) Hk) in Hin.
      destruct Hin as (_ & Hin & _). discriminate. }
    apply in_app_or in Hin as [Hin|[Hin|[]]]; [|discriminate].
    destruct Hend as [earlier chunk ans e0 _ _ _ ->
                     |records e0 _ _ _ ->|records _ _ _ ->
                     |records rows _ _ Hmerge _ Hs _];
      try (destruct Hin as [Hin|[]]; discriminate).
    apply (proj1 (Forall_forall _ _) Hs) in Hin. simpl in Hin.
    destruct Hin as [-> _]. exists rows. split; [reflexivity|].
    eapply merge_prices_na; eauto.
Qed.

(** A fundamentals request that raises ends the run at once: the error is
    printed, the session is closed, nothing is written to the sheet. *)
Theorem fundamentals_failure_is_fatal (s : state W) (chunk : list pyval)
    (e : exn) (evs : list event) :
  trace (export s) = snd s ++ evs ->
  In (Called (CGetFundamentals chunk) (Raise e)) evs ->
  (exists pre lo,
     evs = pre ++ [Called (CGetFundamentals chunk) (Raise e);
                   Printed (UnexpectedError e); Called CLogout lo])
  /\ Forall (fun ev => is_write ev = false) evs.
Proof.
  intros Ht Hin.
  set (a := fst (respond login_call (fst s))).
  set (w1 := snd (respond login_call (fst s))).
  set (aw := fst (respond watchlist_call w1)).
  destruct (v <-? a ;; has_access_token v) as [[|]|e0] eqn:Hlogin.
  2, 3: exfalso;
    destruct (export_login_refused W respond s) as (n & Hrun & _);
    [fold a; rewrite Hlogin; discriminate|];
    fold export in Hrun; rewrite Hrun in Ht; unfold trace in Ht;
    cbn [snd] in Ht; apply app_inv_head in Ht; subst evs;
    destruct Hin as [H|[H|[H|[]]]]; discriminate.
  destruct (raw <-? aw ;; watchlist_tickers raw) as [[|t ts]|e1] eqn:Hw.
  1, 3: exfalso;
    destruct (export_no_ticker W respond s) as (n & Hrun & _);
    [exact Hlogin|fold a w1 aw; rewrite Hw; discriminate|];
    fold export in Hrun; rewrite Hrun in Ht; unfold trace in Ht;
    cbn [snd] in Ht; apply app_inv_head in Ht; subst evs;
    destruct Hin as [H|[H|[H|[H|[]]]]]; discriminate.
  destruct aw as [raw|] eqn:Haw; [|discriminate]. cbn [rbind] in Hw.
  destruct (export_reached W respond s raw t ts Hlogin Haw Hw)
    as (m & pm & warn & calls & tail & lo & Hrun & _ & Hwarn & _ & _ & Hend
        & _).
  fold export in Hrun. rewrite Hrun in Ht. apply app_inv_head in Ht.
  subst evs.
  assert (Hwq : Forall (fun ev => is_write ev = false
                                  /\ is_fundamentals_call ev = false) warn).
  { destruct Hwarn as [->|(e' & -> & _)]; repeat constructor. }
  destruct Hin as [H|[H|[H|Hin]]]; try discriminate.
  apply in_app_or in Hin as [Hin|Hin].
  { apply (proj1 (Forall_forall _ _) Hwq) in Hin. destruct Hin. discriminate. }
  apply in_app_or in Hin as [Hin|Hin].
  2: { exfalso. apply in_app_or in Hin as [Hin|[Hin|[]]]; [|discriminate].
       apply (proj1 (Forall_forall _ _) (ending_kinds _ _ _ _ _ Hend)) in Hin.
       destruct Hin. discriminate. }
  apply in_paced_request in Hin.
  assert (Hbad : ~ contributed (chunk, Raise e)).
  { intros [r Hr]. discriminate. }
  destruct Hend as [earlier chunk' answer e' -> Hearlier Hc ->
                   |records e' _ HF _ _|records _ HF _ _
                   |records rows _ HF _ _ _ _];
    try (exfalso; apply Hbad;
         apply (proj1 (Forall_forall _ _) (Forall2_contributed _ _ HF));
         exact Hin).
  apply in_app_or in Hin as [Hin|[Hin|[]]].
  { exfalso. apply Hbad.
    apply (proj1 (Forall_forall _ _) Hearlier). exact Hin. }
  injection Hin as -> ->. simpl in Hc. injection Hc as <-.
  split.
  - match goal with
    | |- exists pre lo, ?x :: ?y :: ?z :: _ = _ =>
        exists (x :: y :: z
                :: warn ++ flat_map paced_request earlier ++ [Slept]), lo
    end.
    cbn [app]. do 3 f_equal. rewrite flat_map_app. simpl.
    rewrite <- !app_assoc. reflexivity.
  - repeat constructor.
    apply Forall_app. split.
    { eapply Forall_impl; [|exact Hwq]. now intros ev [H _]. }
    apply Forall_app. split.
    { eapply Forall_impl; [|apply paced_kinds]. now intros ev (_ & H & _). }
    repeat constructor.
Qed.

End ReachedProperties.

(* ================================================================== *)
(** ** The write to the sheet within a run *)

Lemma calls_of_app (a b : list event) :
  calls_of (a ++ b) = calls_of a ++ calls_of b.
Proof.
  induction a as [|[c x| |n] a IH]; simpl; congruence.
Qed.

Lemma no_write_calls (evs : list event) :
  (forall t r, ~ In (CUpdate t r) (calls_of evs)) ->
  Forall (fun ev => is_write ev = false) evs.
Proof.
  induction evs as [|[c x| |n] evs IH]; simpl; intros H; constructor;
    try reflexivity; try (apply IH; intros t r Hin; apply (H t r); auto).
  destruct c; try reflexivity. exfalso. eapply H. left. reflexivity.
Qed.

Lemma split_after_quiet (A B pre post : list event) (x : event) :
  Forall (fun ev => is_write ev = false) A ->
  is_write x = true ->
  pre ++ x :: post = A ++ B ->
  exists B1, pre = A ++ B1 /\ B = B1 ++ x :: post.
Proof.
  intros HA Hx. revert pre.
  induction HA as [|a A Ha _ IH]; intros pre H.
  - exists pre. split; [reflexivity|]. symmetry. exact H.
  - destruct pre as [|p pre]; simpl in H; injection H as -> H.
    + congruence.
    + destruct (IH pre H) as (B1 & -> & ->). now exists B1.
Qed.

Ltac peel H X :=
  repeat (destruct X as [|? X]; cbn [app] in H;
          [try discriminate H|injection H as <- H]);
  try (destruct X; discriminate H).

Lemma write_closes_order (df : list OutputRow) (order : list call)
    (k : nat) (X Y : list call) (t : list (list pyval)) (r : string) :
  In order (sheet_orders df) ->
  firstn k order ++ [CLogout] = X ++ CUpdate t r :: Y ->
  Y = [CLogout]
  /\ t = COLUMNS :: map row_values df
  /\ (forall t' r', ~ In (CUpdate t' r') X)
  /\ (In CClear X
      \/ In (CAddWorksheet WORKSHEET_NAME (List.length df + 1) 5) X).
Proof.
  intros [<-|[<-|[<-|[]]]] H;
    destruct k as [|[|[|[|[|[|[|k]]]]]]]; cbn [firstn app] in H;
    peel H X; injection H as <- <- <-;
    (split; [reflexivity|]; split; [reflexivity|]; split;
     [intros t' r' Hin; simpl in Hin; intuition discriminate
     |simpl; auto 10]).
Qed.

Section SheetWrite.

Variable W : Type.
Variable respond : call -> W -> result pyval * W.

Let export := export_24hr_market_to_csv_and_sheet W respond.

(** In every run the sheet is written at most once: a write is preceded
    by no other write and by a call that clears the worksheet or creates
    it with one row per table row and five columns, and it is followed by
    no call but the logout. *)
Theorem sheet_written_once_and_last (s : state W) (evs pre post : list event)
    (table : list (list pyval)) (range : string) (answer : result pyval) :
  trace (export s) = snd s ++ evs ->
  evs = pre ++ Called (CUpdate table range) answer :: post ->
  Forall (fun ev => is_write ev = false) pre
  /\ (In CClear (calls_of pre)
      \/ In (CAddWorksheet WORKSHEET_NAME (List.length table) 5)
           (calls_of pre))
  /\ calls_of post = [CLogout]
  /\ Forall (fun ev => is_write ev = false) post.
Proof.
  intros Ht Hevs.
  assert (Hin : In (Called (CUpdate table range) answer) evs).
  { rewrite Hevs. apply in_elt. }
  set (a := fst (respond login_call (fst s))).
  set (w1 := snd (respond login_call (fst s))).
  set (aw := fst (respond watchlist_call w1)).
  destruct (v <-? a ;; has_access_token v) as [[|]|e0] eqn:Hlogin.
  2, 3: exfalso;
    destruct (export_login_refused W respond s) as (n & Hrun & _);
    [fold a; rewrite Hlogin; discriminate|];
    fold export in Hrun; rewrite Hrun in Ht; unfold trace in Ht;
    cbn [snd] in Ht; apply app_inv_head in Ht;
    rewrite <- Ht in Hin; destruct Hin as [H|[H|[H|[]]]]; discriminate.
  destruct (raw <-? aw ;; watchlist_tickers raw) as [[|t ts]|e1] eqn:Hw.
  1, 3: exfalso;
    destruct (export_no_ticker W respond s) as (n & Hrun & _);
    [exact Hlogin|fold a w1 aw; rewrite Hw; discriminate|];
    fold export in Hrun; rewrite Hrun in Ht; unfold trace in Ht;
    cbn [snd] in Ht; apply app_inv_head in Ht;
    rewrite <- Ht in Hin; destruct Hin as [H|[H|[H|[H|[]]]]]; discriminate.
  destruct aw as [raw|] eqn:Haw; [|discriminate]. cbn [rbind] in Hw.
  destruct (export_reached W respond s raw t ts Hlogin Haw Hw)
    as (m & pm & warn & calls & tail & lo & Hrun & _ & Hwarn & _ & _ & Hend
        & _).
  fold export in Hrun. rewrite Hrun in Ht. apply app_inv_head in Ht.
  rewrite Hevs in Ht. clear Hin Hevs.
  match type of Ht with
  | ?x :: ?y :: ?z :: _ = _ =>
      set (A := x :: y :: z :: warn ++ flat_map paced_request calls) in *
  end.
  assert (HA : Forall (fun ev => is_write ev = false) A).
  { unfold A. repeat constructor. apply Forall_app. split.
    - destruct Hwarn as [->|(e & -> & _)]; repeat constructor.
    - eapply Forall_impl; [|apply paced_kinds]. now intros ev (_ & H & _). }
  assert (Hsplit : pre ++ Called (CUpdate table range) answer :: post
                   = A ++ tail ++ [Called CLogout lo]).
  { rewrite <- Ht. unfold A. cbn [app]. now rewrite <- !app_assoc. }
  apply split_after_quiet in Hsplit as (B1 & -> & HB); [|exact HA|reflexivity].
  apply (f_equal calls_of) in HB. rewrite !calls_of_app in HB.
  cbn [calls_of app] in HB.
  assert (Hclose : calls_of post = [CLogout]
                   /\ (forall t' r', ~ In (CUpdate t' r') (calls_of B1))
                   /\ (In CClear (calls_of B1)
                       \/ In (CAddWorksheet WORKSHEET_NAME
                                (List.length table) 5) (calls_of B1))).
  { destruct Hend as [earlier chunk ans e _ _ _ ->
                     |records e _ _ _ ->|records _ _ _ ->
                     |records rows _ _ _ _ _ (order & k & Ho & Hk)];
      try (exfalso; cbn [calls_of app] in HB;
           destruct (calls_of B1) as [|c [|c' l]]; discriminate HB).
    rewrite Hk in HB.
    destruct (write_closes_order _ _ _ _ _ _ _ Ho HB)
      as (Hy & -> & Hno & Hprep).
    split; [exact Hy|]. split; [exact Hno|].
    cbn [List.length]. rewrite length_map, <- Nat.add_1_r. exact Hprep. }
  destruct Hclose as (Hpost & Hno & Hprep).
  split; [|split; [|split; [exact Hpost|]]].
  - apply Forall_app. split; [exact HA|]. now apply no_write_calls.
  - rewrite calls_of_app.
    destruct Hprep as [H|H]; [left|right]; apply in_or_app; now right.
  - apply no_write_calls. rewrite Hpost. intros t' r' [H|[]]. discriminate.
Qed.

End SheetWrite.

(* ================================================================== *)
(** ** What is written, and when the merge fails *)

Section SheetContent.

Variable W : Type.
Variable respond : call -> W -> result pyval * W.

Let export := export_24hr_market_to_csv_and_sheet W respond.

(** Whatever a run writes to the sheet comes from the merge of what it was
    given: the login passed, the watchlist answer gave the instrument map,
    the price map is the one the quote answer gives for its symbols, every
    batch of these symbols was requested and every answer contributed, and
    the merge of these three made a non-empty list of rows.  The table,
    written at ["A1"], has the header and one line per row, in order, with
    the row's Price, Marketcap Value and Marketcap Unit; and when the Name
    and the Symbol of every row are strings, which the data frame keeps as
    they are, the table is exactly the header followed by the rows. *)
Theorem sheet_content (s : state W) (evs : list event)
    (table : list (list pyval)) (range : string) (answer : result pyval) :
  let a := fst (respond login_call (fst s)) in
  let w1 := snd (respond login_call (fst s)) in
  let aw := fst (respond watchlist_call w1) in
  let w2 := snd (respond watchlist_call w1) in
  trace (export s) = snd s ++ evs ->
  In (Called (CUpdate table range) answer) evs ->
  exists raw instrument_map latest_prices_map records rows,
    (v <-? a ;; has_access_token v) = Ok true
    /\ aw = Ok raw
    /\ watchlist_map raw = Ok instrument_map
    /\ prices_from (dict_keys instrument_map)
         (fst (respond (CGetLatestPrice (dict_keys instrument_map)) w2))
       = Ok latest_prices_map
    /\ map fst (fundamentals_calls evs)
       = ticker_chunks (dict_keys instrument_map)
    /\ Forall2 (fun ca r => contribution (snd ca) = Ok r)
         (fundamentals_calls evs) records
    /\ merge instrument_map latest_prices_map (List.concat records) = Ok rows
    /\ rows <> []
    /\ List.length table = S (List.length rows)
    /\ map string_cells table
       = map string_cells (COLUMNS :: map row_values rows)
    /\ (forallb text_row rows = true ->
        table = COLUMNS :: map row_values rows)
    /\ range = "A1".
Proof.
  intros a w1 aw w2 Ht Hin.
  destruct (v <-? a ;; has_access_token v) as [[|]|e0] eqn:Hlogin.
  2, 3: exfalso;
    destruct (export_login_refused W respond s) as (n & Hrun & _);
    [fold a; rewrite Hlogin; discriminate|];
    fold export in Hrun; rewrite Hrun in Ht; unfold trace in Ht;
    cbn [snd] in Ht; apply app_inv_head in Ht;
    rewrite <- Ht in Hin; destruct Hin as [H|[H|[H|[]]]]; discriminate.
  destruct (raw <-? aw ;; watchlist_tickers raw) as [[|t ts]|e1] eqn:Hw.
  1, 3: exfalso;
    destruct (export_no_ticker W respond s) as (n & Hrun & _);
    [exact Hlogin|fold a w1 aw; rewrite Hw; discriminate|];
    fold export in Hrun; rewrite Hrun in Ht; unfold trace in Ht;
    cbn [snd] in Ht; apply app_inv_head in Ht;
    rewrite <- Ht in Hin; destruct Hin as [H|[H|[H|[H|[]]]]]; discriminate.
  destruct aw as [raw|] eqn:Haw; [|discriminate]. cbn [rbind] in Hw.
  destruct (export_reached W respond s raw t ts Hlogin Haw Hw)
    as (m & pm & warn & calls & tail & lo & Hrun & Hkeys & Hwarn & _ & _
        & Hend & Hmap & Hfrom).
  fold export in Hrun. rewrite Hrun in Ht. apply app_inv_head in Ht.
  assert (Hw0 : Forall (fun ev => is_write ev = false
                                  /\ is_fundamentals_call ev = false) warn).
  { destruct Hwarn as [->|(e & -> & _)]; repeat constructor. }
  pose proof (ending_kinds _ _ _ _ _ Hend) as Htail.
  assert (Hfc : fundamentals_calls evs = calls).
  { rewrite <- Ht. unfold login_call, watchlist_call.
    cbn [fundamentals_calls].
    rewrite !fundamentals_calls_app, fundamentals_calls_paced.
    rewrite (fundamentals_calls_none warn)
      by (eapply Forall_impl; [|exact Hw0]; now intros ev [_ H]).
    rewrite (fundamentals_calls_none tail)
      by (eapply Forall_impl; [|exact Htail]; now intros ev [H _]).
    simpl. now rewrite app_nil_r. }
  rewrite <- Ht in Hin.
  destruct Hin as [H|[H|[H|Hin]]]; try discriminate.
  apply in_app_or in Hin as [Hin|Hin].
  { exfalso. apply (proj1 (Forall_forall _ _) Hw0) in Hin.
    destruct Hin. discriminate. }
  apply in_app_or in Hin as [Hin|Hin].
  { exfalso. apply (proj1 (Forall_forall _ _) (paced_kinds calls)) in Hin.
    destruct Hin as (_ & Hin & _). discriminate. }
  apply in_app_or in Hin as [Hin|[Hin|[]]]; [|discriminate].
  destruct Hend as [earlier chunk ans e _ _ _ ->
                   |records e _ _ _ ->|records _ _ _ ->
                   |records rows Hm HF Hmerge Hne Hs _];
    try (destruct Hin as [Hin|[]]; discriminate).
  apply (proj1 (Forall_forall _ _) Hs) in Hin. simpl in Hin.
  destruct Hin as [-> ->].
  exists raw, m, pm, records, rows.
  rewrite Hfc, Hkeys.
  repeat split; auto.
  cbn [List.length]. now rewrite length_map.
Qed.

End SheetContent.

Lemma merge_record_raise_inv (instrument_map : pydict instrument_entry)
    (latest_prices_map : pydict string) (fund : pyval) (e : exn) :
  merge_record instrument_map latest_prices_map fund = Raise e ->
  emits_row fund = true
  /\ ((is_hashable (record_symbol fund) = false /\ e = TypeError)
      \/ (is_hashable (record_symbol fund) = true /\ e = OverflowError
          /\ exists z, py_get fund "market_cap" PNone = PInt z
                       /\ float_of_int z = Raise OverflowError)).
Proof.
  unfold merge_record, emits_row, record_symbol, is_hashable, dict_get.
  destruct (truthy fund && is_dict fund); [|discriminate].
  destruct (hash_key (py_get fund "symbol" (PStr "N/A"))) as [h|];
    cbn [rbind].
  - destruct (format_market_cap (py_get fund "market_cap" PNone))
      as [cap|e'] eqn:Ecap; cbn [rbind]; [discriminate|].
    intros [= <-]. apply format_market_cap_raise_inv in Ecap as (-> & Hz).
    split; [reflexivity|]. right. auto.
  - intros [= <-]. split; [reflexivity|]. left. auto.
Qed.

Lemma merge_record_ok_mergeable (instrument_map : pydict instrument_entry)
    (latest_prices_map : pydict string) (fund : pyval)
    (row : option OutputRow) :
  merge_record instrument_map latest_prices_map fund = Ok row ->
  mergeable fund = true.
Proof.
  unfold merge_record, mergeable, emits_row, record_symbol, is_hashable,
    dict_get.
  destruct (truthy fund && is_dict fund); [|reflexivity].
  destruct (hash_key (py_get fund "symbol" (PStr "N/A"))) as [h|];
    cbn [rbind]; [|discriminate].
  destruct (format_market_cap (py_get fund "market_cap" PNone));
    [reflexivity|discriminate].
Qed.

Lemma merge_loop_raise_inv (instrument_map : pydict instrument_entry)
    (latest_prices_map : pydict string) (funds : list pyval) (e : exn) :
  forall final_data,
    merge_loop instrument_map latest_prices_map funds final_data = Raise e ->
    exists before fund after,
      funds = before ++ fund :: after
      /\ Forall (fun g => mergeable g = true) before
      /\ merge_record instrument_map latest_prices_map fund = Raise e.
Proof.
  induction funds as [|f funds IH]; intros final_data; simpl; [discriminate|].
  destruct (merge_record instrument_map latest_prices_map f) as [row|e']
    eqn:Ef; cbn [rbind].
  - intros H. destruct (IH _ H) as (before & fund & after & -> & Hb & Hr).
    exists (f :: before), fund, after. split; [reflexivity|].
    split; [|exact Hr]. constructor; [|exact Hb].
    eapply merge_record_ok_mergeable; eauto.
  - intros [= <-]. exists [], f, funds. repeat split; auto.
Qed.

(** The merge raises in two situations only, at the first record that is
    a non-empty dict and either carries a symbol that cannot be a dict key
    ([TypeError]) or an integer market cap too large for a float
    ([OverflowError]); every record before it was processed. *)
Theorem merge_failure_causes (instrument_map : pydict instrument_entry)
    (latest_prices_map : pydict string) (all_fundamentals : list pyval)
    (e : exn) :
  merge instrument_map latest_prices_map all_fundamentals = Raise e ->
  exists before fund after,
    all_fundamentals = before ++ fund :: after
    /\ Forall (fun g => mergeable g = true) before
    /\ emits_row fund = true
    /\ ((is_hashable (record_symbol fund) = false /\ e = TypeError)
        \/ (is_hashable (record_symbol fund) = true /\ e = OverflowError
            /\ exists z, py_get fund "market_cap" PNone = PInt z
                         /\ float_of_int z = Raise OverflowError)).
Proof.
  intros H. apply merge_loop_raise_inv in H
    as (before & fund & after & Hf & Hb & Hr).
  apply merge_record_raise_inv in Hr as (Hrow & Hcause).
  exists before, fund, after. auto.
Qed.

(* ================================================================== *)
(** ** The properties above on scripted days *)

Lemma login_gate_witness :
  (v <-? on_login (with_login fair_day (Ok PNone)) ;; has_access_token v)
  <> Ok true
  /\ exists n,
       run_script (with_login fair_day (Ok PNone))
       = (Ok tt,
          (2%nat,
           [Called login_call (Ok PNone); Printed n;
            Called CLogout (Ok PNone)]))
       /\ n = LoginFailed.
Proof.
  assert (H : (v <-? on_login (with_login fair_day (Ok PNone)) ;;
               has_access_token v) <> Ok true)
    by (vm_compute; discriminate).
  split; [exact H|].
  destruct (login_gate nat (scripted (with_login fair_day (Ok PNone)))
              (0%nat, []) H) as (n & Hn & Hrefused & _).
  exists n. split; [exact Hn|]. apply Hrefused. reflexivity.
Defined.

Lemma watchlist_gate_witness :
  (v <-? on_login fair_day ;; has_access_token v) = Ok true
  /\ (forall t ts,
        (raw <-? Ok (PList [PDict [("name", PStr "x")]]) ;;
         watchlist_tickers raw) <> Ok (t :: ts))
  /\ exists n,
       run_script (with_watchlist fair_day
                     (Ok (PList [PDict [("name", PStr "x")]])))
       = (Ok tt,
          (3%nat,
           [Called login_call (on_login fair_day);
            Called watchlist_call (Ok (PList [PDict [("name", PStr "x")]]));
            Printed n; Called CLogout (Ok PNone)]))
       /\ n = NoTickerSymbols.
Proof.
  assert (Hl : (v <-? on_login fair_day ;; has_access_token v) = Ok true)
    by reflexivity.
  assert (Hw : forall t ts,
             (raw <-? Ok (PList [PDict [("name", PStr "x")]]) ;;
              watchlist_tickers raw) <> Ok (t :: ts))
    by (intros t ts; vm_compute; discriminate).
  split; [exact Hl|]. split; [exact Hw|].
  destruct (watchlist_gate nat
              (scripted (with_watchlist fair_day
                           (Ok (PList [PDict [("name", PStr "x")]]))))
              (0%nat, []) Hl Hw) as (n & Hn & _ & Hnone & _).
  exists n. split; [exact Hn|].
  apply (Hnone (PList [PDict [("name", PStr "x")]])); reflexivity.
Defined.

Lemma quotes_then_fundamentals_witness :
  (v <-? on_login fair_day ;; has_access_token v) = Ok true
  /\ (raw <-? on_watchlist fair_day ;; watchlist_tickers raw)
     = Ok [PStr "AAPL"; PStr "TSLA"]
  /\ exists rest,
       trace (run_script fair_day)
       = Called login_call (on_login fair_day)
           :: Called watchlist_call (on_watchlist fair_day)
           :: Called (CGetLatestPrice [PStr "AAPL"; PStr "TSLA"])
                (on_prices fair_day [PStr "AAPL"; PStr "TSLA"])
           :: rest
       /\ Forall (fun ev => is_quote_call ev = false) rest
       /\ map fst (fundamentals_calls rest) = [[PStr "AAPL"; PStr "TSLA"]].
Proof.
  split; [reflexivity|]. split; [reflexivity|].
  destruct (quotes_then_fundamentals nat (scripted fair_day) (0%nat, [])
              (PDict [("results",
                       PList [instrument "AAPL" "Apple";
                              instrument "TSLA" "Tesla"])])
              (PStr "AAPL") [PStr "TSLA"]
              eq_refl eq_refl eq_refl)
    as (rest & Ht & Hq & (answer & more & Hfirst) & Hall).
  exists rest. split; [exact Ht|]. split; [exact Hq|].
  rewrite Hfirst in Hall |- *.
  change (ticker_chunks _) with [[PStr "AAPL"; PStr "TSLA"]] in Hall.
  destruct more as [|x more]; [reflexivity|].
  simpl in Hall. discriminate.
Defined.

Lemma quote_failure_is_isolated_witness :
  (v <-? on_login quotes_down_day ;; has_access_token v) = Ok true
  /\ (raw <-? on_watchlist quotes_down_day ;; watchlist_tickers raw)
     = Ok [PStr "AAPL"; PStr "TSLA"]
  /\ on_prices quotes_down_day [PStr "AAPL"; PStr "TSLA"]
     = Raise (OtherException "quotes unavailable")
  /\ In (Printed (PriceFetchWarning (OtherException "quotes unavailable")))
       (trace (run_script quotes_down_day))
  /\ forall table range answer,
       In (Called (CUpdate table range) answer)
         (trace (run_script quotes_down_day)) ->
       exists rows,
         table = COLUMNS :: map row_values rows
         /\ Forall (fun r => Price r = "N/A") rows.
Proof.
  split; [reflexivity|]. split; [reflexivity|]. split; [reflexivity|].
  destruct (quote_failure_is_isolated nat (scripted quotes_down_day)
              (0%nat, [])
              (PDict [("results",
                       PList [instrument "AAPL" "Apple";
                              instrument "TSLA" "Tesla"])])
              (PStr "AAPL") [PStr "TSLA"]
              (OtherException "quotes unavailable")
              eq_refl eq_refl eq_refl eq_refl)
    as (evs & Ht & Hwarn & _ & Hrows).
  change (trace (run_script quotes_down_day) = evs) in Ht.
  rewrite Ht. split; [exact Hwarn|exact Hrows].
Defined.

Lemma fundamentals_failure_is_fatal_witness :
  In (Called (CGetFundamentals [PStr "AAPL"; PStr "TSLA"])
        (Raise (OtherException "fundamentals unavailable")))
    (trace (run_script fundamentals_down_day))
  /\ (exists pre lo,
        trace (run_script fundamentals_down_day)
        = pre ++ [Called (CGetFundamentals [PStr "AAPL"; PStr "TSLA"])
                    (Raise (OtherException "fundamentals unavailable"));
                  Printed (UnexpectedError
                             (OtherException "fundamentals unavailable"));
                  Called CLogout lo])
  /\ Forall (fun ev => is_write ev = false)
       (trace (run_script fundamentals_down_day)).
Proof.
  assert (Hin : In (Called (CGetFundamentals [PStr "AAPL"; PStr "TSLA"])
                      (Raise (OtherException "fundamentals unavailable")))
                  (trace (run_script fundamentals_down_day)))
    by (vm_compute; tauto).
  split; [exact Hin|].
  exact (fundamentals_failure_is_fatal nat (scripted fundamentals_down_day)
           (0%nat, []) [PStr "AAPL"; PStr "TSLA"]
           (OtherException "fundamentals unavailable")
           (trace (run_script fundamentals_down_day)) eq_refl Hin).
Defined.

Lemma sheet_written_once_and_last_witness :
  trace (run_script fair_day)
  = firstn 9 (trace (run_script fair_day))
    ++ Called (CUpdate
                 (COLUMNS
                  :: map row_values
                       [mkRow (PStr "Apple") (PStr "AAPL") "$150.00" "4.44" "T";
                        mkRow (PStr "Tesla") (PStr "TSLA") "$150.00" "4.44" "T"])
                 "A1") (Ok PNone)
    :: [Called CLogout (Ok PNone)]
  /\ Forall (fun ev => is_write ev = false)
       (firstn 9 (trace (run_script fair_day)))
  /\ (In CClear (calls_of (firstn 9 (trace (run_script fair_day))))
      \/ In (CAddWorksheet WORKSHEET_NAME 3 5)
           (calls_of (firstn 9 (trace (run_script fair_day)))))
  /\ calls_of [Called CLogout (Ok PNone)] = [CLogout].
Proof.
  assert (H : trace (run_script fair_day)
              = firstn 9 (trace (run_script fair_day))
                ++ Called (CUpdate
                             (COLUMNS
                              :: map row_values
                                   [mkRow (PStr "Apple") (PStr "AAPL")
                                      "$150.00" "4.44" "T";
                                    mkRow (PStr "Tesla") (PStr "TSLA")
                                      "$150.00" "4.44" "T"])
                             "A1") (Ok PNone)
                :: [Called CLogout (Ok PNone)])
    by (vm_compute; reflexivity).
  split; [exact H|].
  destruct (sheet_written_once_and_last nat (scripted fair_day) (0%nat, [])
              _ _ _ _ _ _ eq_refl H) as (Hpre & Hprep & Hpost & _).
  split; [exact Hpre|]. split; [exact Hprep|exact Hpost].
Defined.

Lemma sheet_content_witness :
  In (Called (CUpdate
                (COLUMNS
                 :: map row_values
                      [mkRow (PStr "Apple") (PStr "AAPL") "$150.00" "4.44" "T";
                       mkRow (PStr "Tesla") (PStr "TSLA") "$150.00" "4.44" "T"])
                "A1") (Ok PNone))
    (trace (run_script fair_day))
  /\ exists instrument_map latest_prices_map records rows,
       watchlist_map
         (PDict [("results",
                  PList [instrument "AAPL" "Apple"; instrument "TSLA" "Tesla"])])
       = Ok instrument_map
       /\ prices_from (dict_keys instrument_map)
            (on_prices fair_day (dict_keys instrument_map))
          = Ok latest_prices_map
       /\ Forall2 (fun ca r => contribution (snd ca) = Ok r)
            (fundamentals_calls (trace (run_script fair_day))) records
       /\ merge instrument_map latest_prices_map (List.concat records)
          = Ok rows
       /\ forallb text_row rows = true
       /\ COLUMNS
            :: map row_values
                 [mkRow (PStr "Apple") (PStr "AAPL") "$150.00" "4.44" "T";
                  mkRow (PStr "Tesla") (PStr "TSLA") "$150.00" "4.44" "T"]
          = COLUMNS :: map row_values rows.
Proof.
  assert (Hin : In (Called (CUpdate
                              (COLUMNS
                               :: map row_values
                                    [mkRow (PStr "Apple") (PStr "AAPL")
                                       "$150.00" "4.44" "T";
                                     mkRow (PStr "Tesla") (PStr "TSLA")
                                       "$150.00" "4.44" "T"])
                              "A1") (Ok PNone))
                  (trace (run_script fair_day)))
    by (vm_compute; tauto).
  split; [exact Hin|].
  destruct (sheet_content nat (scripted fair_day) (0%nat, [])
              (trace (run_script fair_day)) _ _ _ eq_refl Hin)
    as (raw & m & pm & records & rows & _ & Hraw & Hmap & Hfrom & _ & HF
        & Hmerge & _ & _ & _ & Htable & _).
  injection Hraw as <-.
  exists m, pm, records, rows.
  split; [exact Hmap|]. split; [exact Hfrom|]. split; [exact HF|].
  split; [exact Hmerge|].
  assert (Htext : forallb text_row rows = true).
  { vm_compute in Hmap. injection Hmap as <-.
    vm_compute in Hfrom. injection Hfrom as <-.
    vm_compute in HF.
    inversion HF as [|ca r calls recs Hr Hrest]; subst.
    inversion Hrest; subst. injection Hr as <-.
    vm_compute in Hmerge. injection Hmerge as <-. reflexivity. }
  split; [exact Htext|exact (Htable Htext)].
Defined.

Lemma merge_failure_causes_witness :
  merge example_names example_prices
    [PDict [("symbol", PStr "AAPL"); ("market_cap", PStr "1")];
     PDict [("symbol", PStr "TSLA"); ("market_cap", PInt (2 ^ 1024))]]
  = Raise OverflowError
  /\ exists before fund after,
       [PDict [("symbol", PStr "AAPL"); ("market_cap", PStr "1")];
        PDict [("symbol", PStr "TSLA"); ("market_cap", PInt (2 ^ 1024))]]
       = before ++ fund :: after
       /\ Forall (fun g => mergeable g = true) before
       /\ emits_row fund = true.
Proof.
  assert (H : merge example_names example_prices
                [PDict [("symbol", PStr "AAPL"); ("market_cap", PStr "1")];
                 PDict [("symbol", PStr "TSLA");
                        ("market_cap", PInt (2 ^ 1024))]]
              = Raise OverflowError)
    by (vm_compute; reflexivity).
  split; [exact H|].
  destruct (merge_failure_causes _ _ _ _ H)
    as (before & fund & after & Hf & Hb & Hrow & _).
  exists before, fund, after. auto.
Defined.
